(** * BreathPipeline: a shallow embedding of [src/esp32/breath_pipeline.h]

    The single-header respiratory pipeline is embedded function by function.

    - Integers of the C++ source are [Z] with their wrap-around written
      out; [size_t] and [unsigned long] are 32 bits wide on the ESP32.
    - [float] is IEEE-754 binary32: [spec_float] at precision 24 and
      emax 128, every operation rounded to nearest even on its own (a
      compiler that contracts [a * b + c] into a fused multiply-add may
      differ in the last bit; no statement below depends on it).
    - Fixed arrays are lists read with stdpp's total lookup and written
      with its insert; every index the code computes is reduced modulo
      the array size, so none leaves the array.
    - The function-local [static] variables of the source are fields of
      the pipeline state: they outlive the calls and are shared by them.
    - The clocks and the ADC are inputs of [tick]; the events handed to
      the registered callback are its output.  [expf] of the C library is
      a parameter of the functions that call it. *)

From Stdlib Require Import ZArith Bool List Lia Permutation Sorted.
From Stdlib Require Import Floats.SpecFloat.
From stdpp Require Import base list.
Import ListNotations.

Open Scope Z_scope.

(** ** Machine integers *)

Definition wrap8 (z : Z) : Z := z mod 2 ^ 8.
Definition wrap16 (z : Z) : Z := z mod 2 ^ 16.
Definition wrap32 (z : Z) : Z := z mod 2 ^ 32.

(** [(int32_t)z] for an unsigned 32-bit [z]. *)
Definition to_int32 (z : Z) : Z :=
  let u := wrap32 z in if u <? 2 ^ 31 then u else u - 2 ^ 32.

(** Arduino's [min] and [max] on integers. *)
Definition imin (a b : Z) : Z := if a <? b then a else b.
Definition imax (a b : Z) : Z := if a >? b then a else b.

(** ** binary32 arithmetic *)

Definition float32 : Type := spec_float.

Definition prec32 : Z := 24.
Definition emax32 : Z := 128.

Definition fadd : float32 -> float32 -> float32 := SFadd prec32 emax32.
Definition fsub : float32 -> float32 -> float32 := SFsub prec32 emax32.
Definition fmul : float32 -> float32 -> float32 := SFmul prec32 emax32.
Definition fdiv : float32 -> float32 -> float32 := SFdiv prec32 emax32.
Definition fneg : float32 -> float32 := SFopp.
Definition fabsf : float32 -> float32 := SFabs.
Definition flt (a b : float32) : bool := SFltb a b.
Definition fle (a b : float32) : bool := SFleb a b.
Definition fgt (a b : float32) : bool := SFltb b a.
Definition fge (a b : float32) : bool := SFleb b a.

(** Conversion of an integer to [float] (round to nearest even). *)
Definition Z2F (z : Z) : float32 := binary_normalize prec32 emax32 z 0 false.

(** A decimal literal [n/d] whose numerator and denominator are exact in
    binary32: one correctly rounded division gives the literal's value. *)
Definition flit (n d : Z) : float32 := fdiv (Z2F n) (Z2F d).

Definition f0 : float32 := S754_zero false.
Definition f1 : float32 := Z2F 1.

(** Arduino's [max] on floats, [((a)>(b)?(a):(b))]; it differs from
    [std::max] on NaN only. *)
Definition max_float (a b : float32) : float32 := if fgt a b then a else b.

(** Integer part of a float, toward zero; [None] for NaN and infinities. *)
Definition ftrunc (x : float32) : option Z :=
  match x with
  | S754_zero _ => Some 0
  | S754_finite s m e =>
      let a := if 0 <=? e then Z.pos m * 2 ^ e else Z.pos m / 2 ^ (- e) in
      Some (if s then - a else a)
  | _ => None
  end.

(** [(uint32_t)x] and [(size_t)x].  The conversion is undefined in C++ when
    the truncated value is out of range; the model clamps there. *)
Definition f2u32 (x : float32) : Z :=
  match ftrunc x with
  | Some z => if z <? 0 then 0 else if 2 ^ 32 <=? z then 2 ^ 32 - 1 else z
  | None => 0
  end.

(** [(int16_t)x], clamped where C++ leaves the conversion undefined. *)
Definition f2i16 (x : float32) : Z :=
  match ftrunc x with
  | Some z => if z <? - 2 ^ 15 then - 2 ^ 15
              else if 2 ^ 15 <=? z then 2 ^ 15 - 1 else z
  | None => 0
  end.

(** [roundf]: nearest integer, halfway cases away from zero. *)
Definition roundf (x : float32) : float32 :=
  match x with
  | S754_finite s m e =>
      if 0 <=? e then x
      else
        let q := (Z.pos m + 2 ^ (- e - 1)) / 2 ^ (- e) in
        binary_normalize prec32 emax32 (if s then - q else q) 0 s
  | _ => x
  end.

#[global] Instance float32_inhabited : Inhabited float32 := populate f0.

(** ** Data model *)

Inductive PrimaryChannel := CH1_A0 | CH2_A1.

(** The gain selector of the ADS1x15 driver. *)
Inductive adsGain_t :=
  GAIN_TWOTHIRDS | GAIN_ONE | GAIN_TWO | GAIN_FOUR | GAIN_EIGHT | GAIN_SIXTEEN.

Module Config.
Record t := mk {
    fsProcHz : Z;
    useADS1115 : bool;
    adsGain : adsGain_t;
    adsChannel1 : Z;
    adsChannel2 : Z;
    primaryChannel : PrimaryChannel;
    baselineTauSec : float32;
    antiRingTaps : Z;
    envTauSec : float32;
    minPeakDistanceSec : float32;
    refractorySec : float32;
    thrEmaTauSec : float32;
    thrFactor : float32;
    hypopneaFrac : float32;
    hypopneaMinSec : float32;
    apneaMinSec : float32;
    recoveryMinSec : float32;
    railMarginMV : float32;
    spikeDerivMV : float32;
    rmsBurstFactor : float32;
    burstFsHz : Z;
    burstPreMs : Z;
    burstPostMs : Z
  }.

  (** The default member initialisers of [struct Config]. *)
Definition default : t := {|
    fsProcHz := 100;
    useADS1115 := false;
    adsGain := GAIN_SIXTEEN;
    adsChannel1 := 0;
    adsChannel2 := 1;
    primaryChannel := CH2_A1;
    baselineTauSec := Z2F 5;
    antiRingTaps := 3;
    envTauSec := flit 3 10;
    minPeakDistanceSec := flit 6 10;
    refractorySec := flit 4 10;
    thrEmaTauSec := Z2F 60;
    thrFactor := flit 45 100;
    hypopneaFrac := flit 5 10;
    hypopneaMinSec := Z2F 10;
    apneaMinSec := Z2F 20;
    recoveryMinSec := Z2F 3;
    railMarginMV := Z2F 2;
    spikeDerivMV := Z2F 30;
    rmsBurstFactor := Z2F 3;
    burstFsHz := 1000;
    burstPreMs := 3000;
    burstPostMs := 3000
  |}.
End Config.

Module ChannelState.
Definition MAX_MA : Z := 8.

Record t := mk {
    dcBaseline : float32;
    maBuf : list float32;
    maIdx : Z;
    maFill : Z;
    env : float32;
    envBaseline : float32;
    lastPeakMs : Z;
    lastCrossMs : Z;
    lastEnvPeak : float32
  }.

Definition zero : t := {|
    dcBaseline := f0;
    maBuf := replicate (Z.to_nat MAX_MA) f0;
    maIdx := 0;
    maFill := 0;
    env := f0;
    envBaseline := f0;
    lastPeakMs := 0;
    lastCrossMs := 0;
    lastEnvPeak := f0
  |}.

Definition set_lastCrossMs (v : Z) (c : t) : t :=
    mk (dcBaseline c) (maBuf c) (maIdx c) (maFill c) (env c) (envBaseline c)
       (lastPeakMs c) v (lastEnvPeak c).

Definition set_peak (ms : Z) (pk : float32) (c : t) : t :=
    mk (dcBaseline c) (maBuf c) (maIdx c) (maFill c) (env c) (envBaseline c)
       ms (lastCrossMs c) pk.
End ChannelState.

Module Status.
Record t := mk {
    bpm : float32;
    signalOK : bool;
    apneaActive : bool;
    hypopneaActive : bool;
    artifact : bool;
    envPrimary : float32;
    envBaselinePrimary : float32;
    thresholdPrimary : float32;
    snrEstimate : float32
  }.

Definition zero : t := mk f0 false false false false f0 f0 f0 f0.

Definition set_bpm (v : float32) (s : t) : t :=
    mk v (signalOK s) (apneaActive s) (hypopneaActive s) (artifact s)
       (envPrimary s) (envBaselinePrimary s) (thresholdPrimary s) (snrEstimate s).
Definition set_signalOK (v : bool) (s : t) : t :=
    mk (bpm s) v (apneaActive s) (hypopneaActive s) (artifact s)
       (envPrimary s) (envBaselinePrimary s) (thresholdPrimary s) (snrEstimate s).
Definition set_apneaActive (v : bool) (s : t) : t :=
    mk (bpm s) (signalOK s) v (hypopneaActive s) (artifact s)
       (envPrimary s) (envBaselinePrimary s) (thresholdPrimary s) (snrEstimate s).
Definition set_hypopneaActive (v : bool) (s : t) : t :=
    mk (bpm s) (signalOK s) (apneaActive s) v (artifact s)
       (envPrimary s) (envBaselinePrimary s) (thresholdPrimary s) (snrEstimate s).
Definition set_artifact (v : bool) (s : t) : t :=
    mk (bpm s) (signalOK s) (apneaActive s) (hypopneaActive s) v
       (envPrimary s) (envBaselinePrimary s) (thresholdPrimary s) (snrEstimate s).
Definition set_primary (e b th snr : float32) (s : t) : t :=
    mk (bpm s) (signalOK s) (apneaActive s) (hypopneaActive s) (artifact s)
       e b th snr.
End Status.

Inductive EventType :=
  ApneaStart | ApneaEnd | HypopneaStart | HypopneaEnd | ArtifactDetected.

Module Event.
Record t := mk { type : EventType; tsMs : Z; durationMs : Z }.
End Event.

Definition TELE_CAP : Z := 256.
Definition RR_WIN : Z := 6.
Definition BURST_CAP : Z := 16000.

Module Telemetry.
Record t := mk {
    tsMs : Z;
    bpm : float32;
    signalOK : bool;
    apnea : bool;
    hypopnea : bool;
    artifact : bool;
    env : float32;
    thr : float32
  }.

Definition zero : t := mk 0 f0 false false false false f0 f0.
End Telemetry.

#[global] Instance telemetry_inhabited : Inhabited Telemetry.t :=
  populate Telemetry.zero.

(** The pipeline object.  [_ads] and [_cb] record whether the pointer is
    non-null.  The last six fields are the function-local [static]
    variables of [detectArtifact], [peakDetectAndRR], [updateApneaFSM] and
    [updateHypopneaFSM]: they live as long as the program and are shared by
    every call. *)
Record BreathPipeline := mkPipeline {
  _ads : bool;
  _cfg : Config.t;
  _ch1 : ChannelState.t;
  _ch2 : ChannelState.t;
  _stat : Status.t;
  _intervalUs : Z;
  _nextSampleUs : Z;
  _rrBuf : list float32;
  _rrIdx : Z;
  _rrFill : Z;
  _tele : list Telemetry.t;
  _tlHead : Z;
  _tlTail : Z;
  _burstCh1 : list Z;
  _burstCh2 : list Z;
  _burstHead : Z;
  _burstTail : Z;
  _burstFill : Z;
  _burstActive : bool;
  _burstPostRemain : Z;
  _alphaDC : float32;
  _alphaEnv : float32;
  _alphaThr : float32;
  _lsb_mV : float32;
  _cb : bool;
  prevEnv : float32;
  prevAbove : bool;
  lastEventMs : Z;
  apneaActive : bool;
  hypoStartMs : Z;
  hypoActive : bool
}.

Definition set_ads (v : bool) (p : BreathPipeline) : BreathPipeline :=
  mkPipeline
    v (_cfg p) (_ch1 p) (_ch2 p) (_stat p) (_intervalUs p) (_nextSampleUs p)
    (_rrBuf p) (_rrIdx p) (_rrFill p) (_tele p) (_tlHead p) (_tlTail p)
    (_burstCh1 p) (_burstCh2 p) (_burstHead p) (_burstTail p) (_burstFill p)
    (_burstActive p) (_burstPostRemain p) (_alphaDC p) (_alphaEnv p)
    (_alphaThr p) (_lsb_mV p) (_cb p) (prevEnv p) (prevAbove p)
    (lastEventMs p) (apneaActive p) (hypoStartMs p) (hypoActive p).
Definition set_cfg (v : Config.t) (p : BreathPipeline) : BreathPipeline :=
  mkPipeline
    (_ads p) v (_ch1 p) (_ch2 p) (_stat p) (_intervalUs p) (_nextSampleUs p)
    (_rrBuf p) (_rrIdx p) (_rrFill p) (_tele p) (_tlHead p) (_tlTail p)
    (_burstCh1 p) (_burstCh2 p) (_burstHead p) (_burstTail p) (_burstFill p)
    (_burstActive p) (_burstPostRemain p) (_alphaDC p) (_alphaEnv p)
    (_alphaThr p) (_lsb_mV p) (_cb p) (prevEnv p) (prevAbove p)
    (lastEventMs p) (apneaActive p) (hypoStartMs p) (hypoActive p).
Definition set_ch1 (v : ChannelState.t) (p : BreathPipeline) : BreathPipeline :=
  mkPipeline
    (_ads p) (_cfg p) v (_ch2 p) (_stat p) (_intervalUs p) (_nextSampleUs p)
    (_rrBuf p) (_rrIdx p) (_rrFill p) (_tele p) (_tlHead p) (_tlTail p)
    (_burstCh1 p) (_burstCh2 p) (_burstHead p) (_burstTail p) (_burstFill p)
    (_burstActive p) (_burstPostRemain p) (_alphaDC p) (_alphaEnv p)
    (_alphaThr p) (_lsb_mV p) (_cb p) (prevEnv p) (prevAbove p)
    (lastEventMs p) (apneaActive p) (hypoStartMs p) (hypoActive p).
Definition set_ch2 (v : ChannelState.t) (p : BreathPipeline) : BreathPipeline :=
  mkPipeline
    (_ads p) (_cfg p) (_ch1 p) v (_stat p) (_intervalUs p) (_nextSampleUs p)
    (_rrBuf p) (_rrIdx p) (_rrFill p) (_tele p) (_tlHead p) (_tlTail p)
    (_burstCh1 p) (_burstCh2 p) (_burstHead p) (_burstTail p) (_burstFill p)
    (_burstActive p) (_burstPostRemain p) (_alphaDC p) (_alphaEnv p)
    (_alphaThr p) (_lsb_mV p) (_cb p) (prevEnv p) (prevAbove p)
    (lastEventMs p) (apneaActive p) (hypoStartMs p) (hypoActive p).
Definition set_stat (v : Status.t) (p : BreathPipeline) : BreathPipeline :=
  mkPipeline
    (_ads p) (_cfg p) (_ch1 p) (_ch2 p) v (_intervalUs p) (_nextSampleUs p)
    (_rrBuf p) (_rrIdx p) (_rrFill p) (_tele p) (_tlHead p) (_tlTail p)
    (_burstCh1 p) (_burstCh2 p) (_burstHead p) (_burstTail p) (_burstFill p)
    (_burstActive p) (_burstPostRemain p) (_alphaDC p) (_alphaEnv p)
    (_alphaThr p) (_lsb_mV p) (_cb p) (prevEnv p) (prevAbove p)
    (lastEventMs p) (apneaActive p) (hypoStartMs p) (hypoActive p).
Definition set_intervalUs (v : Z) (p : BreathPipeline) : BreathPipeline :=
  mkPipeline
    (_ads p) (_cfg p) (_ch1 p) (_ch2 p) (_stat p) v (_nextSampleUs p)
    (_rrBuf p) (_rrIdx p) (_rrFill p) (_tele p) (_tlHead p) (_tlTail p)
    (_burstCh1 p) (_burstCh2 p) (_burstHead p) (_burstTail p) (_burstFill p)
    (_burstActive p) (_burstPostRemain p) (_alphaDC p) (_alphaEnv p)
    (_alphaThr p) (_lsb_mV p) (_cb p) (prevEnv p) (prevAbove p)
    (lastEventMs p) (apneaActive p) (hypoStartMs p) (hypoActive p).
Definition set_nextSampleUs (v : Z) (p : BreathPipeline) : BreathPipeline :=
  mkPipeline
    (_ads p) (_cfg p) (_ch1 p) (_ch2 p) (_stat p) (_intervalUs p) v
    (_rrBuf p) (_rrIdx p) (_rrFill p) (_tele p) (_tlHead p) (_tlTail p)
    (_burstCh1 p) (_burstCh2 p) (_burstHead p) (_burstTail p) (_burstFill p)
    (_burstActive p) (_burstPostRemain p) (_alphaDC p) (_alphaEnv p)
    (_alphaThr p) (_lsb_mV p) (_cb p) (prevEnv p) (prevAbove p)
    (lastEventMs p) (apneaActive p) (hypoStartMs p) (hypoActive p).
Definition set_rrBuf (v : list float32) (p : BreathPipeline) : BreathPipeline :=
  mkPipeline
    (_ads p) (_cfg p) (_ch1 p) (_ch2 p) (_stat p) (_intervalUs p)
    (_nextSampleUs p) v (_rrIdx p) (_rrFill p) (_tele p) (_tlHead p)
    (_tlTail p) (_burstCh1 p) (_burstCh2 p) (_burstHead p) (_burstTail p)
    (_burstFill p) (_burstActive p) (_burstPostRemain p) (_alphaDC p)
    (_alphaEnv p) (_alphaThr p) (_lsb_mV p) (_cb p) (prevEnv p) (prevAbove p)
    (lastEventMs p) (apneaActive p) (hypoStartMs p) (hypoActive p).
Definition set_rrIdx (v : Z) (p : BreathPipeline) : BreathPipeline :=
  mkPipeline
    (_ads p) (_cfg p) (_ch1 p) (_ch2 p) (_stat p) (_intervalUs p)
    (_nextSampleUs p) (_rrBuf p) v (_rrFill p) (_tele p) (_tlHead p)
    (_tlTail p) (_burstCh1 p) (_burstCh2 p) (_burstHead p) (_burstTail p)
    (_burstFill p) (_burstActive p) (_burstPostRemain p) (_alphaDC p)
    (_alphaEnv p) (_alphaThr p) (_lsb_mV p) (_cb p) (prevEnv p) (prevAbove p)
    (lastEventMs p) (apneaActive p) (hypoStartMs p) (hypoActive p).
Definition set_rrFill (v : Z) (p : BreathPipeline) : BreathPipeline :=
  mkPipeline
    (_ads p) (_cfg p) (_ch1 p) (_ch2 p) (_stat p) (_intervalUs p)
    (_nextSampleUs p) (_rrBuf p) (_rrIdx p) v (_tele p) (_tlHead p)
    (_tlTail p) (_burstCh1 p) (_burstCh2 p) (_burstHead p) (_burstTail p)
    (_burstFill p) (_burstActive p) (_burstPostRemain p) (_alphaDC p)
    (_alphaEnv p) (_alphaThr p) (_lsb_mV p) (_cb p) (prevEnv p) (prevAbove p)
    (lastEventMs p) (apneaActive p) (hypoStartMs p) (hypoActive p).
Definition set_tele (v : list Telemetry.t) (p : BreathPipeline) : BreathPipeline :=
  mkPipeline
    (_ads p) (_cfg p) (_ch1 p) (_ch2 p) (_stat p) (_intervalUs p)
    (_nextSampleUs p) (_rrBuf p) (_rrIdx p) (_rrFill p) v (_tlHead p)
    (_tlTail p) (_burstCh1 p) (_burstCh2 p) (_burstHead p) (_burstTail p)
    (_burstFill p) (_burstActive p) (_burstPostRemain p) (_alphaDC p)
    (_alphaEnv p) (_alphaThr p) (_lsb_mV p) (_cb p) (prevEnv p) (prevAbove p)
    (lastEventMs p) (apneaActive p) (hypoStartMs p) (hypoActive p).
Definition set_tlHead (v : Z) (p : BreathPipeline) : BreathPipeline :=
  mkPipeline
    (_ads p) (_cfg p) (_ch1 p) (_ch2 p) (_stat p) (_intervalUs p)
    (_nextSampleUs p) (_rrBuf p) (_rrIdx p) (_rrFill p) (_tele p) v
    (_tlTail p) (_burstCh1 p) (_burstCh2 p) (_burstHead p) (_burstTail p)
    (_burstFill p) (_burstActive p) (_burstPostRemain p) (_alphaDC p)
    (_alphaEnv p) (_alphaThr p) (_lsb_mV p) (_cb p) (prevEnv p) (prevAbove p)
    (lastEventMs p) (apneaActive p) (hypoStartMs p) (hypoActive p).
Definition set_tlTail (v : Z) (p : BreathPipeline) : BreathPipeline :=
  mkPipeline
    (_ads p) (_cfg p) (_ch1 p) (_ch2 p) (_stat p) (_intervalUs p)
    (_nextSampleUs p) (_rrBuf p) (_rrIdx p) (_rrFill p) (_tele p) (_tlHead p)
    v (_burstCh1 p) (_burstCh2 p) (_burstHead p) (_burstTail p)
    (_burstFill p) (_burstActive p) (_burstPostRemain p) (_alphaDC p)
    (_alphaEnv p) (_alphaThr p) (_lsb_mV p) (_cb p) (prevEnv p) (prevAbove p)
    (lastEventMs p) (apneaActive p) (hypoStartMs p) (hypoActive p).
Definition set_burstCh1 (v : list Z) (p : BreathPipeline) : BreathPipeline :=
  mkPipeline
    (_ads p) (_cfg p) (_ch1 p) (_ch2 p) (_stat p) (_intervalUs p)
    (_nextSampleUs p) (_rrBuf p) (_rrIdx p) (_rrFill p) (_tele p) (_tlHead p)
    (_tlTail p) v (_burstCh2 p) (_burstHead p) (_burstTail p) (_burstFill p)
    (_burstActive p) (_burstPostRemain p) (_alphaDC p) (_alphaEnv p)
    (_alphaThr p) (_lsb_mV p) (_cb p) (prevEnv p) (prevAbove p)
    (lastEventMs p) (apneaActive p) (hypoStartMs p) (hypoActive p).
Definition set_burstCh2 (v : list Z) (p : BreathPipeline) : BreathPipeline :=
  mkPipeline
    (_ads p) (_cfg p) (_ch1 p) (_ch2 p) (_stat p) (_intervalUs p)
    (_nextSampleUs p) (_rrBuf p) (_rrIdx p) (_rrFill p) (_tele p) (_tlHead p)
    (_tlTail p) (_burstCh1 p) v (_burstHead p) (_burstTail p) (_burstFill p)
    (_burstActive p) (_burstPostRemain p) (_alphaDC p) (_alphaEnv p)
    (_alphaThr p) (_lsb_mV p) (_cb p) (prevEnv p) (prevAbove p)
    (lastEventMs p) (apneaActive p) (hypoStartMs p) (hypoActive p).
Definition set_burstHead (v : Z) (p : BreathPipeline) : BreathPipeline :=
  mkPipeline
    (_ads p) (_cfg p) (_ch1 p) (_ch2 p) (_stat p) (_intervalUs p)
    (_nextSampleUs p) (_rrBuf p) (_rrIdx p) (_rrFill p) (_tele p) (_tlHead p)
    (_tlTail p) (_burstCh1 p) (_burstCh2 p) v (_burstTail p) (_burstFill p)
    (_burstActive p) (_burstPostRemain p) (_alphaDC p) (_alphaEnv p)
    (_alphaThr p) (_lsb_mV p) (_cb p) (prevEnv p) (prevAbove p)
    (lastEventMs p) (apneaActive p) (hypoStartMs p) (hypoActive p).
Definition set_burstTail (v : Z) (p : BreathPipeline) : BreathPipeline :=
  mkPipeline
    (_ads p) (_cfg p) (_ch1 p) (_ch2 p) (_stat p) (_intervalUs p)
    (_nextSampleUs p) (_rrBuf p) (_rrIdx p) (_rrFill p) (_tele p) (_tlHead p)
    (_tlTail p) (_burstCh1 p) (_burstCh2 p) (_burstHead p) v (_burstFill p)
    (_burstActive p) (_burstPostRemain p) (_alphaDC p) (_alphaEnv p)
    (_alphaThr p) (_lsb_mV p) (_cb p) (prevEnv p) (prevAbove p)
    (lastEventMs p) (apneaActive p) (hypoStartMs p) (hypoActive p).
Definition set_burstFill (v : Z) (p : BreathPipeline) : BreathPipeline :=
  mkPipeline
    (_ads p) (_cfg p) (_ch1 p) (_ch2 p) (_stat p) (_intervalUs p)
    (_nextSampleUs p) (_rrBuf p) (_rrIdx p) (_rrFill p) (_tele p) (_tlHead p)
    (_tlTail p) (_burstCh1 p) (_burstCh2 p) (_burstHead p) (_burstTail p) v
    (_burstActive p) (_burstPostRemain p) (_alphaDC p) (_alphaEnv p)
    (_alphaThr p) (_lsb_mV p) (_cb p) (prevEnv p) (prevAbove p)
    (lastEventMs p) (apneaActive p) (hypoStartMs p) (hypoActive p).
Definition set_burstActive (v : bool) (p : BreathPipeline) : BreathPipeline :=
  mkPipeline
    (_ads p) (_cfg p) (_ch1 p) (_ch2 p) (_stat p) (_intervalUs p)
    (_nextSampleUs p) (_rrBuf p) (_rrIdx p) (_rrFill p) (_tele p) (_tlHead p)
    (_tlTail p) (_burstCh1 p) (_burstCh2 p) (_burstHead p) (_burstTail p)
    (_burstFill p) v (_burstPostRemain p) (_alphaDC p) (_alphaEnv p)
    (_alphaThr p) (_lsb_mV p) (_cb p) (prevEnv p) (prevAbove p)
    (lastEventMs p) (apneaActive p) (hypoStartMs p) (hypoActive p).
Definition set_burstPostRemain (v : Z) (p : BreathPipeline) : BreathPipeline :=
  mkPipeline
    (_ads p) (_cfg p) (_ch1 p) (_ch2 p) (_stat p) (_intervalUs p)
    (_nextSampleUs p) (_rrBuf p) (_rrIdx p) (_rrFill p) (_tele p) (_tlHead p)
    (_tlTail p) (_burstCh1 p) (_burstCh2 p) (_burstHead p) (_burstTail p)
    (_burstFill p) (_burstActive p) v (_alphaDC p) (_alphaEnv p)
    (_alphaThr p) (_lsb_mV p) (_cb p) (prevEnv p) (prevAbove p)
    (lastEventMs p) (apneaActive p) (hypoStartMs p) (hypoActive p).
Definition set_alphaDC (v : float32) (p : BreathPipeline) : BreathPipeline :=
  mkPipeline
    (_ads p) (_cfg p) (_ch1 p) (_ch2 p) (_stat p) (_intervalUs p)
    (_nextSampleUs p) (_rrBuf p) (_rrIdx p) (_rrFill p) (_tele p) (_tlHead p)
    (_tlTail p) (_burstCh1 p) (_burstCh2 p) (_burstHead p) (_burstTail p)
    (_burstFill p) (_burstActive p) (_burstPostRemain p) v (_alphaEnv p)
    (_alphaThr p) (_lsb_mV p) (_cb p) (prevEnv p) (prevAbove p)
    (lastEventMs p) (apneaActive p) (hypoStartMs p) (hypoActive p).
Definition set_alphaEnv (v : float32) (p : BreathPipeline) : BreathPipeline :=
  mkPipeline
    (_ads p) (_cfg p) (_ch1 p) (_ch2 p) (_stat p) (_intervalUs p)
    (_nextSampleUs p) (_rrBuf p) (_rrIdx p) (_rrFill p) (_tele p) (_tlHead p)
    (_tlTail p) (_burstCh1 p) (_burstCh2 p) (_burstHead p) (_burstTail p)
    (_burstFill p) (_burstActive p) (_burstPostRemain p) (_alphaDC p) v
    (_alphaThr p) (_lsb_mV p) (_cb p) (prevEnv p) (prevAbove p)
    (lastEventMs p) (apneaActive p) (hypoStartMs p) (hypoActive p).
Definition set_alphaThr (v : float32) (p : BreathPipeline) : BreathPipeline :=
  mkPipeline
    (_ads p) (_cfg p) (_ch1 p) (_ch2 p) (_stat p) (_intervalUs p)
    (_nextSampleUs p) (_rrBuf p) (_rrIdx p) (_rrFill p) (_tele p) (_tlHead p)
    (_tlTail p) (_burstCh1 p) (_burstCh2 p) (_burstHead p) (_burstTail p)
    (_burstFill p) (_burstActive p) (_burstPostRemain p) (_alphaDC p)
    (_alphaEnv p) v (_lsb_mV p) (_cb p) (prevEnv p) (prevAbove p)
    (lastEventMs p) (apneaActive p) (hypoStartMs p) (hypoActive p).
Definition set_lsb_mV (v : float32) (p : BreathPipeline) : BreathPipeline :=
  mkPipeline
    (_ads p) (_cfg p) (_ch1 p) (_ch2 p) (_stat p) (_intervalUs p)
    (_nextSampleUs p) (_rrBuf p) (_rrIdx p) (_rrFill p) (_tele p) (_tlHead p)
    (_tlTail p) (_burstCh1 p) (_burstCh2 p) (_burstHead p) (_burstTail p)
    (_burstFill p) (_burstActive p) (_burstPostRemain p) (_alphaDC p)
    (_alphaEnv p) (_alphaThr p) v (_cb p) (prevEnv p) (prevAbove p)
    (lastEventMs p) (apneaActive p) (hypoStartMs p) (hypoActive p).
Definition set_cb (v : bool) (p : BreathPipeline) : BreathPipeline :=
  mkPipeline
    (_ads p) (_cfg p) (_ch1 p) (_ch2 p) (_stat p) (_intervalUs p)
    (_nextSampleUs p) (_rrBuf p) (_rrIdx p) (_rrFill p) (_tele p) (_tlHead p)
    (_tlTail p) (_burstCh1 p) (_burstCh2 p) (_burstHead p) (_burstTail p)
    (_burstFill p) (_burstActive p) (_burstPostRemain p) (_alphaDC p)
    (_alphaEnv p) (_alphaThr p) (_lsb_mV p) v (prevEnv p) (prevAbove p)
    (lastEventMs p) (apneaActive p) (hypoStartMs p) (hypoActive p).
Definition set_prevEnv (v : float32) (p : BreathPipeline) : BreathPipeline :=
  mkPipeline
    (_ads p) (_cfg p) (_ch1 p) (_ch2 p) (_stat p) (_intervalUs p)
    (_nextSampleUs p) (_rrBuf p) (_rrIdx p) (_rrFill p) (_tele p) (_tlHead p)
    (_tlTail p) (_burstCh1 p) (_burstCh2 p) (_burstHead p) (_burstTail p)
    (_burstFill p) (_burstActive p) (_burstPostRemain p) (_alphaDC p)
    (_alphaEnv p) (_alphaThr p) (_lsb_mV p) (_cb p) v (prevAbove p)
    (lastEventMs p) (apneaActive p) (hypoStartMs p) (hypoActive p).
Definition set_prevAbove (v : bool) (p : BreathPipeline) : BreathPipeline :=
  mkPipeline
    (_ads p) (_cfg p) (_ch1 p) (_ch2 p) (_stat p) (_intervalUs p)
    (_nextSampleUs p) (_rrBuf p) (_rrIdx p) (_rrFill p) (_tele p) (_tlHead p)
    (_tlTail p) (_burstCh1 p) (_burstCh2 p) (_burstHead p) (_burstTail p)
    (_burstFill p) (_burstActive p) (_burstPostRemain p) (_alphaDC p)
    (_alphaEnv p) (_alphaThr p) (_lsb_mV p) (_cb p) (prevEnv p) v
    (lastEventMs p) (apneaActive p) (hypoStartMs p) (hypoActive p).
Definition set_lastEventMs (v : Z) (p : BreathPipeline) : BreathPipeline :=
  mkPipeline
    (_ads p) (_cfg p) (_ch1 p) (_ch2 p) (_stat p) (_intervalUs p)
    (_nextSampleUs p) (_rrBuf p) (_rrIdx p) (_rrFill p) (_tele p) (_tlHead p)
    (_tlTail p) (_burstCh1 p) (_burstCh2 p) (_burstHead p) (_burstTail p)
    (_burstFill p) (_burstActive p) (_burstPostRemain p) (_alphaDC p)
    (_alphaEnv p) (_alphaThr p) (_lsb_mV p) (_cb p) (prevEnv p) (prevAbove p)
    v (apneaActive p) (hypoStartMs p) (hypoActive p).
Definition set_apneaActive (v : bool) (p : BreathPipeline) : BreathPipeline :=
  mkPipeline
    (_ads p) (_cfg p) (_ch1 p) (_ch2 p) (_stat p) (_intervalUs p)
    (_nextSampleUs p) (_rrBuf p) (_rrIdx p) (_rrFill p) (_tele p) (_tlHead p)
    (_tlTail p) (_burstCh1 p) (_burstCh2 p) (_burstHead p) (_burstTail p)
    (_burstFill p) (_burstActive p) (_burstPostRemain p) (_alphaDC p)
    (_alphaEnv p) (_alphaThr p) (_lsb_mV p) (_cb p) (prevEnv p) (prevAbove p)
    (lastEventMs p) v (hypoStartMs p) (hypoActive p).
Definition set_hypoStartMs (v : Z) (p : BreathPipeline) : BreathPipeline :=
  mkPipeline
    (_ads p) (_cfg p) (_ch1 p) (_ch2 p) (_stat p) (_intervalUs p)
    (_nextSampleUs p) (_rrBuf p) (_rrIdx p) (_rrFill p) (_tele p) (_tlHead p)
    (_tlTail p) (_burstCh1 p) (_burstCh2 p) (_burstHead p) (_burstTail p)
    (_burstFill p) (_burstActive p) (_burstPostRemain p) (_alphaDC p)
    (_alphaEnv p) (_alphaThr p) (_lsb_mV p) (_cb p) (prevEnv p) (prevAbove p)
    (lastEventMs p) (apneaActive p) v (hypoActive p).
Definition set_hypoActive (v : bool) (p : BreathPipeline) : BreathPipeline :=
  mkPipeline
    (_ads p) (_cfg p) (_ch1 p) (_ch2 p) (_stat p) (_intervalUs p)
    (_nextSampleUs p) (_rrBuf p) (_rrIdx p) (_rrFill p) (_tele p) (_tlHead p)
    (_tlTail p) (_burstCh1 p) (_burstCh2 p) (_burstHead p) (_burstTail p)
    (_burstFill p) (_burstActive p) (_burstPostRemain p) (_alphaDC p)
    (_alphaEnv p) (_alphaThr p) (_lsb_mV p) (_cb p) (prevEnv p) (prevAbove p)
    (lastEventMs p) (apneaActive p) (hypoStartMs p) v.

(** The object as its default member initialisers leave it (a
    [BreathPipeline] of static storage duration, as in the integration
    example of the header, so that [_tele] is zero-initialised). *)
Definition initial : BreathPipeline := {|
  _ads := false;
  _cfg := Config.default;
  _ch1 := ChannelState.zero;
  _ch2 := ChannelState.zero;
  _stat := Status.zero;
  _intervalUs := 10000;
  _nextSampleUs := 0;
  _rrBuf := replicate (Z.to_nat RR_WIN) f0;
  _rrIdx := 0;
  _rrFill := 0;
  _tele := replicate (Z.to_nat TELE_CAP) Telemetry.zero;
  _tlHead := 0;
  _tlTail := 0;
  _burstCh1 := replicate (Z.to_nat BURST_CAP) 0;
  _burstCh2 := replicate (Z.to_nat BURST_CAP) 0;
  _burstHead := 0;
  _burstTail := 0;
  _burstFill := 0;
  _burstActive := false;
  _burstPostRemain := 0;
  _alphaDC := f0;
  _alphaEnv := f0;
  _alphaThr := f0;
  _lsb_mV := flit 125 1000;
  _cb := false;
  prevEnv := f0;
  prevAbove := false;
  lastEventMs := 0;
  apneaActive := false;
  hypoStartMs := 0;
  hypoActive := false
|}.

(** What one call of [tick] reads from its collaborators: the two clocks
    and the ADC (a reading per channel number). *)
Record Inputs := mkInputs {
  micros : Z;
  millis : Z;
  readADC_SingleEnded : Z -> Z
}.

(** ** Calibration *)

Section Libm.

(** [expf] belongs to the C library, not to the repository: the functions
    that call it take it as a parameter. *)
Variable expf : float32 -> float32.

Definition alphaFromTau (tauSec : float32) (fs : Z) : float32 :=
  if fle tauSec f0 then f1
  else
    let dt := fdiv f1 (Z2F (imax 1 fs)) in
    fsub f1 (expf (fdiv (fneg dt) tauSec)).

Definition computeLsbMilliVolts (ads1115 : bool) (g : adsGain_t) : float32 :=
  let fsV :=
    match g with
    | GAIN_TWOTHIRDS => flit 6144 1000
    | GAIN_ONE => flit 4096 1000
    | GAIN_TWO => flit 2048 1000
    | GAIN_FOUR => flit 1024 1000
    | GAIN_EIGHT => flit 512 1000
    | GAIN_SIXTEEN => flit 256 1000
    end in
  let lsbV := if ads1115 then fdiv fsV (Z2F 32768) else fdiv fsV (Z2F 2048) in
  fmul lsbV (Z2F 1000).

(** [ads] tells whether the pointer passed is non-null and [nowUs] is the
    reading of [micros()].  The call [_ads->setGain(...)] acts on the ADC
    driver alone and leaves the pipeline as it is. *)
Definition begin (p : BreathPipeline) (ads : bool) (cfg : Config.t)
    (nowUs : Z) : BreathPipeline :=
  let p := set_ads ads p in
  let p := set_cfg cfg p in
  let p := set_alphaDC
    (alphaFromTau (Config.baselineTauSec (_cfg p)) (Config.fsProcHz (_cfg p))) p in
  let p := set_alphaEnv
    (alphaFromTau (Config.envTauSec (_cfg p)) (Config.fsProcHz (_cfg p))) p in
  let p := set_alphaThr
    (alphaFromTau (Config.thrEmaTauSec (_cfg p)) (Config.fsProcHz (_cfg p))) p in
  let p := set_intervalUs (1000000 / imax 1 (Config.fsProcHz (_cfg p))) p in
  let p := set_nextSampleUs nowUs p in
  let p := set_rrBuf (replicate (Z.to_nat RR_WIN) f0) p in
  let p := set_rrIdx 0 p in
  let p := set_rrFill 0 p in
  let p := set_stat Status.zero p in
  let p := set_tlHead 0 p in
  let p := set_tlTail 0 p in
  let p := set_burstActive false p in
  let p := set_burstPostRemain 0 p in
  set_lsb_mV
    (computeLsbMilliVolts (Config.useADS1115 (_cfg p)) (Config.adsGain (_cfg p))) p.

Definition updateConfig (p : BreathPipeline) (cfg : Config.t) : BreathPipeline :=
  let p := set_cfg cfg p in
  let p := set_alphaDC
    (alphaFromTau (Config.baselineTauSec (_cfg p)) (Config.fsProcHz (_cfg p))) p in
  let p := set_alphaEnv
    (alphaFromTau (Config.envTauSec (_cfg p)) (Config.fsProcHz (_cfg p))) p in
  let p := set_alphaThr
    (alphaFromTau (Config.thrEmaTauSec (_cfg p)) (Config.fsProcHz (_cfg p))) p in
  let p := set_lsb_mV
    (computeLsbMilliVolts (Config.useADS1115 (_cfg p)) (Config.adsGain (_cfg p))) p in
  set_intervalUs (1000000 / imax 1 (Config.fsProcHz (_cfg p))) p.

End Libm.

Definition getStatus (p : BreathPipeline) : Status.t := _stat p.

Definition setEventCallback (p : BreathPipeline) (cb : bool) : BreathPipeline :=
  set_cb cb p.

Definition triggerBurst (p : BreathPipeline) (postMs : Z) : BreathPipeline :=
  set_burstPostRemain postMs (set_burstActive true p).

Definition countsToMilliVolts (p : BreathPipeline) (counts : Z) : float32 :=
  fmul (Z2F counts) (_lsb_mV p).

(** ** Channel conditioner *)

Definition processOne (p : BreathPipeline) (C : ChannelState.t) (mv : float32)
    : ChannelState.t :=
  let dc := fadd (fmul (fsub f1 (_alphaDC p)) (ChannelState.dcBaseline C))
                 (fmul (_alphaDC p) mv) in
  let detr := fsub mv dc in
  let taps := imin ChannelState.MAX_MA (imax 1 (Config.antiRingTaps (_cfg p))) in
  let buf := <[Z.to_nat (ChannelState.maIdx C) := detr]> (ChannelState.maBuf C) in
  let idx := wrap8 ((ChannelState.maIdx C + 1) mod taps) in
  let fill := if ChannelState.maFill C <? taps
              then wrap8 (ChannelState.maFill C + 1) else ChannelState.maFill C in
  let sum := foldl (fun ma i => fadd ma (buf !!! i)) f0 (seq 0 (Z.to_nat fill)) in
  let ma := fdiv sum (Z2F (imax 1 fill)) in
  let rect := fabsf ma in
  let env := fadd (fmul (fsub f1 (_alphaEnv p)) (ChannelState.env C))
                  (fmul (_alphaEnv p) rect) in
  if fgt env (ChannelState.envBaseline C) then
    ChannelState.mk dc buf idx fill env
      (fadd (fmul (fsub f1 (_alphaThr p)) (ChannelState.envBaseline C))
            (fmul (_alphaThr p) env))
      (ChannelState.lastPeakMs C) (ChannelState.lastCrossMs C) env
  else
    ChannelState.mk dc buf idx fill env
      (max_float (fmul (ChannelState.envBaseline C) (flit 9995 10000))
             (fmul env (flit 9 10)))
      (ChannelState.lastPeakMs C) (ChannelState.lastCrossMs C)
      (ChannelState.lastEnvPeak C).

(** ** Artifact detector *)

Definition railMilliVolts (p : BreathPipeline) : float32 :=
  match Config.adsGain (_cfg p) with
  | GAIN_TWOTHIRDS => Z2F 6144
  | GAIN_ONE => Z2F 4096
  | GAIN_TWO => Z2F 2048
  | GAIN_FOUR => Z2F 1024
  | GAIN_EIGHT => Z2F 512
  | GAIN_SIXTEEN => Z2F 256
  end.

(** Returns the verdict and the pipeline with the static [prevEnv] as the
    call leaves it (the rail check returns before [prevEnv] is touched). *)
Definition detectArtifact (p : BreathPipeline) (C : ChannelState.t) (mv : float32)
    : bool * BreathPipeline :=
  let railMv := railMilliVolts p in
  if fle (fabsf (fsub railMv (fabsf mv))) (Config.railMarginMV (_cfg p))
  then (true, p)
  else
    let dEnv := fsub (ChannelState.env C) (prevEnv p) in
    let p := set_prevEnv (ChannelState.env C) p in
    if fgt (fabsf dEnv) (Config.spikeDerivMV (_cfg p)) then (true, p)
    else
      let base := max_float (ChannelState.envBaseline C) (flit 1 1000000) in
      if fgt (ChannelState.env C) (fmul (Config.rmsBurstFactor (_cfg p)) base)
      then (true, p)
      else (false, p).

(** ** Peak and rate estimator *)

(** The inner step of the exchange sort: [if (tmp[j] < tmp[i]) swap]. *)
Definition swap_if_less (i : nat) (tmp : list float32) (j : nat) : list float32 :=
  if flt (tmp !!! j) (tmp !!! i)
  then <[j := tmp !!! i]> (<[i := tmp !!! j]> tmp)
  else tmp.

(** One round of the outer loop: [for (j = i + 1; j < n; j++)]. *)
Definition sort_pass (n : nat) (tmp : list float32) (i : nat) : list float32 :=
  foldl (swap_if_less i) tmp (seq (S i) (n - S i)).

Definition exchange_sort (n : nat) (tmp : list float32) : list float32 :=
  foldl (sort_pass n) tmp (seq 0 n).

(** [tmp] is the local copy of the first [_rrFill] slots of [_rrBuf]; the
    slots of the local array beyond them are never read. *)
Definition robustBpm (p : BreathPipeline) : float32 :=
  let n := _rrFill p in
  let tmp := take (Z.to_nat n) (_rrBuf p) in
  let tmp := exchange_sort (Z.to_nat n) tmp in
  if n =? 0 then f0
  else if negb (n mod 2 =? 0) then tmp !!! Z.to_nat (n / 2)
  else fmul (flit 5 10)
         (fadd (tmp !!! Z.to_nat (n / 2 - 1)) (tmp !!! Z.to_nat (n / 2))).

(** [C] is the channel the caller passes by reference; the updated channel
    is returned beside the pipeline. *)
Definition peakDetectAndRR (p : BreathPipeline) (C : ChannelState.t) (nowMs : Z)
    : BreathPipeline * ChannelState.t :=
  let thr := fmul (Config.thrFactor (_cfg p))
                  (max_float (ChannelState.envBaseline C) (flit 1 1000000)) in
  let above := fge (ChannelState.env C) thr in
  let rising := above && negb (prevAbove p) in
  let p := set_prevAbove above p in
  let minDistMs := f2u32 (fmul (Config.minPeakDistanceSec (_cfg p)) (Z2F 1000)) in
  let refractoryMs := f2u32 (fmul (Config.refractorySec (_cfg p)) (Z2F 1000)) in
  if rising then
    if (wrap32 (nowMs - ChannelState.lastPeakMs C) >=? minDistMs)
       && (wrap32 (nowMs - lastEventMs p) >=? refractoryMs)
    then
      let p :=
        if negb (ChannelState.lastPeakMs C =? 0) then
          let ibiSec :=
            fdiv (Z2F (wrap32 (nowMs - ChannelState.lastPeakMs C))) (Z2F 1000) in
          if fgt ibiSec (flit 2 10) && flt ibiSec (Z2F 10) then
            let p := set_rrBuf
              (<[Z.to_nat (_rrIdx p) := fdiv (Z2F 60) ibiSec]> (_rrBuf p)) p in
            let p := set_rrIdx (wrap8 ((_rrIdx p + 1) mod RR_WIN)) p in
            let p := if _rrFill p <? RR_WIN
                     then set_rrFill (wrap8 (_rrFill p + 1)) p else p in
            set_stat (Status.set_bpm (robustBpm p) (_stat p)) p
          else p
        else p in
      (set_lastEventMs nowMs p,
       ChannelState.set_peak nowMs (ChannelState.env C) C)
    else (p, C)
  else (p, C).

(** ** Event state machines *)

(** [if (_cb) _cb(ev)]: the events handed to the callback by one call. *)
Definition emit (p : BreathPipeline) (ev : Event.t) : list Event.t :=
  if _cb p then [ev] else [].

Definition updateApneaFSM (p : BreathPipeline) (nowMs : Z) (apneaNow : bool)
    : BreathPipeline * list Event.t :=
  if apneaNow && negb (apneaActive p) then
    let p := set_apneaActive true p in
    let p := set_stat (Status.set_apneaActive true (_stat p)) p in
    (p, emit p (Event.mk ApneaStart nowMs 0))
  else if negb apneaNow && apneaActive p then
    let p := set_apneaActive false p in
    let p := set_stat (Status.set_apneaActive false (_stat p)) p in
    (p, emit p (Event.mk ApneaEnd nowMs 0))
  else (p, []).

Definition updateHypopneaFSM (p : BreathPipeline) (nowMs : Z) (hypoNow : bool)
    : BreathPipeline * list Event.t :=
  if hypoNow then
    if negb (hypoActive p) then
      let p := if hypoStartMs p =? 0 then set_hypoStartMs nowMs p else p in
      if wrap32 (nowMs - hypoStartMs p)
           >=? f2u32 (fmul (Config.hypopneaMinSec (_cfg p)) (Z2F 1000))
      then
        let p := set_hypoActive true p in
        let p := set_stat (Status.set_hypopneaActive true (_stat p)) p in
        (p, emit p (Event.mk HypopneaStart nowMs 0))
      else (p, [])
    else (p, [])
  else
    let p := set_hypoStartMs 0 p in
    if hypoActive p then
      let p := set_hypoActive false p in
      let p := set_stat (Status.set_hypopneaActive false (_stat p)) p in
      (p, emit p (Event.mk HypopneaEnd nowMs 0))
    else (p, []).

(** ** Telemetry ring *)

Definition pushTele (p : BreathPipeline) (tsMs : Z) : BreathPipeline :=
  let next := wrap16 ((_tlHead p + 1) mod TELE_CAP) in
  let p := if next =? _tlTail p
           then set_tlTail (wrap16 ((_tlTail p + 1) mod TELE_CAP)) p else p in
  let p := set_tele
    (<[Z.to_nat (_tlHead p) :=
         Telemetry.mk tsMs (Status.bpm (_stat p)) (Status.signalOK (_stat p))
           (Status.apneaActive (_stat p)) (Status.hypopneaActive (_stat p))
           (Status.artifact (_stat p)) (Status.envPrimary (_stat p))
           (Status.thresholdPrimary (_stat p))]> (_tele p)) p in
  set_tlHead next p.

(** [out] is the caller's record, passed by reference: it is returned as
    the call leaves it. *)
Definition popTelemetry (p : BreathPipeline) (out : Telemetry.t)
    : bool * Telemetry.t * BreathPipeline :=
  if _tlHead p =? _tlTail p then (false, out, p)
  else
    let out := _tele p !!! Z.to_nat (_tlTail p) in
    let p := set_tlTail (wrap16 ((_tlTail p + 1) mod TELE_CAP)) p in
    (true, out, p).

(** ** Burst ring *)

Definition pushBurst (p : BreathPipeline) (c0 c1 : Z) : BreathPipeline :=
  let need := f2u32 (fmul (Z2F (Config.burstPreMs (_cfg p) + Config.burstPostMs (_cfg p)))
                          (fdiv (Z2F (Config.fsProcHz (_cfg p))) (Z2F 1000))) in
  let cap := imin BURST_CAP (imax 64 need) in
  let p := set_burstCh1 (<[Z.to_nat (_burstHead p) := c0]> (_burstCh1 p)) p in
  let p := set_burstCh2 (<[Z.to_nat (_burstHead p) := c1]> (_burstCh2 p)) p in
  let p := set_burstHead ((_burstHead p + 1) mod cap) p in
  if _burstFill p <? cap then set_burstFill (_burstFill p + 1) p
  else set_burstTail ((_burstTail p + 1) mod cap) p.

Definition handleBurst (p : BreathPipeline) (nowMs : Z) (mv0 mv1 : float32)
    : BreathPipeline :=
  let c0 := f2i16 (roundf (fdiv mv0 (_lsb_mV p))) in
  let c1 := f2i16 (roundf (fdiv mv1 (_lsb_mV p))) in
  let p := pushBurst p c0 c1 in
  if _burstActive p then
    let stepMs := 1000 / imax 1 (Config.fsProcHz (_cfg p)) in
    let p := if _burstPostRemain p >? stepMs
             then set_burstPostRemain (wrap16 (_burstPostRemain p - stepMs)) p
             else set_burstPostRemain 0 p in
    if _burstPostRemain p =? 0 then set_burstActive false p else p
  else p.

(** The caller's two output buffers are passed in and returned as the copy
    loop leaves them, beside the returned count. *)
Definition exportBurst (p : BreathPipeline) (ch1Buf ch2Buf : list Z)
    (maxSamples : Z) : list Z * list Z * Z :=
  let have := imin (_burstFill p) maxSamples in
  let '(b1, b2) :=
    foldl (fun bufs i =>
             let idx := Z.to_nat ((_burstTail p + Z.of_nat i) mod BURST_CAP) in
             (<[i := _burstCh1 p !!! idx]> (fst bufs),
              <[i := _burstCh2 p !!! idx]> (snd bufs)))
          (ch1Buf, ch2Buf) (seq 0 (Z.to_nat have)) in
  (b1, b2, have).

(** ** Tick scheduler *)

Definition getP (useCh2 : bool) (p : BreathPipeline) : ChannelState.t :=
  if useCh2 then _ch2 p else _ch1 p.

Definition setP (useCh2 : bool) (C : ChannelState.t) (p : BreathPipeline)
    : BreathPipeline :=
  if useCh2 then set_ch2 C p else set_ch1 C p.

Definition is_CH2 (c : PrimaryChannel) : bool :=
  match c with CH2_A1 => true | CH1_A0 => false end.

(** [tick] is embedded statement by statement.  The statements that write
    the pipeline are functions of the pipeline they find; the [tick_]
    definitions below apply them in the order of the source, each to the
    pipeline the previous one leaves.  [P] of the source is a reference to
    [_ch1] or [_ch2]: every read goes through [getP] and every write
    through [setP].  A callee that changes the pipeline returns it beside
    its result. *)

(** [_nextSampleUs += _intervalUs; processOne(_ch1, mv0);
    processOne(_ch2, mv1);] *)
Definition sampleBoth (mv0 mv1 : float32) (q : BreathPipeline) : BreathPipeline :=
  let q := set_nextSampleUs (wrap32 (_nextSampleUs q + _intervalUs q)) q in
  let q := set_ch1 (processOne q (_ch1 q) mv0) q in
  set_ch2 (processOne q (_ch2 q) mv1) q.

(** [_stat.artifact = artifact;] *)
Definition flagArtifact (artifact : bool) (q : BreathPipeline) : BreathPipeline :=
  set_stat (Status.set_artifact artifact (_stat q)) q.

(** [if (above) P.lastCrossMs = nowMs;] *)
Definition markCrossing (useCh2 above : bool) (nowMs : Z) (q : BreathPipeline)
    : BreathPipeline :=
  if above
  then setP useCh2 (ChannelState.set_lastCrossMs nowMs (getP useCh2 q)) q
  else q.

(** [if (!artifact) peakDetectAndRR(P, nowMs);] *)
Definition detectPeak (useCh2 artifact : bool) (nowMs : Z) (q : BreathPipeline)
    : BreathPipeline :=
  if negb artifact
  then
    let r := peakDetectAndRR q (getP useCh2 q) nowMs in
    setP useCh2 (snd r) (fst r)
  else q.

(** [_stat.signalOK = (nowMs - P.lastCrossMs) < 2000; _stat.envPrimary = env;
    _stat.envBaselinePrimary = P.envBaseline; _stat.thresholdPrimary = thr;
    _stat.snrEstimate = base > 1e-6f ? (env / base) : 0.0f;] *)
Definition publish (useCh2 : bool) (nowMs : Z) (env thr base : float32)
    (q : BreathPipeline) : BreathPipeline :=
  let q := set_stat
    (Status.set_signalOK
       (wrap32 (nowMs - ChannelState.lastCrossMs (getP useCh2 q)) <? 2000)
       (_stat q)) q in
  set_stat
    (Status.set_primary env (ChannelState.envBaseline (getP useCh2 q)) thr
       (if fgt base (flit 1 1000000) then fdiv env base else f0)
       (_stat q)) q.

(** [(int32_t)(nowUs - _nextSampleUs) < 0] is false: the tick is executed. *)
Definition tick_due (p : BreathPipeline) (io : Inputs) : bool :=
  negb (to_int32 (micros io - _nextSampleUs p) <? 0).

(** [useCh2] *)
Definition tick_useCh2 (p : BreathPipeline) : bool :=
  is_CH2 (Config.primaryChannel (_cfg p)).

(** [mv0] and [mv1]; a null [_ads] reads as 0 counts. *)
Definition tick_mv0 (p : BreathPipeline) (io : Inputs) : float32 :=
  countsToMilliVolts p
    (if _ads p then readADC_SingleEnded io (Config.adsChannel1 (_cfg p)) else 0).

Definition tick_mv1 (p : BreathPipeline) (io : Inputs) : float32 :=
  countsToMilliVolts p
    (if _ads p then readADC_SingleEnded io (Config.adsChannel2 (_cfg p)) else 0).

(** The pipeline once both channels have been conditioned. *)
Definition tick_sampled (p : BreathPipeline) (io : Inputs) : BreathPipeline :=
  sampleBoth (tick_mv0 p io) (tick_mv1 p io) p.

(** [mvP] *)
Definition tick_mvP (p : BreathPipeline) (io : Inputs) : float32 :=
  if tick_useCh2 p then tick_mv1 p io else tick_mv0 p io.

(** [detectArtifact(P, mvP)] and its verdict [artifact]. *)
Definition tick_detect (p : BreathPipeline) (io : Inputs) : bool * BreathPipeline :=
  detectArtifact (tick_sampled p io)
    (getP (tick_useCh2 p) (tick_sampled p io)) (tick_mvP p io).

Definition tick_artifact (p : BreathPipeline) (io : Inputs) : bool :=
  fst (tick_detect p io).

(** The pipeline once the verdict is published in the status. *)
Definition tick_flagged (p : BreathPipeline) (io : Inputs) : BreathPipeline :=
  flagArtifact (tick_artifact p io) (snd (tick_detect p io)).

(** [base], [thr] and [env] *)
Definition tick_base (p : BreathPipeline) (io : Inputs) : float32 :=
  max_float (ChannelState.envBaseline (getP (tick_useCh2 p) (tick_flagged p io)))
        (flit 1 1000000).

Definition tick_thr (p : BreathPipeline) (io : Inputs) : float32 :=
  fmul (Config.thrFactor (_cfg (tick_flagged p io))) (tick_base p io).

Definition tick_env (p : BreathPipeline) (io : Inputs) : float32 :=
  ChannelState.env (getP (tick_useCh2 p) (tick_flagged p io)).

(** [above]: the primary envelope is at or above the adaptive threshold
    and no artifact is flagged. *)
Definition tick_above (p : BreathPipeline) (io : Inputs) : bool :=
  fge (tick_env p io) (tick_thr p io) && negb (tick_artifact p io).

(** The pipeline once the crossing timestamp is updated. *)
Definition tick_crossed (p : BreathPipeline) (io : Inputs) : BreathPipeline :=
  markCrossing (tick_useCh2 p) (tick_above p io) (millis io) (tick_flagged p io).

(** The pipeline once peak detection has run (or has been skipped). *)
Definition tick_peaked (p : BreathPipeline) (io : Inputs) : BreathPipeline :=
  detectPeak (tick_useCh2 p) (tick_artifact p io) (millis io) (tick_crossed p io).

(** [hypoNow] and [updateHypopneaFSM(nowMs, hypoNow)] *)
Definition tick_hypoNow (p : BreathPipeline) (io : Inputs) : bool :=
  flt (ChannelState.lastEnvPeak (getP (tick_useCh2 p) (tick_peaked p io)))
      (fmul (Config.hypopneaFrac (_cfg (tick_peaked p io))) (tick_base p io))
  && negb (tick_artifact p io).

Definition tick_hypo (p : BreathPipeline) (io : Inputs)
    : BreathPipeline * list Event.t :=
  updateHypopneaFSM (tick_peaked p io) (millis io) (tick_hypoNow p io).

(** [(uint32_t)(_cfg.apneaMinSec * 1000.0f)] *)
Definition apneaMinMs (p : BreathPipeline) : Z :=
  f2u32 (fmul (Config.apneaMinSec (_cfg p)) (Z2F 1000)).

(** [apneaNow] and [updateApneaFSM(nowMs, apneaNow)] *)
Definition tick_apneaNow (p : BreathPipeline) (io : Inputs) : bool :=
  wrap32 (millis io
          - ChannelState.lastCrossMs (getP (tick_useCh2 p) (fst (tick_hypo p io))))
  >=? apneaMinMs (fst (tick_hypo p io)).

Definition tick_apnea (p : BreathPipeline) (io : Inputs)
    : BreathPipeline * list Event.t :=
  updateApneaFSM (fst (tick_hypo p io)) (millis io) (tick_apneaNow p io).

(** The pipeline once the status is published. *)
Definition tick_published (p : BreathPipeline) (io : Inputs) : BreathPipeline :=
  publish (tick_useCh2 p) (millis io) (tick_env p io) (tick_thr p io)
    (tick_base p io) (fst (tick_apnea p io)).

(** One call of [tick]: the pipeline it leaves and the events it handed to
    the callback, in order. *)
Definition tick (p : BreathPipeline) (io : Inputs) : BreathPipeline * list Event.t :=
  if to_int32 (micros io - _nextSampleUs p) <? 0 then (p, [])
  else
    let q := tick_published p io in
    let q := pushTele q (millis io) in
    let q := handleBurst q (millis io) (tick_mv0 p io) (tick_mv1 p io) in
    (q, snd (tick_hypo p io) ++ snd (tick_apnea p io)).

(** ** Runs of the public interface *)

(** A call of one of the state-changing public methods. *)
Inductive Call :=
| CallBegin (ads : bool) (cfg : Config.t) (nowUs : Z)
| CallTick (io : Inputs)
| CallSetEventCallback (cb : bool)
| CallPopTelemetry (out : Telemetry.t)
| CallTriggerBurst (postMs : Z)
| CallUpdateConfig (cfg : Config.t).

Definition call (expf : float32 -> float32) (p : BreathPipeline) (c : Call)
    : BreathPipeline * list Event.t :=
  match c with
  | CallBegin ads cfg nowUs => (begin expf p ads cfg nowUs, [])
  | CallTick io => tick p io
  | CallSetEventCallback cb => (setEventCallback p cb, [])
  | CallPopTelemetry out => (snd (popTelemetry p out), [])
  | CallTriggerBurst postMs => (triggerBurst p postMs, [])
  | CallUpdateConfig cfg => (updateConfig expf p cfg, [])
  end.

(** The pipeline after a sequence of calls and every event delivered on the
    way, oldest first. *)
Fixpoint run (expf : float32 -> float32) (p : BreathPipeline) (cs : list Call)
    : BreathPipeline * list Event.t :=
  match cs with
  | [] => (p, [])
  | c :: cs' =>
      let r := call expf p c in
      let r' := run expf (fst r) cs' in
      (fst r', snd r ++ snd r')
  end.

(** A run of [tick] alone, the configuration being left as it is. *)
Fixpoint ticks (p : BreathPipeline) (ios : list Inputs)
    : BreathPipeline * list Event.t :=
  match ios with
  | [] => (p, [])
  | io :: ios' =>
      let r := tick p io in
      let r' := ticks (fst r) ios' in
      (fst r', snd r ++ snd r')
  end.

(** The test of [peakDetectAndRR] under which a rising edge is accepted as
    a peak. *)
Definition peak_accepted (p : BreathPipeline) (C : ChannelState.t) (nowMs : Z)
    : bool :=
  let thr := fmul (Config.thrFactor (_cfg p))
                  (max_float (ChannelState.envBaseline C) (flit 1 1000000)) in
  (fge (ChannelState.env C) thr && negb (prevAbove p))
  && (wrap32 (nowMs - ChannelState.lastPeakMs C)
        >=? f2u32 (fmul (Config.minPeakDistanceSec (_cfg p)) (Z2F 1000)))
  && (wrap32 (nowMs - lastEventMs p)
        >=? f2u32 (fmul (Config.refractorySec (_cfg p)) (Z2F 1000))).

(** The inter-breath interval in seconds that [peakDetectAndRR] computes. *)
Definition ibiSec (C : ChannelState.t) (nowMs : Z) : float32 :=
  fdiv (Z2F (wrap32 (nowMs - ChannelState.lastPeakMs C))) (Z2F 1000).

Definition plausible (ibi : float32) : bool :=
  fgt ibi (flit 2 10) && flt ibi (Z2F 10).

(** Whether a call is a tick that accepts a peak. *)
Definition accepts_peak (p : BreathPipeline) (c : Call) : bool :=
  match c with
  | CallTick io =>
      tick_due p io && negb (tick_artifact p io)
      && peak_accepted (tick_crossed p io)
           (getP (tick_useCh2 p) (tick_crossed p io)) (millis io)
  | _ => false
  end.

(** The number of peaks accepted along a run. *)
Fixpoint accepted_peaks (expf : float32 -> float32) (p : BreathPipeline)
    (cs : list Call) : nat :=
  match cs with
  | [] => 0%nat
  | c :: cs' =>
      ((if accepts_peak p c then 1 else 0)
       + accepted_peaks expf (fst (call expf p c)) cs')%nat
  end.

(** The interval ring and the published rate. *)
Definition rate_state (p : BreathPipeline) : list float32 * Z * Z * float32 :=
  (_rrBuf p, _rrIdx p, _rrFill p, Status.bpm (_stat p)).

(** The middle of a sorted list: the median rule of [robustBpm]. *)
Definition middle (s : list float32) : float32 :=
  let n := Z.of_nat (length s) in
  if n =? 0 then f0
  else if negb (n mod 2 =? 0) then s !!! Z.to_nat (n / 2)
  else fmul (flit 5 10) (fadd (s !!! Z.to_nat (n / 2 - 1)) (s !!! Z.to_nat (n / 2))).

(** [a] is not above [b]: the order in which the sort leaves its array. *)
Definition not_above (a b : float32) : Prop := flt b a = false.

(** ** Event bookkeeping *)

Definition EventType_eqb (a b : EventType) : bool :=
  match a, b with
  | ApneaStart, ApneaStart | ApneaEnd, ApneaEnd
  | HypopneaStart, HypopneaStart | HypopneaEnd, HypopneaEnd
  | ArtifactDetected, ArtifactDetected => true
  | _, _ => false
  end.

Definition is_apnea (e : Event.t) : bool :=
  EventType_eqb (Event.type e) ApneaStart || EventType_eqb (Event.type e) ApneaEnd.

Definition is_hypopnea (e : Event.t) : bool :=
  EventType_eqb (Event.type e) HypopneaStart
  || EventType_eqb (Event.type e) HypopneaEnd.

Definition count_type (ty : EventType) (evs : list Event.t) : nat :=
  length (List.filter (fun e => EventType_eqb (Event.type e) ty) evs).




(** ** Telemetry bookkeeping *)

(** The record [pushTele] writes for a status and a timestamp. *)
Definition tele_record (st : Status.t) (tsMs : Z) : Telemetry.t :=
  Telemetry.mk tsMs (Status.bpm st) (Status.signalOK st) (Status.apneaActive st)
    (Status.hypopneaActive st) (Status.artifact st) (Status.envPrimary st)
    (Status.thresholdPrimary st).

(** One push per published status, as [tick] does. *)
Definition push_status (p : BreathPipeline) (r : Status.t * Z) : BreathPipeline :=
  pushTele (set_stat (fst r) p) (snd r).

(** [popTelemetry] called until it returns false (at most [fuel] times):
    the records it handed out, first popped first. *)
Fixpoint drain (fuel : nat) (p : BreathPipeline) : list Telemetry.t :=
  match fuel with
  | O => []
  | S fuel' =>
      let r := popTelemetry p Telemetry.zero in
      if fst (fst r) then snd (fst r) :: drain fuel' (snd r) else []
  end.

(** ** Concrete inputs *)

(** The default configuration with the three time constants at zero:
    [alphaFromTau] then returns 1 before it reaches [expf]. *)
Definition cfg_instant : Config.t :=
  let c := Config.default in
  Config.mk (Config.fsProcHz c) (Config.useADS1115 c) (Config.adsGain c)
    (Config.adsChannel1 c) (Config.adsChannel2 c) (Config.primaryChannel c)
    f0 (Config.antiRingTaps c) f0 (Config.minPeakDistanceSec c)
    (Config.refractorySec c) f0 (Config.thrFactor c) (Config.hypopneaFrac c)
    (Config.hypopneaMinSec c) (Config.apneaMinSec c) (Config.recoveryMinSec c)
    (Config.railMarginMV c) (Config.spikeDerivMV c) (Config.rmsBurstFactor c)
    (Config.burstFsHz c) (Config.burstPreMs c) (Config.burstPostMs c).

(** [expf] for runs that never reach it. *)
Definition expf_unreached (x : float32) : float32 := S754_nan.

(** A pipeline initialised at power-on with an ADC attached, a callback
    registered and the configuration [cfg_instant]. *)
Definition booted : BreathPipeline :=
  setEventCallback (begin expf_unreached initial true cfg_instant 0) true.

(** Clock readings and one ADC reading per channel. *)
Definition reading (us ms a0 a1 : Z) : Inputs :=
  mkInputs us ms (fun ch => if ch =? 0 then a0 else a1).

(** ** Views of the pipeline used by the statements *)

(** What no step of [tick] writes: the configuration, the two pointers and
    the derived coefficients. *)
Definition control (p : BreathPipeline)
    : Config.t * bool * bool * (float32 * float32 * float32 * float32) :=
  (_cfg p, _cb p, _ads p, (_alphaDC p, _alphaEnv p, _alphaThr p, _lsb_mV p)).

(** The hypopnea machine: its start timer and its Active flag. *)
Definition hypo_fsm (p : BreathPipeline) : Z * bool :=
  (hypoStartMs p, hypoActive p).

(** The peak and crossing timestamps of both channels. *)
Definition times (p : BreathPipeline) : Z * Z * Z * Z :=
  (ChannelState.lastPeakMs (_ch1 p), ChannelState.lastCrossMs (_ch1 p),
   ChannelState.lastPeakMs (_ch2 p), ChannelState.lastCrossMs (_ch2 p)).

(** What the conditioner computes for a channel. *)
Definition conditioned (C : ChannelState.t) : float32 * float32 * float32 :=
  (ChannelState.dcBaseline C, ChannelState.env C, ChannelState.envBaseline C).

(** The static state of the peak detector. *)
Definition peak_statics (p : BreathPipeline) : bool * Z :=
  (prevAbove p, lastEventMs p).

(** The crossing timestamp of the primary channel as a due tick leaves it. *)
Definition tick_lastCross (p : BreathPipeline) (io : Inputs) : Z :=
  if tick_above p io then millis io
  else ChannelState.lastCrossMs (getP (tick_useCh2 p) p).

(** An event of one of the four transitions, with no duration. *)
Definition fsm_event (e : Event.t) : Prop :=
  (Event.type e = ApneaStart \/ Event.type e = ApneaEnd
   \/ Event.type e = HypopneaStart \/ Event.type e = HypopneaEnd)
  /\ Event.durationMs e = 0.

(** The apnea events a transition of the machine hands to the callback. *)
Definition apnea_transition (before after : bool) (nowMs : Z) : list Event.t :=
  if negb before && after then [Event.mk ApneaStart nowMs 0]
  else if before && negb after then [Event.mk ApneaEnd nowMs 0]
  else [].

(** A tick at [ms] milliseconds with both channels reading 0 counts, and
    one with both channels at the positive rail of the ADS1015. *)
Definition quiet (ms : Z) : Inputs := reading (1000 * ms) ms 0 0.
Definition railed (ms : Z) : Inputs := reading (1000 * ms) ms 2047 2047.

(** The booted pipeline after a quiet tick at 10 ms (the hypopnea timer
    starts), and after a second quiet tick ten seconds later (the hypopnea
    machine turns Active). *)
Definition timer_running : BreathPipeline := fst (tick booted (quiet 10)).
Definition hypopnea_active : BreathPipeline :=
  fst (tick timer_running (quiet 10010)).



(** A configuration whose baseline time constant is so long (2^40 s) that
    the argument of [expf] in [alphaFromTau] is below 2^-46 in magnitude:
    the float nearest to its exponential is 1, which [expf_tiny] returns.
    The DC baseline then stays where it is and the envelope follows the
    signal. *)
Definition cfg_held_baseline : Config.t :=
  let c := cfg_instant in
  Config.mk (Config.fsProcHz c) (Config.useADS1115 c) (Config.adsGain c)
    (Config.adsChannel1 c) (Config.adsChannel2 c) (Config.primaryChannel c)
    (Z2F (2 ^ 40)) (Config.antiRingTaps c) f0 (Config.minPeakDistanceSec c)
    (Config.refractorySec c) f0 (Config.thrFactor c) (Config.hypopneaFrac c)
    (Config.hypopneaMinSec c) (Config.apneaMinSec c) (Config.recoveryMinSec c)
    (Config.railMarginMV c) (Config.spikeDerivMV c) (Config.rmsBurstFactor c)
    (Config.burstFsHz c) (Config.burstPreMs c) (Config.burstPostMs c).

Definition expf_tiny (x : float32) : float32 := f1.

Definition booted_held : BreathPipeline :=
  setEventCallback (begin expf_tiny initial true cfg_held_baseline 0) true.

(** A tick at [ms] milliseconds with [counts] on both channels. *)
Definition sample (ms counts : Z) : Inputs := reading (1000 * ms) ms counts counts.


(** [n] ticks, 10 ms apart, the k-th reading [k] counts on both channels. *)
Definition ramp (n : nat) : list Inputs :=
  map (fun k => sample (10 * Z.of_nat k) (Z.of_nat k)) (seq 1 n).

(** The capacity [pushBurst] gives the burst ring. *)
Definition burst_cap (p : BreathPipeline) : Z :=
  imin BURST_CAP
    (imax 64
       (f2u32 (fmul (Z2F (Config.burstPreMs (_cfg p) + Config.burstPostMs (_cfg p)))
                    (fdiv (Z2F (Config.fsProcHz (_cfg p))) (Z2F 1000))))).

(** The sample pairs the burst ring holds, oldest first, as [pushBurst]
    lays them out: [_burstFill] slots from [_burstTail], modulo the
    capacity. *)
Definition burst_held (p : BreathPipeline) : list (Z * Z) :=
  map (fun i =>
         let idx := Z.to_nat ((_burstTail p + Z.of_nat i) mod burst_cap p) in
         (_burstCh1 p !!! idx, _burstCh2 p !!! idx))
      (seq 0 (Z.to_nat (_burstFill p))).

(** A configuration with no pre- and post-trigger time: the burst ring has
    its minimum capacity of 64 samples. *)
Definition cfg_small_burst : Config.t :=
  let c := cfg_instant in
  Config.mk (Config.fsProcHz c) (Config.useADS1115 c) (Config.adsGain c)
    (Config.adsChannel1 c) (Config.adsChannel2 c) (Config.primaryChannel c)
    (Config.baselineTauSec c) (Config.antiRingTaps c) (Config.envTauSec c)
    (Config.minPeakDistanceSec c) (Config.refractorySec c) (Config.thrEmaTauSec c)
    (Config.thrFactor c) (Config.hypopneaFrac c) (Config.hypopneaMinSec c)
    (Config.apneaMinSec c) (Config.recoveryMinSec c) (Config.railMarginMV c)
    (Config.spikeDerivMV c) (Config.rmsBurstFactor c) (Config.burstFsHz c) 0 0.

(** A pipeline initialised with that configuration, after 65 ticks: the
    ring has wrapped once. *)
Definition burst_wrapped : BreathPipeline :=
  fst (ticks (begin expf_unreached initial true cfg_small_burst 0) (ramp 65)).

(** The burst ring of the default configuration (600 samples) after 601
    pushes of the samples 1, 2, ..., 601. *)
Definition burst_wrapped_default : BreathPipeline :=
  foldl (fun q k => pushBurst q (Z.of_nat k) (Z.of_nat k)) initial (seq 1 601).

(** The number of unread telemetry records and the records themselves,
    oldest first: the slots from [_tlTail] up to [_tlHead], modulo the
    array size. *)
Definition tele_count (p : BreathPipeline) : Z :=
  (_tlHead p - _tlTail p) mod TELE_CAP.

Definition tele_contents (p : BreathPipeline) : list Telemetry.t :=
  map (fun i => _tele p !!! Z.to_nat ((_tlTail p + Z.of_nat i) mod TELE_CAP))
      (seq 0 (Z.to_nat (tele_count p))).

(** The telemetry array has its [TELE_CAP] slots and both cursors point
    into it. *)
Definition tele_wf (p : BreathPipeline) : Prop :=
  length (_tele p) = Z.to_nat TELE_CAP
  /\ 0 <= _tlHead p < TELE_CAP /\ 0 <= _tlTail p < TELE_CAP.

(** The last [n] elements of a list. *)
Definition lastn {A : Type} (n : nat) (l : list A) : list A :=
  drop (length l - n) l.

(** [n] statuses to push, the k-th stamped [k] milliseconds. *)
Definition stamped (n : nat) : list (Status.t * Z) :=
  map (fun k => (Status.zero, Z.of_nat k)) (seq 1 n).

(** The first [i] slots of the array hold nothing that a later slot (below
    [n]) is below. *)
Definition sorted_upto (n i : nat) (t : list float32) : Prop :=
  forall a b, (a < i)%nat -> (a < b < n)%nat -> not_above (t !!! a) (t !!! b).

(** The interval ring has its [RR_WIN] slots, its fill count is within
    them, and the published rate is what [robustBpm] computes from it. *)
Definition rate_inv (p : BreathPipeline) : Prop :=
  length (_rrBuf p) = Z.to_nat RR_WIN
  /\ 0 <= _rrFill p <= RR_WIN
  /\ Status.bpm (_stat p) = robustBpm p.

(** A second of breathing for [booted_held]: a first peak at 1000 ms, the
    envelope falling below the threshold, and a second peak at 2000 ms. *)
Definition two_breaths : list Call :=
  map CallTick [sample 1000 80; sample 1010 0; sample 1020 0; sample 2000 240].

(** Power-on of [booted_held] as calls of the public interface. *)
Definition power_on : list Call :=
  [CallBegin true cfg_held_baseline 0; CallSetEventCallback true].

(** ** Further views of the pipeline *)

(** The sampling period and the deadline of the next sample. *)
Definition sched (p : BreathPipeline) : Z * Z := (_intervalUs p, _nextSampleUs p).

(** The telemetry ring: its array and its two cursors. *)
Definition tele_ring (p : BreathPipeline) : list Telemetry.t * Z * Z :=
  (_tele p, _tlHead p, _tlTail p).

(** The burst ring: its two arrays, its cursors and its fill count. *)
Definition burst_ring (p : BreathPipeline) : list Z * list Z * Z * Z * Z :=
  (_burstCh1 p, _burstCh2 p, _burstHead p, _burstTail p, _burstFill p).

(** The post-trigger countdown of the burst capture. *)
Definition burst_timer (p : BreathPipeline) : bool * Z :=
  (_burstActive p, _burstPostRemain p).

(** What the conditioner and the detectors leave alone. *)
Definition store (p : BreathPipeline)
    : (list Telemetry.t * Z * Z) * (list Z * list Z * Z * Z * Z) * (bool * Z) * Z :=
  (tele_ring p, burst_ring p, burst_timer p, _intervalUs p).

(** The two event flags of the published status. *)
Definition flags (s : Status.t) : bool * bool :=
  (Status.apneaActive s, Status.hypopneaActive s).

(** The moving-average ring of a channel. *)
Definition ma_state (C : ChannelState.t) : list float32 * Z * Z :=
  (ChannelState.maBuf C, ChannelState.maIdx C, ChannelState.maFill C).

(** The published event flags agree with the two machines. *)
Definition synced (p : BreathPipeline) : Prop :=
  Status.apneaActive (_stat p) = apneaActive p
  /\ Status.hypopneaActive (_stat p) = hypoActive p.

(** [(uint32_t)(_cfg.hypopneaMinSec * 1000.0f)] *)
Definition hypopneaMinMs (p : BreathPipeline) : Z :=
  f2u32 (fmul (Config.hypopneaMinSec (_cfg p)) (Z2F 1000)).

(** The hypopnea events a transition of the machine hands to the callback. *)
Definition hypopnea_transition (before after : bool) (nowMs : Z) : list Event.t :=
  if negb before && after then [Event.mk HypopneaStart nowMs 0]
  else if before && negb after then [Event.mk HypopneaEnd nowMs 0]
  else [].

(** [1000 / max(1, fsProcHz)]: the milliseconds [handleBurst] takes off the
    post-trigger countdown at every sample. *)
Definition burst_stepMs (p : BreathPipeline) : Z :=
  1000 / imax 1 (Config.fsProcHz (_cfg p)).

(** The counts [handleBurst] recovers from a sample in millivolts. *)
Definition burst_counts (p : BreathPipeline) (mv : float32) : Z :=
  f2i16 (roundf (fdiv mv (_lsb_mV p))).

(** A call that registers an event callback, and a call of [begin]. *)
Definition registers (c : Call) : bool :=
  match c with CallSetEventCallback cb => cb | _ => false end.

Definition is_begin (c : Call) : bool :=
  match c with CallBegin _ _ _ => true | _ => false end.

(** A pipeline initialised 5 microseconds before the microsecond clock
    rolls over. *)
Definition booted_late : BreathPipeline :=
  begin expf_unreached initial true cfg_instant (2 ^ 32 - 5).

(** The burst arrays have their [BURST_CAP] slots, the cursors and the
    fill count are within the capacity [pushBurst] computes, and the write
    cursor is [_burstFill] slots after the read cursor. *)
Definition burst_wf (p : BreathPipeline) : Prop :=
  length (_burstCh1 p) = Z.to_nat BURST_CAP
  /\ length (_burstCh2 p) = Z.to_nat BURST_CAP
  /\ 0 <= _burstTail p < burst_cap p
  /\ 0 <= _burstFill p <= burst_cap p
  /\ _burstHead p = (_burstTail p + _burstFill p) mod burst_cap p.

(** The number of ticks of a run that are executed. *)
Fixpoint executed (p : BreathPipeline) (ios : list Inputs) : nat :=
  match ios with
  | [] => 0%nat
  | io :: ios' =>
      ((if tick_due p io then 1 else 0) + executed (fst (tick p io)) ios')%nat
  end.

(** [min(MAX_MA, max(1, antiRingTaps))]: the taps of the moving average. *)
Definition ma_taps (p : BreathPipeline) : Z :=
  imin ChannelState.MAX_MA (imax 1 (Config.antiRingTaps (_cfg p))).

(** The moving-average array of a channel has its [MAX_MA] slots and its
    cursor and fill count are within them. *)
Definition chan_ok (C : ChannelState.t) : Prop :=
  length (ChannelState.maBuf C) = Z.to_nat ChannelState.MAX_MA
  /\ 0 <= ChannelState.maIdx C < ChannelState.MAX_MA
  /\ 0 <= ChannelState.maFill C <= ChannelState.MAX_MA.

(** Every array of the pipeline has its declared size and every cursor and
    fill count is within it. *)
Definition in_bounds (p : BreathPipeline) : Prop :=
  chan_ok (_ch1 p) /\ chan_ok (_ch2 p)
  /\ (length (_rrBuf p) = Z.to_nat RR_WIN
      /\ 0 <= _rrIdx p < RR_WIN /\ 0 <= _rrFill p <= RR_WIN)
  /\ tele_wf p
  /\ (length (_burstCh1 p) = Z.to_nat BURST_CAP
      /\ length (_burstCh2 p) = Z.to_nat BURST_CAP
      /\ 0 <= _burstHead p < BURST_CAP
      /\ 0 <= _burstTail p < BURST_CAP
      /\ 0 <= _burstFill p <= BURST_CAP).

(** A configuration with another processing rate. *)
Definition with_fsProcHz (fs : Z) (c : Config.t) : Config.t :=
  Config.mk fs (Config.useADS1115 c) (Config.adsGain c)
    (Config.adsChannel1 c) (Config.adsChannel2 c) (Config.primaryChannel c)
    (Config.baselineTauSec c) (Config.antiRingTaps c) (Config.envTauSec c)
    (Config.minPeakDistanceSec c) (Config.refractorySec c) (Config.thrEmaTauSec c)
    (Config.thrFactor c) (Config.hypopneaFrac c) (Config.hypopneaMinSec c)
    (Config.apneaMinSec c) (Config.recoveryMinSec c) (Config.railMarginMV c)
    (Config.spikeDerivMV c) (Config.rmsBurstFactor c) (Config.burstFsHz c)
    (Config.burstPreMs c) (Config.burstPostMs c).

(** ** Further concrete inputs *)




(** [booted_held] after a first breath: a peak accepted at 1000 ms and the
    envelope back below the threshold. *)
Definition after_first_breath : BreathPipeline :=
  fst (run expf_tiny initial
         (power_on ++ map CallTick [sample 1000 80; sample 1010 0; sample 1020 0])).



(** * Proofs *)

(** ** Frames of the callees *)

Ltac frame := intros; repeat case_match; repeat split; reflexivity.

Lemma processOne_control p q C mv :
  control p = control q -> processOne p C mv = processOne q C mv.
Proof.
  unfold control, processOne. intros H. injection H as -> _ _ -> -> -> _.
  reflexivity.
Qed.

Lemma processOne_times p C mv :
  ChannelState.lastPeakMs (processOne p C mv) = ChannelState.lastPeakMs C
  /\ ChannelState.lastCrossMs (processOne p C mv) = ChannelState.lastCrossMs C.
Proof. unfold processOne. frame. Qed.

Lemma detectArtifact_frame p C mv :
  let q := snd (detectArtifact p C mv) in
  control q = control p /\ hypo_fsm q = hypo_fsm p /\ apneaActive q = apneaActive p
  /\ rate_state q = rate_state p /\ _stat q = _stat p
  /\ _ch1 q = _ch1 p /\ _ch2 q = _ch2 p /\ peak_statics q = peak_statics p.
Proof. unfold detectArtifact. frame. Qed.

Lemma peakDetectAndRR_frame p C nowMs :
  let q := fst (peakDetectAndRR p C nowMs) in
  control q = control p /\ hypo_fsm q = hypo_fsm p /\ apneaActive q = apneaActive p
  /\ _ch1 q = _ch1 p /\ _ch2 q = _ch2 p
  /\ Status.artifact (_stat q) = Status.artifact (_stat p).
Proof. unfold peakDetectAndRR. frame. Qed.

Lemma peakDetectAndRR_channel p C nowMs :
  let C' := snd (peakDetectAndRR p C nowMs) in
  ChannelState.lastCrossMs C' = ChannelState.lastCrossMs C
  /\ conditioned C' = conditioned C.
Proof. unfold peakDetectAndRR. frame. Qed.

Lemma updateHypopneaFSM_frame p nowMs b :
  let q := fst (updateHypopneaFSM p nowMs b) in
  control q = control p /\ apneaActive q = apneaActive p
  /\ rate_state q = rate_state p /\ _ch1 q = _ch1 p /\ _ch2 q = _ch2 p
  /\ Status.artifact (_stat q) = Status.artifact (_stat p)
  /\ peak_statics q = peak_statics p.
Proof. unfold updateHypopneaFSM. frame. Qed.

Lemma updateApneaFSM_frame p nowMs b :
  let q := fst (updateApneaFSM p nowMs b) in
  control q = control p /\ hypo_fsm q = hypo_fsm p
  /\ rate_state q = rate_state p /\ _ch1 q = _ch1 p /\ _ch2 q = _ch2 p
  /\ Status.artifact (_stat q) = Status.artifact (_stat p)
  /\ peak_statics q = peak_statics p.
Proof. unfold updateApneaFSM. frame. Qed.

Lemma pushTele_frame p ts :
  let q := pushTele p ts in
  control q = control p /\ hypo_fsm q = hypo_fsm p /\ apneaActive q = apneaActive p
  /\ rate_state q = rate_state p /\ _ch1 q = _ch1 p /\ _ch2 q = _ch2 p
  /\ _stat q = _stat p /\ peak_statics q = peak_statics p.
Proof. unfold pushTele. frame. Qed.

Lemma handleBurst_frame p ts a b :
  let q := handleBurst p ts a b in
  control q = control p /\ hypo_fsm q = hypo_fsm p /\ apneaActive q = apneaActive p
  /\ rate_state q = rate_state p /\ _ch1 q = _ch1 p /\ _ch2 q = _ch2 p
  /\ _stat q = _stat p /\ peak_statics q = peak_statics p.
Proof. unfold handleBurst, pushBurst. frame. Qed.

(** ** The two machines as transition functions *)

Lemma updateApneaFSM_state p nowMs b :
  apneaActive (fst (updateApneaFSM p nowMs b)) = b.
Proof. unfold updateApneaFSM. destruct b, (apneaActive p) eqn:E; simpl; try reflexivity; exact E. Qed.

Lemma updateApneaFSM_events p nowMs b :
  snd (updateApneaFSM p nowMs b)
  = if _cb p then
      if b && negb (apneaActive p) then [Event.mk ApneaStart nowMs 0]
      else if negb b && apneaActive p then [Event.mk ApneaEnd nowMs 0]
      else []
    else [].
Proof.
  unfold updateApneaFSM, emit.
  destruct b, (apneaActive p), (_cb p) eqn:E; simpl; try reflexivity.
  all: change (_cb (set_stat _ (set_apneaActive _ p))) with (_cb p); rewrite E; reflexivity.
Qed.

Lemma updateHypopneaFSM_false p nowMs :
  hypoStartMs (fst (updateHypopneaFSM p nowMs false)) = 0
  /\ hypoActive (fst (updateHypopneaFSM p nowMs false)) = false
  /\ snd (updateHypopneaFSM p nowMs false)
     = if hypoActive p && _cb p then [Event.mk HypopneaEnd nowMs 0] else [].
Proof.
  unfold updateHypopneaFSM, emit.
  change (hypoActive (set_hypoStartMs 0 p)) with (hypoActive p).
  destruct (hypoActive p) eqn:E.
  - split; [reflexivity|]. split; [reflexivity|].
    change (_cb (set_stat _ (set_hypoActive _ (set_hypoStartMs 0 p)))) with (_cb p).
    destruct (_cb p); reflexivity.
  - split; [reflexivity|]. split; [exact E | reflexivity].
Qed.


(** ** Frames of the statements of [tick] *)

Lemma sampleBoth_frame mv0 mv1 q0 :
  let q := sampleBoth mv0 mv1 q0 in
  control q = control q0 /\ hypo_fsm q = hypo_fsm q0 /\ apneaActive q = apneaActive q0
  /\ rate_state q = rate_state q0 /\ _stat q = _stat q0
  /\ peak_statics q = peak_statics q0
  /\ _ch1 q = processOne q0 (_ch1 q0) mv0
  /\ _ch2 q = processOne q0 (_ch2 q0) mv1.
Proof. unfold sampleBoth. frame. Qed.

Lemma sampleBoth_times mv0 mv1 q0 : times (sampleBoth mv0 mv1 q0) = times q0.
Proof.
  destruct (sampleBoth_frame mv0 mv1 q0) as (_ & _ & _ & _ & _ & _ & E1 & E2).
  unfold times. rewrite E1, E2.
  destruct (processOne_times q0 (_ch1 q0) mv0) as [-> ->].
  destruct (processOne_times q0 (_ch2 q0) mv1) as [-> ->].
  reflexivity.
Qed.

Lemma flagArtifact_frame a q0 :
  let q := flagArtifact a q0 in
  control q = control q0 /\ hypo_fsm q = hypo_fsm q0 /\ apneaActive q = apneaActive q0
  /\ rate_state q = rate_state q0 /\ peak_statics q = peak_statics q0
  /\ _ch1 q = _ch1 q0 /\ _ch2 q = _ch2 q0
  /\ Status.artifact (_stat q) = a.
Proof. unfold flagArtifact. frame. Qed.

Lemma markCrossing_frame u above nowMs q0 :
  let q := markCrossing u above nowMs q0 in
  control q = control q0 /\ hypo_fsm q = hypo_fsm q0 /\ apneaActive q = apneaActive q0
  /\ rate_state q = rate_state q0 /\ peak_statics q = peak_statics q0
  /\ Status.artifact (_stat q) = Status.artifact (_stat q0).
Proof. unfold markCrossing, setP. frame. Qed.

Lemma markCrossing_channels u above nowMs q0 :
  let q := markCrossing u above nowMs q0 in
  ChannelState.lastCrossMs (getP u q)
  = (if above then nowMs else ChannelState.lastCrossMs (getP u q0))
  /\ getP (negb u) q = getP (negb u) q0
  /\ ChannelState.lastPeakMs (_ch1 q) = ChannelState.lastPeakMs (_ch1 q0)
  /\ ChannelState.lastPeakMs (_ch2 q) = ChannelState.lastPeakMs (_ch2 q0)
  /\ conditioned (_ch1 q) = conditioned (_ch1 q0)
  /\ conditioned (_ch2 q) = conditioned (_ch2 q0).
Proof. unfold markCrossing, setP, getP. destruct u, above; repeat split; reflexivity. Qed.

Lemma detectPeak_frame u a nowMs q0 :
  let q := detectPeak u a nowMs q0 in
  control q = control q0 /\ hypo_fsm q = hypo_fsm q0 /\ apneaActive q = apneaActive q0
  /\ Status.artifact (_stat q) = Status.artifact (_stat q0).
Proof.
  unfold detectPeak. destruct a; [repeat split; reflexivity|].
  destruct (peakDetectAndRR_frame q0 (getP u q0) nowMs) as (P1 & P2 & P3 & _ & _ & P6).
  cbn [negb]. cbv zeta.
  rewrite <- P1, <- P2, <- P3, <- P6.
  unfold setP. destruct u; repeat split; reflexivity.
Qed.

Lemma detectPeak_artifact u nowMs q0 : detectPeak u true nowMs q0 = q0.
Proof. reflexivity. Qed.

Lemma detectPeak_channels u a nowMs q0 :
  let q := detectPeak u a nowMs q0 in
  ChannelState.lastCrossMs (getP u q) = ChannelState.lastCrossMs (getP u q0)
  /\ getP (negb u) q = getP (negb u) q0
  /\ conditioned (_ch1 q) = conditioned (_ch1 q0)
  /\ conditioned (_ch2 q) = conditioned (_ch2 q0).
Proof.
  unfold detectPeak. destruct a; [repeat split; reflexivity|].
  destruct (peakDetectAndRR_frame q0 (getP u q0) nowMs) as (_ & _ & _ & P4 & P5 & _).
  destruct (peakDetectAndRR_channel q0 (getP u q0) nowMs) as (C1 & C2).
  cbn [negb]. cbv zeta.
  set (r := peakDetectAndRR q0 (getP u q0) nowMs) in *. clearbody r.
  unfold setP, getP in *.
  destruct u; cbn [negb]; repeat split;
    first [ exact C1 | exact C2 | exact P4 | exact P5
          | rewrite <- P4; reflexivity | rewrite <- P5; reflexivity ].
Qed.

Lemma publish_frame u nowMs e t b q0 :
  let q := publish u nowMs e t b q0 in
  control q = control q0 /\ hypo_fsm q = hypo_fsm q0 /\ apneaActive q = apneaActive q0
  /\ rate_state q = rate_state q0 /\ peak_statics q = peak_statics q0
  /\ _ch1 q = _ch1 q0 /\ _ch2 q = _ch2 q0
  /\ Status.artifact (_stat q) = Status.artifact (_stat q0)
  /\ Status.signalOK (_stat q)
     = (wrap32 (nowMs - ChannelState.lastCrossMs (getP u q0)) <? 2000).
Proof. unfold publish. frame. Qed.

(** ** The pipeline along a tick *)

Ltac rew_all H :=
  lazymatch type of H with
  | _ /\ _ =>
      let H1 := fresh in
      let H2 := fresh in
      destruct H as [H1 H2]; rew_all H1; rew_all H2
  | _ = _ => try rewrite H; clear H
  end.

(** Rewrite the goal with every equation of the frame lemma [L]. *)
Ltac rew L := let H := fresh in pose proof L as H; cbv zeta in H; rew_all H.

Lemma tick_flagged_frame p io :
  let q := tick_flagged p io in
  control q = control p /\ hypo_fsm q = hypo_fsm p /\ apneaActive q = apneaActive p
  /\ rate_state q = rate_state p /\ peak_statics q = peak_statics p
  /\ _ch1 q = processOne p (_ch1 p) (tick_mv0 p io)
  /\ _ch2 q = processOne p (_ch2 p) (tick_mv1 p io)
  /\ Status.artifact (_stat q) = tick_artifact p io.
Proof.
  cbv zeta. unfold tick_flagged.
  rew (flagArtifact_frame (tick_artifact p io) (snd (tick_detect p io))).
  unfold tick_detect.
  rew (detectArtifact_frame (tick_sampled p io)
         (getP (tick_useCh2 p) (tick_sampled p io)) (tick_mvP p io)).
  unfold tick_sampled.
  rew (sampleBoth_frame (tick_mv0 p io) (tick_mv1 p io) p).
  repeat split; reflexivity.
Qed.

Lemma tick_flagged_getP p io u :
  getP u (tick_flagged p io)
  = processOne p (getP u p) (if u then tick_mv1 p io else tick_mv0 p io).
Proof.
  destruct (tick_flagged_frame p io) as (_ & _ & _ & _ & _ & E1 & E2 & _).
  unfold getP. destruct u; assumption.
Qed.

Lemma tick_crossed_frame p io :
  let q := tick_crossed p io in
  control q = control p /\ hypo_fsm q = hypo_fsm p /\ apneaActive q = apneaActive p
  /\ rate_state q = rate_state p /\ peak_statics q = peak_statics p
  /\ Status.artifact (_stat q) = tick_artifact p io.
Proof.
  cbv zeta. unfold tick_crossed.
  rew (markCrossing_frame (tick_useCh2 p) (tick_above p io) (millis io)
         (tick_flagged p io)).
  rew (tick_flagged_frame p io).
  repeat split; reflexivity.
Qed.

Lemma getP_lastCrossMs_processOne p q u mv :
  ChannelState.lastCrossMs (processOne p (getP u q) mv)
  = ChannelState.lastCrossMs (getP u q).
Proof. apply processOne_times. Qed.

Lemma tick_crossed_channels p io :
  let q := tick_crossed p io in
  let u := tick_useCh2 p in
  ChannelState.lastCrossMs (getP u q) = tick_lastCross p io
  /\ ChannelState.lastCrossMs (getP (negb u) q)
     = ChannelState.lastCrossMs (getP (negb u) p)
  /\ ChannelState.lastPeakMs (_ch1 q) = ChannelState.lastPeakMs (_ch1 p)
  /\ ChannelState.lastPeakMs (_ch2 q) = ChannelState.lastPeakMs (_ch2 p)
  /\ conditioned (_ch1 q) = conditioned (processOne p (_ch1 p) (tick_mv0 p io))
  /\ conditioned (_ch2 q) = conditioned (processOne p (_ch2 p) (tick_mv1 p io)).
Proof.
  cbv zeta. unfold tick_crossed, tick_lastCross.
  rew (markCrossing_channels (tick_useCh2 p) (tick_above p io) (millis io)
         (tick_flagged p io)).
  rewrite !tick_flagged_getP.
  destruct (tick_flagged_frame p io) as (_ & _ & _ & _ & _ & -> & -> & _).
  rewrite !getP_lastCrossMs_processOne.
  destruct (processOne_times p (_ch1 p) (tick_mv0 p io)) as [-> _].
  destruct (processOne_times p (_ch2 p) (tick_mv1 p io)) as [-> _].
  repeat split; reflexivity.
Qed.

Lemma tick_peaked_frame p io :
  let q := tick_peaked p io in
  control q = control p /\ hypo_fsm q = hypo_fsm p /\ apneaActive q = apneaActive p
  /\ Status.artifact (_stat q) = tick_artifact p io.
Proof.
  cbv zeta. unfold tick_peaked.
  rew (detectPeak_frame (tick_useCh2 p) (tick_artifact p io) (millis io)
         (tick_crossed p io)).
  rew (tick_crossed_frame p io).
  repeat split; reflexivity.
Qed.

Lemma tick_peaked_channels p io :
  let q := tick_peaked p io in
  let u := tick_useCh2 p in
  ChannelState.lastCrossMs (getP u q) = tick_lastCross p io
  /\ ChannelState.lastCrossMs (getP (negb u) q)
     = ChannelState.lastCrossMs (getP (negb u) p)
  /\ conditioned (_ch1 q) = conditioned (processOne p (_ch1 p) (tick_mv0 p io))
  /\ conditioned (_ch2 q) = conditioned (processOne p (_ch2 p) (tick_mv1 p io)).
Proof.
  cbv zeta. unfold tick_peaked.
  rew (detectPeak_channels (tick_useCh2 p) (tick_artifact p io) (millis io)
         (tick_crossed p io)).
  rew (tick_crossed_channels p io).
  repeat split; reflexivity.
Qed.

Lemma tick_peaked_artifact p io :
  tick_artifact p io = true ->
  rate_state (tick_peaked p io) = rate_state p
  /\ peak_statics (tick_peaked p io) = peak_statics p
  /\ ChannelState.lastPeakMs (_ch1 (tick_peaked p io)) = ChannelState.lastPeakMs (_ch1 p)
  /\ ChannelState.lastPeakMs (_ch2 (tick_peaked p io)) = ChannelState.lastPeakMs (_ch2 p).
Proof.
  intros A. unfold tick_peaked. rewrite A, detectPeak_artifact.
  rew (tick_crossed_frame p io). rew (tick_crossed_channels p io).
  repeat split; reflexivity.
Qed.

Lemma getP_eq u p q : _ch1 p = _ch1 q -> _ch2 p = _ch2 q -> getP u p = getP u q.
Proof. unfold getP. intros -> ->. reflexivity. Qed.

Lemma tick_hypo_frame p io :
  let q := fst (tick_hypo p io) in
  control q = control p /\ apneaActive q = apneaActive p
  /\ Status.artifact (_stat q) = tick_artifact p io
  /\ rate_state q = rate_state (tick_peaked p io)
  /\ peak_statics q = peak_statics (tick_peaked p io)
  /\ _ch1 q = _ch1 (tick_peaked p io) /\ _ch2 q = _ch2 (tick_peaked p io).
Proof.
  cbv zeta. unfold tick_hypo.
  rew (updateHypopneaFSM_frame (tick_peaked p io) (millis io) (tick_hypoNow p io)).
  rew (tick_peaked_frame p io).
  repeat split; reflexivity.
Qed.

Lemma tick_hypo_getP p io u :
  getP u (fst (tick_hypo p io)) = getP u (tick_peaked p io).
Proof.
  destruct (tick_hypo_frame p io) as (_ & _ & _ & _ & _ & E1 & E2).
  apply getP_eq; assumption.
Qed.

Lemma apneaMinMs_control p q : control p = control q -> apneaMinMs p = apneaMinMs q.
Proof. unfold control, apneaMinMs. intros H. injection H as -> _. reflexivity. Qed.

Lemma tick_apneaNow_eq p io :
  tick_apneaNow p io
  = (wrap32 (millis io - tick_lastCross p io) >=? apneaMinMs p).
Proof.
  unfold tick_apneaNow. rewrite tick_hypo_getP.
  destruct (tick_peaked_channels p io) as (-> & _).
  destruct (tick_hypo_frame p io) as (E & _).
  rewrite (apneaMinMs_control _ _ E). reflexivity.
Qed.

Lemma tick_apnea_frame p io :
  let q := fst (tick_apnea p io) in
  control q = control p /\ hypo_fsm q = hypo_fsm (fst (tick_hypo p io))
  /\ apneaActive q = tick_apneaNow p io
  /\ Status.artifact (_stat q) = tick_artifact p io
  /\ rate_state q = rate_state (tick_peaked p io)
  /\ peak_statics q = peak_statics (tick_peaked p io)
  /\ _ch1 q = _ch1 (tick_peaked p io) /\ _ch2 q = _ch2 (tick_peaked p io).
Proof.
  cbv zeta. unfold tick_apnea.
  rewrite updateApneaFSM_state.
  rew (updateApneaFSM_frame (fst (tick_hypo p io)) (millis io) (tick_apneaNow p io)).
  rew (tick_hypo_frame p io).
  repeat split; reflexivity.
Qed.

Lemma tick_apnea_getP p io u :
  getP u (fst (tick_apnea p io)) = getP u (tick_peaked p io).
Proof.
  destruct (tick_apnea_frame p io) as (_ & _ & _ & _ & _ & _ & E1 & E2).
  apply getP_eq; assumption.
Qed.

(** [tick] when it is due and when it is not. *)
Lemma tick_skipped p io : tick_due p io = false -> tick p io = (p, []).
Proof.
  unfold tick_due, tick. destruct (to_int32 _ <? 0); [reflexivity | discriminate].
Qed.

Lemma tick_executed p io :
  tick_due p io = true ->
  tick p io
  = (handleBurst (pushTele (tick_published p io) (millis io)) (millis io)
       (tick_mv0 p io) (tick_mv1 p io),
     snd (tick_hypo p io) ++ snd (tick_apnea p io)).
Proof.
  unfold tick_due, tick. destruct (to_int32 _ <? 0); [discriminate | reflexivity].
Qed.

(** The pipeline a due tick leaves. *)
Lemma tick_frame p io :
  tick_due p io = true ->
  let q := fst (tick p io) in
  control q = control p /\ hypo_fsm q = hypo_fsm (fst (tick_hypo p io))
  /\ apneaActive q = tick_apneaNow p io
  /\ Status.artifact (_stat q) = tick_artifact p io
  /\ Status.signalOK (_stat q) = (wrap32 (millis io - tick_lastCross p io) <? 2000)
  /\ rate_state q = rate_state (tick_peaked p io)
  /\ peak_statics q = peak_statics (tick_peaked p io)
  /\ _ch1 q = _ch1 (tick_peaked p io) /\ _ch2 q = _ch2 (tick_peaked p io).
Proof.
  intros D. cbv zeta. rewrite (tick_executed p io D). cbn [fst].
  rew (handleBurst_frame (pushTele (tick_published p io) (millis io)) (millis io)
         (tick_mv0 p io) (tick_mv1 p io)).
  rew (pushTele_frame (tick_published p io) (millis io)).
  unfold tick_published.
  rew (publish_frame (tick_useCh2 p) (millis io) (tick_env p io) (tick_thr p io)
         (tick_base p io) (fst (tick_apnea p io))).
  rewrite tick_apnea_getP.
  destruct (tick_peaked_channels p io) as (-> & _).
  rew (tick_apnea_frame p io).
  repeat split; reflexivity.
Qed.

(** The events of the two machines. *)

Lemma emit_cases p e : emit p e = [e] \/ emit p e = [].
Proof. unfold emit. destruct (_cb p); auto. Qed.

Lemma updateHypopneaFSM_events_hypopnea p nowMs b :
  Forall (fun e => (Event.type e = HypopneaStart \/ Event.type e = HypopneaEnd)
                   /\ Event.durationMs e = 0)
         (snd (updateHypopneaFSM p nowMs b)).
Proof.
  unfold updateHypopneaFSM.
  repeat case_match; cbv beta zeta iota delta [snd]; try apply List.Forall_nil;
    match goal with |- Forall _ (emit ?q ?e) =>
      destruct (emit_cases q e) as [-> | ->] end;
    try apply List.Forall_nil;
    (apply List.Forall_cons; [split; [cbn; auto | reflexivity] | apply List.Forall_nil]).
Qed.

Lemma updateApneaFSM_events_apnea p nowMs b :
  Forall (fun e => (Event.type e = ApneaStart \/ Event.type e = ApneaEnd)
                   /\ Event.durationMs e = 0)
         (snd (updateApneaFSM p nowMs b)).
Proof.
  unfold updateApneaFSM.
  repeat case_match; cbv beta zeta iota delta [snd]; try apply List.Forall_nil;
    match goal with |- Forall _ (emit ?q ?e) =>
      destruct (emit_cases q e) as [-> | ->] end;
    try apply List.Forall_nil;
    (apply List.Forall_cons; [split; [cbn; auto | reflexivity] | apply List.Forall_nil]).
Qed.

Lemma filter_hypopnea_apnea_events p nowMs b :
  List.filter is_hypopnea (snd (updateApneaFSM p nowMs b)) = [].
Proof.
  rewrite updateApneaFSM_events. repeat case_match; reflexivity.
Qed.

(** The equations of the steps, for rewriting once they are opaque. *)
Lemma tick_hypo_eq p io :
  tick_hypo p io
  = updateHypopneaFSM (tick_peaked p io) (millis io) (tick_hypoNow p io).
Proof. reflexivity. Qed.

Lemma tick_apnea_eq p io :
  tick_apnea p io
  = updateApneaFSM (fst (tick_hypo p io)) (millis io) (tick_apneaNow p io).
Proof. reflexivity. Qed.

Lemma tick_peaked_eq p io :
  tick_peaked p io
  = detectPeak (tick_useCh2 p) (tick_artifact p io) (millis io) (tick_crossed p io).
Proof. reflexivity. Qed.

Lemma tick_artifact_not_above p io :
  tick_artifact p io = true -> tick_above p io = false.
Proof. unfold tick_above. intros ->. apply andb_false_r. Qed.

Lemma tick_artifact_hypoNow p io :
  tick_artifact p io = true -> tick_hypoNow p io = false.
Proof. unfold tick_hypoNow. intros ->. apply andb_false_r. Qed.

Lemma tick_artifact_lastCross p io :
  tick_artifact p io = true ->
  tick_lastCross p io = ChannelState.lastCrossMs (getP (tick_useCh2 p) p).
Proof.
  unfold tick_lastCross. intros A.
  rewrite (tick_artifact_not_above p io A). reflexivity.
Qed.

Lemma hypo_fsm_eq p q :
  hypo_fsm p = hypo_fsm q ->
  hypoActive p = hypoActive q /\ hypoStartMs p = hypoStartMs q.
Proof. unfold hypo_fsm. intros H. injection H as -> ->. split; reflexivity. Qed.

Lemma control_cb p q : control p = control q -> _cb p = _cb q.
Proof. unfold control. intros H. injection H as _ -> _. reflexivity. Qed.

Lemma control_useCh2 p q : control p = control q -> tick_useCh2 p = tick_useCh2 q.
Proof. unfold control, tick_useCh2. intros H. injection H as -> _. reflexivity. Qed.

(** ** Frames of the rings, the schedule and the status flags *)

Lemma detectArtifact_store p C mv :
  let q := snd (detectArtifact p C mv) in
  store q = store p /\ _nextSampleUs q = _nextSampleUs p.
Proof. unfold detectArtifact. frame. Qed.

Lemma peakDetectAndRR_store p C nowMs :
  let q := fst (peakDetectAndRR p C nowMs) in
  store q = store p /\ _nextSampleUs q = _nextSampleUs p
  /\ flags (_stat q) = flags (_stat p).
Proof. unfold peakDetectAndRR. frame. Qed.

Lemma peakDetectAndRR_ma p C nowMs :
  ma_state (snd (peakDetectAndRR p C nowMs)) = ma_state C.
Proof. unfold peakDetectAndRR. frame. Qed.

Lemma updateHypopneaFSM_store p nowMs b :
  let q := fst (updateHypopneaFSM p nowMs b) in
  store q = store p /\ _nextSampleUs q = _nextSampleUs p
  /\ Status.apneaActive (_stat q) = Status.apneaActive (_stat p)
  /\ Status.bpm (_stat q) = Status.bpm (_stat p).
Proof. unfold updateHypopneaFSM. frame. Qed.

Lemma updateApneaFSM_store p nowMs b :
  let q := fst (updateApneaFSM p nowMs b) in
  store q = store p /\ _nextSampleUs q = _nextSampleUs p
  /\ Status.hypopneaActive (_stat q) = Status.hypopneaActive (_stat p)
  /\ Status.bpm (_stat q) = Status.bpm (_stat p).
Proof. unfold updateApneaFSM. frame. Qed.

Lemma pushTele_store p ts :
  let q := pushTele p ts in
  burst_ring q = burst_ring p /\ burst_timer q = burst_timer p
  /\ sched q = sched p.
Proof. unfold pushTele. frame. Qed.

Lemma handleBurst_store p ts a b :
  let q := handleBurst p ts a b in
  tele_ring q = tele_ring p /\ sched q = sched p.
Proof. unfold handleBurst, pushBurst. frame. Qed.

Lemma sampleBoth_store mv0 mv1 q0 :
  let q := sampleBoth mv0 mv1 q0 in
  store q = store q0
  /\ _nextSampleUs q = wrap32 (_nextSampleUs q0 + _intervalUs q0).
Proof. unfold sampleBoth. frame. Qed.

Lemma flagArtifact_store a q0 :
  let q := flagArtifact a q0 in
  store q = store q0 /\ _nextSampleUs q = _nextSampleUs q0
  /\ flags (_stat q) = flags (_stat q0)
  /\ Status.bpm (_stat q) = Status.bpm (_stat q0).
Proof. unfold flagArtifact. frame. Qed.

Lemma markCrossing_store u above nowMs q0 :
  let q := markCrossing u above nowMs q0 in
  store q = store q0 /\ _nextSampleUs q = _nextSampleUs q0
  /\ _stat q = _stat q0
  /\ ma_state (_ch1 q) = ma_state (_ch1 q0)
  /\ ma_state (_ch2 q) = ma_state (_ch2 q0).
Proof. unfold markCrossing, setP, getP. destruct u, above; repeat split; reflexivity. Qed.

Lemma detectPeak_store u a nowMs q0 :
  let q := detectPeak u a nowMs q0 in
  store q = store q0 /\ _nextSampleUs q = _nextSampleUs q0
  /\ flags (_stat q) = flags (_stat q0).
Proof.
  unfold detectPeak. destruct a; [repeat split; reflexivity|].
  destruct (peakDetectAndRR_store q0 (getP u q0) nowMs) as (P1 & P2 & P3).
  cbn [negb]. cbv zeta.
  rewrite <- P1, <- P2, <- P3.
  unfold setP. destruct u; repeat split; reflexivity.
Qed.

Lemma detectPeak_ma u a nowMs q0 :
  let q := detectPeak u a nowMs q0 in
  ma_state (_ch1 q) = ma_state (_ch1 q0)
  /\ ma_state (_ch2 q) = ma_state (_ch2 q0).
Proof.
  unfold detectPeak. destruct a; [repeat split; reflexivity|].
  destruct (peakDetectAndRR_frame q0 (getP u q0) nowMs) as (_ & _ & _ & P4 & P5 & _).
  pose proof (peakDetectAndRR_ma q0 (getP u q0) nowMs) as M.
  cbn [negb]. cbv zeta.
  set (r := peakDetectAndRR q0 (getP u q0) nowMs) in *. clearbody r.
  unfold setP, getP in *.
  destruct u; split;
    first [ exact M | rewrite <- P4; reflexivity | rewrite <- P5; reflexivity ].
Qed.

Lemma publish_store u nowMs e t b q0 :
  let q := publish u nowMs e t b q0 in
  store q = store q0 /\ _nextSampleUs q = _nextSampleUs q0
  /\ flags (_stat q) = flags (_stat q0)
  /\ Status.bpm (_stat q) = Status.bpm (_stat q0)
  /\ Status.envPrimary (_stat q) = e
  /\ Status.envBaselinePrimary (_stat q) = ChannelState.envBaseline (getP u q0)
  /\ Status.thresholdPrimary (_stat q) = t
  /\ Status.snrEstimate (_stat q)
     = (if fgt b (flit 1 1000000) then fdiv e b else f0).
Proof. unfold publish. frame. Qed.

Lemma updateHypopneaFSM_synced p nowMs b :
  Status.hypopneaActive (_stat p) = hypoActive p ->
  Status.hypopneaActive (_stat (fst (updateHypopneaFSM p nowMs b)))
  = hypoActive (fst (updateHypopneaFSM p nowMs b)).
Proof. unfold updateHypopneaFSM. intros H. repeat case_match; first [exact H | reflexivity]. Qed.

Lemma updateApneaFSM_synced p nowMs b :
  Status.apneaActive (_stat p) = apneaActive p ->
  Status.apneaActive (_stat (fst (updateApneaFSM p nowMs b)))
  = apneaActive (fst (updateApneaFSM p nowMs b)).
Proof. unfold updateApneaFSM. intros H. repeat case_match; first [exact H | reflexivity]. Qed.

Lemma flags_eq s t :
  flags s = flags t ->
  Status.apneaActive s = Status.apneaActive t
  /\ Status.hypopneaActive s = Status.hypopneaActive t.
Proof. unfold flags. intros H. injection H as -> ->. split; reflexivity. Qed.

Lemma tick_peaked_store p io :
  let q := tick_peaked p io in
  store q = store p
  /\ _nextSampleUs q = wrap32 (_nextSampleUs p + _intervalUs p)
  /\ flags (_stat q) = flags (_stat p).
Proof.
  cbv zeta. unfold tick_peaked.
  rew (detectPeak_store (tick_useCh2 p) (tick_artifact p io) (millis io)
         (tick_crossed p io)).
  unfold tick_crossed.
  rew (markCrossing_store (tick_useCh2 p) (tick_above p io) (millis io)
         (tick_flagged p io)).
  unfold tick_flagged.
  rew (flagArtifact_store (tick_artifact p io) (snd (tick_detect p io))).
  unfold tick_detect.
  rew (detectArtifact_store (tick_sampled p io)
         (getP (tick_useCh2 p) (tick_sampled p io)) (tick_mvP p io)).
  rew (detectArtifact_frame (tick_sampled p io)
         (getP (tick_useCh2 p) (tick_sampled p io)) (tick_mvP p io)).
  unfold tick_sampled.
  rew (sampleBoth_store (tick_mv0 p io) (tick_mv1 p io) p).
  rew (sampleBoth_frame (tick_mv0 p io) (tick_mv1 p io) p).
  repeat split; reflexivity.
Qed.

Lemma tick_apnea_store p io :
  let q := fst (tick_apnea p io) in
  store q = store p
  /\ _nextSampleUs q = wrap32 (_nextSampleUs p + _intervalUs p).
Proof.
  cbv zeta. unfold tick_apnea.
  rew (updateApneaFSM_store (fst (tick_hypo p io)) (millis io) (tick_apneaNow p io)).
  unfold tick_hypo.
  rew (updateHypopneaFSM_store (tick_peaked p io) (millis io) (tick_hypoNow p io)).
  rew (tick_peaked_store p io).
  split; reflexivity.
Qed.

Lemma tick_apnea_synced p io : synced p -> synced (fst (tick_apnea p io)).
Proof.
  intros [SA SH].
  destruct (tick_peaked_store p io) as (_ & _ & F). apply flags_eq in F.
  destruct F as [FA FH].
  destruct (tick_peaked_frame p io) as (_ & HF & AF & _).
  apply hypo_fsm_eq in HF. destruct HF as [HF _].
  assert (SH1 : Status.hypopneaActive (_stat (fst (tick_hypo p io)))
                = hypoActive (fst (tick_hypo p io))).
  { unfold tick_hypo. apply updateHypopneaFSM_synced. rewrite FH, HF. exact SH. }
  assert (SA1 : Status.apneaActive (_stat (fst (tick_hypo p io)))
                = apneaActive (fst (tick_hypo p io))).
  { destruct (tick_hypo_frame p io) as (_ & -> & _).
    unfold tick_hypo.
    destruct (updateHypopneaFSM_store (tick_peaked p io) (millis io)
                (tick_hypoNow p io)) as (_ & _ & -> & _).
    rewrite FA. exact SA. }
  split.
  - unfold tick_apnea. apply updateApneaFSM_synced. exact SA1.
  - unfold tick_apnea.
    destruct (updateApneaFSM_store (fst (tick_hypo p io)) (millis io)
                (tick_apneaNow p io)) as (_ & _ & -> & _).
    destruct (updateApneaFSM_frame (fst (tick_hypo p io)) (millis io)
                (tick_apneaNow p io)) as (_ & HF2 & _).
    apply hypo_fsm_eq in HF2. destruct HF2 as [-> _]. exact SH1.
Qed.

Lemma tick_published_store p io :
  let q := tick_published p io in
  store q = store p
  /\ _nextSampleUs q = wrap32 (_nextSampleUs p + _intervalUs p)
  /\ flags (_stat q) = flags (_stat (fst (tick_apnea p io)))
  /\ Status.bpm (_stat q) = Status.bpm (_stat (fst (tick_apnea p io)))
  /\ Status.envPrimary (_stat q) = tick_env p io
  /\ Status.envBaselinePrimary (_stat q)
     = ChannelState.envBaseline (getP (tick_useCh2 p) (tick_flagged p io))
  /\ Status.thresholdPrimary (_stat q) = tick_thr p io
  /\ Status.snrEstimate (_stat q)
     = (if fgt (tick_base p io) (flit 1 1000000)
        then fdiv (tick_env p io) (tick_base p io) else f0).
Proof.
  cbv zeta. unfold tick_published.
  rew (publish_store (tick_useCh2 p) (millis io) (tick_env p io) (tick_thr p io)
         (tick_base p io) (fst (tick_apnea p io))).
  rew (tick_apnea_store p io).
  rewrite tick_apnea_getP.
  destruct (tick_peaked_channels p io) as (_ & _ & C1 & C2).
  destruct (tick_flagged_frame p io) as (_ & _ & _ & _ & _ & E1 & E2 & _).
  assert (E : ChannelState.envBaseline (getP (tick_useCh2 p) (tick_peaked p io))
              = ChannelState.envBaseline (getP (tick_useCh2 p) (tick_flagged p io))).
  { unfold getP, conditioned in *. destruct (tick_useCh2 p).
    - rewrite E2. injection C2 as _ _ ->. reflexivity.
    - rewrite E1. injection C1 as _ _ ->. reflexivity. }
  rewrite E. repeat split; reflexivity.
Qed.

Lemma store_eq p q :
  store p = store q ->
  tele_ring p = tele_ring q /\ burst_ring p = burst_ring q
  /\ burst_timer p = burst_timer q /\ _intervalUs p = _intervalUs q.
Proof.
  unfold store. intros H. repeat split.
  - exact (f_equal (fun x => fst (fst (fst x))) H).
  - exact (f_equal (fun x => snd (fst (fst x))) H).
  - exact (f_equal (fun x => snd (fst x)) H).
  - exact (f_equal snd H).
Qed.

(** The pipeline a due tick leaves: the schedule, the rings and the
    published status. *)
Lemma tick_store p io :
  tick_due p io = true ->
  let q := fst (tick p io) in
  let tp := tick_published p io in
  sched q = (_intervalUs p, wrap32 (_nextSampleUs p + _intervalUs p))
  /\ tele_ring q = tele_ring (pushTele tp (millis io))
  /\ burst_ring q
     = burst_ring (handleBurst (pushTele tp (millis io)) (millis io)
                     (tick_mv0 p io) (tick_mv1 p io))
  /\ burst_timer q
     = burst_timer (handleBurst (pushTele tp (millis io)) (millis io)
                      (tick_mv0 p io) (tick_mv1 p io))
  /\ _stat q = _stat tp
  /\ store tp = store p.
Proof.
  intros D. cbv zeta. rewrite (tick_executed p io D). cbn [fst].
  destruct (handleBurst_store (pushTele (tick_published p io) (millis io)) (millis io)
              (tick_mv0 p io) (tick_mv1 p io)) as (H1 & H2).
  destruct (handleBurst_frame (pushTele (tick_published p io) (millis io)) (millis io)
              (tick_mv0 p io) (tick_mv1 p io)) as (_ & _ & _ & _ & _ & _ & H3 & _).
  destruct (pushTele_store (tick_published p io) (millis io)) as (_ & _ & T3).
  destruct (pushTele_frame (tick_published p io) (millis io))
    as (_ & _ & _ & _ & _ & _ & T4 & _).
  destruct (tick_published_store p io) as (S1 & S2 & _).
  rewrite H1, H2, H3, T3, T4.
  split; [|repeat split; first [reflexivity | exact S1]].
  unfold sched. rewrite S2. apply store_eq in S1. destruct S1 as (_ & _ & _ & ->).
  reflexivity.
Qed.

(** The rings as [pushTele], [pushBurst] and [handleBurst] leave them. *)
Lemma pushTele_ring p ts :
  tele_ring (pushTele p ts)
  = (<[Z.to_nat (_tlHead p) := tele_record (_stat p) ts]> (_tele p),
     wrap16 ((_tlHead p + 1) mod TELE_CAP),
     if wrap16 ((_tlHead p + 1) mod TELE_CAP) =? _tlTail p
     then wrap16 ((_tlTail p + 1) mod TELE_CAP) else _tlTail p).
Proof. unfold pushTele, tele_ring. cbv zeta. case_match; reflexivity. Qed.

Lemma pushBurst_ring p c0 c1 :
  burst_ring (pushBurst p c0 c1)
  = (<[Z.to_nat (_burstHead p) := c0]> (_burstCh1 p),
     <[Z.to_nat (_burstHead p) := c1]> (_burstCh2 p),
     (_burstHead p + 1) mod burst_cap p,
     (if _burstFill p <? burst_cap p then _burstTail p
      else (_burstTail p + 1) mod burst_cap p),
     (if _burstFill p <? burst_cap p then _burstFill p + 1 else _burstFill p)).
Proof.
  unfold pushBurst, burst_ring, burst_cap. cbv zeta.
  change (_burstFill (set_burstHead ?a (set_burstCh2 ?b (set_burstCh1 ?c p))))
    with (_burstFill p).
  destruct (_burstFill p <? _); reflexivity.
Qed.

Lemma handleBurst_ring p ts a b :
  burst_ring (handleBurst p ts a b)
  = burst_ring (pushBurst p (burst_counts p a) (burst_counts p b)).
Proof. unfold handleBurst, burst_counts. cbv zeta. repeat case_match; reflexivity. Qed.

Lemma pushBurst_timer p c0 c1 :
  _burstActive (pushBurst p c0 c1) = _burstActive p
  /\ _burstPostRemain (pushBurst p c0 c1) = _burstPostRemain p
  /\ _cfg (pushBurst p c0 c1) = _cfg p.
Proof. unfold pushBurst. frame. Qed.

Lemma handleBurst_timer p ts a b :
  burst_timer (handleBurst p ts a b)
  = if _burstActive p then
      (if _burstPostRemain p >? burst_stepMs p
       then (negb (wrap16 (_burstPostRemain p - burst_stepMs p) =? 0),
             wrap16 (_burstPostRemain p - burst_stepMs p))
       else (false, 0))
    else burst_timer p.
Proof.
  unfold handleBurst, burst_timer, burst_stepMs. cbv zeta.
  destruct (pushBurst_timer p (f2i16 (roundf (fdiv a (_lsb_mV p))))
              (f2i16 (roundf (fdiv b (_lsb_mV p))))) as (A & R & C).
  set (q := pushBurst p _ _) in *. clearbody q.
  rewrite <- A, <- R, <- C.
  destruct (_burstActive q) eqn:EA; [|rewrite EA; reflexivity].
  destruct (_burstPostRemain q >? _).
  - change (_burstPostRemain (set_burstPostRemain ?v q)) with v.
    destruct (wrap16 _ =? 0); cbn [negb]; [reflexivity|].
    f_equal. exact EA.
  - reflexivity.
Qed.

(** The hypopnea machine as a transition function. *)
Lemma updateHypopneaFSM_events p nowMs b :
  snd (updateHypopneaFSM p nowMs b)
  = if _cb p
    then hypopnea_transition (hypoActive p)
           (hypoActive (fst (updateHypopneaFSM p nowMs b))) nowMs
    else [].
Proof.
  unfold updateHypopneaFSM, emit, hypopnea_transition.
  destruct b.
  - destruct (hypoActive p) eqn:HA; cbn [negb andb fst snd].
    + rewrite ?HA. destruct (_cb p); reflexivity.
    + cbv zeta.
      destruct (hypoStartMs p =? 0); destruct (wrap32 _ >=? _); cbn [fst snd];
        cbn [_cb hypoActive set_stat set_hypoActive set_hypoStartMs];
        rewrite ?HA; destruct (_cb p); reflexivity.
  - cbv zeta. cbn [hypoActive set_hypoStartMs].
    destruct (hypoActive p) eqn:HA; cbn [fst snd];
      cbn [_cb hypoActive set_stat set_hypoActive set_hypoStartMs];
      rewrite ?HA; destruct (_cb p); reflexivity.
Qed.

(** What turns the hypopnea machine Active, and what keeps it so. *)
Lemma updateHypopneaFSM_start p nowMs b :
  hypoActive p = false ->
  hypoActive (fst (updateHypopneaFSM p nowMs b)) = true ->
  b = true
  /\ hypoStartMs (fst (updateHypopneaFSM p nowMs b))
     = (if hypoStartMs p =? 0 then nowMs else hypoStartMs p)
  /\ hypopneaMinMs p
       <= wrap32 (nowMs - hypoStartMs (fst (updateHypopneaFSM p nowMs b))).
Proof.
  unfold updateHypopneaFSM, hypopneaMinMs. intros HA.
  destruct b.
  - rewrite HA. cbn [negb]. cbv zeta.
    destruct (hypoStartMs p =? 0) eqn:E0.
    + change (hypoStartMs (set_hypoStartMs nowMs p)) with nowMs.
      change (_cfg (set_hypoStartMs nowMs p)) with (_cfg p).
      destruct (wrap32 _ >=? _) eqn:G; cbn [fst].
      * intros _. split; [reflexivity|]. split; [reflexivity|].
        change (hypoStartMs (set_stat ?s (set_hypoActive ?a (set_hypoStartMs nowMs p))))
          with nowMs.
        apply Z.geb_le in G. exact G.
      * change (hypoActive (set_hypoStartMs nowMs p)) with (hypoActive p).
        rewrite HA. discriminate.
    + destruct (wrap32 _ >=? _) eqn:G; cbn [fst].
      * intros _. split; [reflexivity|]. split; [reflexivity|].
        change (hypoStartMs (set_stat ?s (set_hypoActive ?a p))) with (hypoStartMs p).
        apply Z.geb_le in G. exact G.
      * rewrite HA. discriminate.
  - cbv zeta. change (hypoActive (set_hypoStartMs 0 p)) with (hypoActive p).
    rewrite HA. cbn [fst].
    change (hypoActive (set_hypoStartMs 0 p)) with (hypoActive p).
    rewrite HA. discriminate.
Qed.

Lemma updateHypopneaFSM_stays p nowMs b :
  hypoActive p = true ->
  hypoActive (fst (updateHypopneaFSM p nowMs b)) = b.
Proof.
  unfold updateHypopneaFSM. intros HA.
  destruct b.
  - rewrite HA. cbn [negb fst]. exact HA.
  - cbv zeta. change (hypoActive (set_hypoStartMs 0 p)) with (hypoActive p).
    rewrite HA. reflexivity.
Qed.

(** [env], [base] and [thr] of a tick, from the primary channel as the
    conditioner leaves it. *)
Lemma tick_env_eq p io :
  tick_env p io = ChannelState.env (getP (tick_useCh2 p) (tick_flagged p io)).
Proof. reflexivity. Qed.

Lemma tick_base_eq p io :
  tick_base p io
  = max_float (ChannelState.envBaseline (getP (tick_useCh2 p) (tick_flagged p io)))
      (flit 1 1000000).
Proof. reflexivity. Qed.

Lemma control_cfg p q : control p = control q -> _cfg p = _cfg q.
Proof. unfold control. intros H. injection H as -> _. reflexivity. Qed.

Lemma tick_thr_eq p io :
  tick_thr p io = fmul (Config.thrFactor (_cfg p)) (tick_base p io).
Proof.
  unfold tick_thr. pose proof (tick_flagged_frame p io) as H. cbv zeta in H.
  destruct H as (C & _). rewrite (control_cfg _ _ C). reflexivity.
Qed.

Lemma tick_hypoNow_eq p io :
  tick_hypoNow p io
  = flt (ChannelState.lastEnvPeak (getP (tick_useCh2 p) (tick_peaked p io)))
        (fmul (Config.hypopneaFrac (_cfg p)) (tick_base p io))
    && negb (tick_artifact p io).
Proof.
  unfold tick_hypoNow. pose proof (tick_peaked_frame p io) as H. cbv zeta in H.
  destruct H as (C & _). rewrite (control_cfg _ _ C). reflexivity.
Qed.

Lemma tick_published_control p io : control (tick_published p io) = control p.
Proof.
  unfold tick_published.
  destruct (publish_frame (tick_useCh2 p) (millis io) (tick_env p io) (tick_thr p io)
              (tick_base p io) (fst (tick_apnea p io))) as (-> & _).
  apply (tick_apnea_frame p io).
Qed.

(** The moving-average rings along a tick: as [processOne] leaves them. *)
Lemma tick_peaked_ma p io :
  ma_state (_ch1 (tick_peaked p io))
  = ma_state (processOne p (_ch1 p) (tick_mv0 p io))
  /\ ma_state (_ch2 (tick_peaked p io))
     = ma_state (processOne p (_ch2 p) (tick_mv1 p io)).
Proof.
  unfold tick_peaked.
  rew (detectPeak_ma (tick_useCh2 p) (tick_artifact p io) (millis io)
         (tick_crossed p io)).
  unfold tick_crossed.
  destruct (markCrossing_store (tick_useCh2 p) (tick_above p io) (millis io)
              (tick_flagged p io)) as (_ & _ & _ & -> & ->).
  destruct (tick_flagged_frame p io) as (_ & _ & _ & _ & _ & -> & -> & _).
  split; reflexivity.
Qed.

(** ** The memory of the spike test *)

Lemma steps_prevEnv :
  (forall mv0 mv1 q, prevEnv (sampleBoth mv0 mv1 q) = prevEnv q)
  /\ (forall a q, prevEnv (flagArtifact a q) = prevEnv q)
  /\ (forall u a ms q, prevEnv (markCrossing u a ms q) = prevEnv q)
  /\ (forall q C ms, prevEnv (fst (peakDetectAndRR q C ms)) = prevEnv q)
  /\ (forall q ms b, prevEnv (fst (updateHypopneaFSM q ms b)) = prevEnv q)
  /\ (forall q ms b, prevEnv (fst (updateApneaFSM q ms b)) = prevEnv q)
  /\ (forall u ms e t b q, prevEnv (publish u ms e t b q) = prevEnv q)
  /\ (forall q ts, prevEnv (pushTele q ts) = prevEnv q)
  /\ (forall q ts a b, prevEnv (handleBurst q ts a b) = prevEnv q).
Proof.
  repeat apply conj; intros.
  - reflexivity.
  - reflexivity.
  - unfold markCrossing, setP. frame.
  - unfold peakDetectAndRR. frame.
  - unfold updateHypopneaFSM. frame.
  - unfold updateApneaFSM. frame.
  - reflexivity.
  - unfold pushTele. frame.
  - unfold handleBurst, pushBurst. frame.
Qed.

Lemma detectPeak_prevEnv u a nowMs q : prevEnv (detectPeak u a nowMs q) = prevEnv q.
Proof.
  unfold detectPeak. destruct a; [reflexivity|]. cbn [negb]. cbv zeta.
  destruct steps_prevEnv as (_ & _ & _ & P & _).
  rewrite <- (P q (getP u q) nowMs).
  set (r := peakDetectAndRR q (getP u q) nowMs). clearbody r.
  unfold setP. destruct u; reflexivity.
Qed.

(** The verdict of the rail test and what the call leaves in [prevEnv]. *)
Lemma detectArtifact_prevEnv p C mv :
  let rail := fle (fabsf (fsub (railMilliVolts p) (fabsf mv)))
                  (Config.railMarginMV (_cfg p)) in
  prevEnv (snd (detectArtifact p C mv))
  = (if rail then prevEnv p else ChannelState.env C)
  /\ (rail = true -> fst (detectArtifact p C mv) = true).
Proof.
  cbv zeta. unfold detectArtifact. cbv zeta.
  destruct (fle (fabsf (fsub (railMilliVolts p) (fabsf mv))) _).
  - split; reflexivity.
  - split; [|discriminate]. repeat case_match; reflexivity.
Qed.

Lemma tick_prevEnv p io :
  tick_due p io = true ->
  let rail := fle (fabsf (fsub (railMilliVolts p) (fabsf (tick_mvP p io))))
                  (Config.railMarginMV (_cfg p)) in
  prevEnv (fst (tick p io)) = (if rail then prevEnv p else tick_env p io)
  /\ (rail = true -> tick_artifact p io = true).
Proof.
  intros D. cbv zeta. rewrite (tick_executed p io D). cbn [fst].
  destruct steps_prevEnv as (P1 & P2 & P3 & _ & P5 & P6 & P7 & P8 & P9).
  rewrite P9, P8. unfold tick_published. rewrite P7.
  unfold tick_apnea. rewrite P6. unfold tick_hypo. rewrite P5.
  unfold tick_peaked. rewrite detectPeak_prevEnv.
  unfold tick_crossed. rewrite P3.
  unfold tick_env, tick_artifact, tick_flagged. rewrite P2.
  destruct (flagArtifact_frame (tick_artifact p io) (snd (tick_detect p io)))
    as (_ & _ & _ & _ & _ & F1 & F2 & _).
  rewrite (getP_eq _ _ _ F1 F2).
  unfold tick_detect.
  destruct (detectArtifact_frame (tick_sampled p io)
              (getP (tick_useCh2 p) (tick_sampled p io)) (tick_mvP p io))
    as (_ & _ & _ & _ & _ & A1 & A2 & _).
  rewrite (getP_eq _ _ _ A1 A2).
  destruct (detectArtifact_prevEnv (tick_sampled p io)
              (getP (tick_useCh2 p) (tick_sampled p io)) (tick_mvP p io)) as [E V].
  assert (C : _cfg (tick_sampled p io) = _cfg p).
  { apply control_cfg. unfold tick_sampled.
    apply (sampleBoth_frame (tick_mv0 p io) (tick_mv1 p io) p). }
  assert (R : railMilliVolts (tick_sampled p io) = railMilliVolts p)
    by (unfold railMilliVolts; rewrite C; reflexivity).
  rewrite C, R in E, V. rewrite E.
  unfold tick_sampled at 1. rewrite P1.
  split; [reflexivity | exact V].
Qed.

(** From here on the steps of [tick] are used through their lemmas. *)
Opaque tick_sampled tick_detect tick_artifact tick_flagged tick_base tick_thr
  tick_env tick_above tick_crossed tick_peaked tick_hypoNow tick_hypo
  tick_apneaNow tick_apnea tick_published tick updateHypopneaFSM
  updateApneaFSM.

(** ** Events *)

Lemma tick_events_fsm p io : Forall fsm_event (snd (tick p io)).
Proof.
  destruct (tick_due p io) eqn:D.
  - rewrite (tick_executed p io D). cbn [snd]. apply Forall_app. split.
    + rewrite tick_hypo_eq.
      eapply Forall_impl; [apply updateHypopneaFSM_events_hypopnea|].
      unfold fsm_event. intros e [[H | H] H0]; auto.
    + rewrite tick_apnea_eq.
      eapply Forall_impl; [apply updateApneaFSM_events_apnea|].
      unfold fsm_event. intros e [[H | H] H0]; auto.
  - rewrite (tick_skipped p io D). apply List.Forall_nil.
Qed.

Lemma call_events_fsm expf p c : Forall fsm_event (snd (call expf p c)).
Proof. destruct c; cbn [call snd]; try apply List.Forall_nil. apply tick_events_fsm. Qed.

(** C9.  Every event handed to the callback along any run of the public
    interface, from any pipeline, is one of ApneaStart, ApneaEnd,
    HypopneaStart and HypopneaEnd and carries duration 0: no
    ArtifactDetected event is ever emitted, whatever the artifact flag. *)
Theorem events_are_fsm_transitions expf p cs :
  Forall (fun e => fsm_event e /\ Event.type e <> ArtifactDetected)
         (snd (run expf p cs)).
Proof.
  revert p. induction cs as [|c cs IH]; intros p; cbn [run snd].
  - apply List.Forall_nil.
  - apply Forall_app. split; [|apply IH].
    eapply Forall_impl; [apply call_events_fsm|].
    intros e H. split; [exact H|].
    destruct H as [[H | [H | [H | H]]] _]; rewrite H; discriminate.
Qed.
(** ** Artifact ticks *)

Lemma tick_lastCrossMs p io :
  tick_due p io = true ->
  ChannelState.lastCrossMs (getP (tick_useCh2 p) (fst (tick p io)))
  = tick_lastCross p io
  /\ ChannelState.lastCrossMs (getP (negb (tick_useCh2 p)) (fst (tick p io)))
     = ChannelState.lastCrossMs (getP (negb (tick_useCh2 p)) p).
Proof.
  intros D.
  destruct (tick_frame p io D) as (_ & _ & _ & _ & _ & _ & _ & E1 & E2).
  rewrite !(getP_eq _ _ _ E1 E2).
  destruct (tick_peaked_channels p io) as (-> & -> & _). split; reflexivity.
Qed.

Lemma tick_conditioned p io :
  tick_due p io = true ->
  conditioned (_ch1 (fst (tick p io)))
  = conditioned (processOne p (_ch1 p) (tick_mv0 p io))
  /\ conditioned (_ch2 (fst (tick p io)))
     = conditioned (processOne p (_ch2 p) (tick_mv1 p io)).
Proof.
  intros D.
  destruct (tick_frame p io D) as (_ & _ & _ & _ & _ & _ & _ & -> & ->).
  destruct (tick_peaked_channels p io) as (_ & _ & -> & ->). split; reflexivity.
Qed.

(** The three values the conditioner computes for a channel, written out
    from the statements of [processOne]. *)
Lemma processOne_conditioned p C mv :
  conditioned (processOne p C mv)
  = (let dc := fadd (fmul (fsub f1 (_alphaDC p)) (ChannelState.dcBaseline C))
                    (fmul (_alphaDC p) mv) in
     let taps := imin ChannelState.MAX_MA (imax 1 (Config.antiRingTaps (_cfg p))) in
     let buf := <[Z.to_nat (ChannelState.maIdx C) := fsub mv dc]> (ChannelState.maBuf C) in
     let fill := if ChannelState.maFill C <? taps
                 then wrap8 (ChannelState.maFill C + 1) else ChannelState.maFill C in
     let ma := fdiv (foldl (fun s i => fadd s (buf !!! i)) f0 (seq 0 (Z.to_nat fill)))
                    (Z2F (imax 1 fill)) in
     let env := fadd (fmul (fsub f1 (_alphaEnv p)) (ChannelState.env C))
                     (fmul (_alphaEnv p) (fabsf ma)) in
     (dc, env,
      if fgt env (ChannelState.envBaseline C)
      then fadd (fmul (fsub f1 (_alphaThr p)) (ChannelState.envBaseline C))
                (fmul (_alphaThr p) env)
      else max_float (fmul (ChannelState.envBaseline C) (flit 9995 10000))
                     (fmul env (flit 9 10)))).
Proof.
  unfold processOne, conditioned. cbv zeta.
  match goal with |- context [if fgt ?a ?b then _ else _] => destruct (fgt a b) end;
    reflexivity.
Qed.

(** C7.  On a tick that is executed, both channels are conditioned from
    the tick's samples whatever the artifact verdict is.  With [mv] the
    sample in millivolts (the ADC count times [_lsb_mV]): the DC baseline
    becomes [(1 - alphaDC) * dcBaseline + alphaDC * mv]; the detrended
    sample [mv - dcBaseline] enters the moving-average ring and the
    envelope becomes [(1 - alphaEnv) * env + alphaEnv * |ma|], [ma] being
    the average of the filled slots; the envelope-peak baseline becomes
    [(1 - alphaThr) * envBaseline + alphaThr * env] when the new envelope
    is above it and [max(envBaseline * 0.9995, env * 0.9)] otherwise.
    These are the values [processOne] computes.  When the artifact flag is
    set, peak detection is not run (the last-peak timestamps, the interval
    ring, the published rate and the detector's statics are as before the
    tick) and the crossing timestamps are not updated. *)
Theorem artifact_tick_suppresses_detection p io :
  tick_due p io = true ->
  let q := fst (tick p io) in
  let mv0 :=
    fmul (Z2F (if _ads p then readADC_SingleEnded io (Config.adsChannel1 (_cfg p))
               else 0)) (_lsb_mV p) in
  let mv1 :=
    fmul (Z2F (if _ads p then readADC_SingleEnded io (Config.adsChannel2 (_cfg p))
               else 0)) (_lsb_mV p) in
  let updated := fun (C : ChannelState.t) (mv : float32) =>
    let dc := fadd (fmul (fsub f1 (_alphaDC p)) (ChannelState.dcBaseline C))
                   (fmul (_alphaDC p) mv) in
    let taps := imin ChannelState.MAX_MA (imax 1 (Config.antiRingTaps (_cfg p))) in
    let buf := <[Z.to_nat (ChannelState.maIdx C) := fsub mv dc]> (ChannelState.maBuf C) in
    let fill := if ChannelState.maFill C <? taps
                then wrap8 (ChannelState.maFill C + 1) else ChannelState.maFill C in
    let ma := fdiv (foldl (fun s i => fadd s (buf !!! i)) f0 (seq 0 (Z.to_nat fill)))
                   (Z2F (imax 1 fill)) in
    let env := fadd (fmul (fsub f1 (_alphaEnv p)) (ChannelState.env C))
                    (fmul (_alphaEnv p) (fabsf ma)) in
    (dc, env,
     if fgt env (ChannelState.envBaseline C)
     then fadd (fmul (fsub f1 (_alphaThr p)) (ChannelState.envBaseline C))
               (fmul (_alphaThr p) env)
     else max_float (fmul (ChannelState.envBaseline C) (flit 9995 10000))
                    (fmul env (flit 9 10))) in
  (conditioned (_ch1 q) = updated (_ch1 p) mv0
   /\ conditioned (_ch2 q) = updated (_ch2 p) mv1)
  /\ (conditioned (_ch1 q) = conditioned (processOne p (_ch1 p) (tick_mv0 p io))
      /\ conditioned (_ch2 q) = conditioned (processOne p (_ch2 p) (tick_mv1 p io)))
  /\ (Status.artifact (getStatus q) = true ->
      ChannelState.lastPeakMs (_ch1 q) = ChannelState.lastPeakMs (_ch1 p)
      /\ ChannelState.lastPeakMs (_ch2 q) = ChannelState.lastPeakMs (_ch2 p)
      /\ rate_state q = rate_state p
      /\ peak_statics q = peak_statics p
      /\ ChannelState.lastCrossMs (_ch1 q) = ChannelState.lastCrossMs (_ch1 p)
      /\ ChannelState.lastCrossMs (_ch2 q) = ChannelState.lastCrossMs (_ch2 p)).
Proof.
  intros D q mv0 mv1 updated.
  split; [|split; [exact (tick_conditioned p io D)|]].
  { destruct (tick_conditioned p io D) as [C1 C2]. fold q in C1, C2.
    rewrite C1, C2, !processOne_conditioned. split; reflexivity. }
  unfold getStatus. intros A.
  destruct (tick_frame p io D) as (_ & _ & _ & FA & _ & FR & FS & E1 & E2).
  fold q in FA, FR, FS, E1, E2. rewrite FA in A.
  destruct (tick_peaked_artifact p io A) as (R1 & R2 & R3 & R4).
  destruct (tick_lastCrossMs p io D) as (L1 & L2). fold q in L1, L2.
  rewrite (tick_artifact_lastCross p io A) in L1.
  repeat split.
  - rewrite E1. exact R3.
  - rewrite E2. exact R4.
  - rewrite FR. exact R1.
  - rewrite FS. exact R2.
  - unfold getP in L1, L2. destruct (tick_useCh2 p); cbn [negb] in L2; assumption.
  - unfold getP in L1, L2. destruct (tick_useCh2 p); cbn [negb] in L2; assumption.
Qed.
(** ** The hypopnea machine on artifact ticks *)

(** C1, as the code has it.  On a tick that is executed with the artifact
    flag set, the hypopnea condition is forced false: the start timer is
    reset to zero (so it never advances), the machine is Inactive after
    the tick, and HypopneaEnd is handed to the callback exactly when the
    machine was Active before; no HypopneaStart is emitted. *)
Theorem artifact_tick_resets_hypopnea p io :
  tick_due p io = true ->
  Status.artifact (getStatus (fst (tick p io))) = true ->
  hypoStartMs (fst (tick p io)) = 0
  /\ hypoActive (fst (tick p io)) = false
  /\ List.filter is_hypopnea (snd (tick p io))
     = if hypoActive p && _cb p
       then [Event.mk HypopneaEnd (millis io) 0] else [].
Proof.
  intros D A. unfold getStatus in A.
  destruct (tick_frame p io D) as (_ & FH & _ & FA & _).
  rewrite FA in A.
  apply hypo_fsm_eq in FH. destruct FH as [FH1 FH2].
  rewrite FH1, FH2, (tick_executed p io D). cbn [snd].
  rewrite tick_hypo_eq, tick_apnea_eq.
  rewrite (tick_artifact_hypoNow p io A).
  destruct (updateHypopneaFSM_false (tick_peaked p io) (millis io))
    as (S1a & S1b & S2).
  rewrite List.filter_app, filter_hypopnea_apnea_events, app_nil_r, S2.
  destruct (tick_peaked_frame p io) as (C & H & _).
  apply hypo_fsm_eq in H. destruct H as [-> _].
  rewrite (control_cb _ _ C).
  split; [exact S1a|]. split; [exact S1b|].
  destruct (hypoActive p && _cb p); reflexivity.
Qed.

Lemma artifact_tick_resets_hypopnea_witness :
  tick_due hypopnea_active (railed 10020) = true
  /\ Status.artifact (getStatus (fst (tick hypopnea_active (railed 10020)))) = true
  /\ hypoStartMs (fst (tick hypopnea_active (railed 10020))) = 0
  /\ hypoActive (fst (tick hypopnea_active (railed 10020))) = false
  /\ List.filter is_hypopnea (snd (tick hypopnea_active (railed 10020)))
     = [Event.mk HypopneaEnd 10020 0].
Proof.
  split; [vm_compute; reflexivity|]. split; [vm_compute; reflexivity|].
  apply (artifact_tick_resets_hypopnea hypopnea_active (railed 10020));
    vm_compute; reflexivity.
Defined.

(** C1 as the specification states it fails: an artifact tick resets a
    running start timer (from 10 to 0), and an artifact tick that finds
    the machine Active turns it Inactive and emits HypopneaEnd. *)
Lemma artifact_tick_changes_hypopnea_fsm :
  (tick_due timer_running (railed 20) = true
   /\ Status.artifact (getStatus (fst (tick timer_running (railed 20)))) = true
   /\ hypoStartMs timer_running = 10
   /\ hypoStartMs (fst (tick timer_running (railed 20))) = 0)
  /\ (tick_due hypopnea_active (railed 10020) = true
      /\ Status.artifact (getStatus (fst (tick hypopnea_active (railed 10020)))) = true
      /\ hypoActive hypopnea_active = true
      /\ hypoActive (fst (tick hypopnea_active (railed 10020))) = false
      /\ snd (tick hypopnea_active (railed 10020))
         = [Event.mk HypopneaEnd 10020 0]).
Proof. vm_compute. repeat split; reflexivity. Qed.

(** ** Runs of ticks *)

Lemma tick_control p io : control (fst (tick p io)) = control p.
Proof.
  destruct (tick_due p io) eqn:D.
  - apply (tick_frame p io D).
  - rewrite (tick_skipped p io D). reflexivity.
Qed.

Lemma ticks_control p ios : control (fst (ticks p ios)) = control p.
Proof.
  revert p. induction ios as [|io ios IH]; intros p; cbn [ticks fst].
  - reflexivity.
  - rewrite IH. apply tick_control.
Qed.


Lemma ticks_single p io : ticks p [io] = (fst (tick p io), snd (tick p io) ++ []).
Proof. reflexivity. Qed.





(** ** The apnea machine *)



Lemma filter_apnea_transition b a nowMs :
  List.filter is_apnea (apnea_transition b a nowMs) = apnea_transition b a nowMs.
Proof. destruct b, a; reflexivity. Qed.


Lemma tick_apneaActive p io :
  tick_due p io = true ->
  apneaActive (fst (tick p io))
  = (wrap32 (millis io - tick_lastCross p io) >=? apneaMinMs p).
Proof.
  intros D. destruct (tick_frame p io D) as (_ & _ & -> & _).
  apply tick_apneaNow_eq.
Qed.

Lemma count_type_app ty a b :
  count_type ty (a ++ b) = (count_type ty a + count_type ty b)%nat.
Proof. unfold count_type. rewrite List.filter_app, length_app. reflexivity. Qed.











(** A railed sample at 1000 ms on [booted_held]: the envelope jumps from 0
    to 255.875 mV, above the threshold, and the acceptance test of the
    peak detector holds, so without the artifact gate the tick would set
    the crossing and the last-peak timestamps; with it they stay at 0,
    while the envelope and the envelope-peak baseline take the sample. *)
Lemma artifact_tick_suppresses_detection_witness :
  let p := booted_held in
  let io := railed 1000 in
  let q := fst (tick p io) in
  (tick_due p io = true /\ Status.artifact (getStatus q) = true)
  /\ (fge (tick_env p io) (tick_thr p io) = true
      /\ peak_accepted (tick_crossed p io) (getP (tick_useCh2 p) (tick_crossed p io))
           (millis io) = true)
  /\ (times q = times p /\ rate_state q = rate_state p
      /\ peak_statics q = peak_statics p)
  /\ conditioned (_ch2 p) = (f0, f0, f0)
  /\ conditioned (_ch2 q)
     = (f0, fmul (Z2F 2047) (flit 125 1000), fmul (Z2F 2047) (flit 125 1000)).
Proof.
  cbv zeta.
  assert (D : tick_due booted_held (railed 1000) = true) by (vm_compute; reflexivity).
  assert (A : Status.artifact (getStatus (fst (tick booted_held (railed 1000)))) = true)
    by (vm_compute; reflexivity).
  destruct (artifact_tick_suppresses_detection booted_held (railed 1000) D)
    as ([_ U2] & _ & H).
  destruct (H A) as (P1 & P2 & R & S & L1 & L2).
  split; [split; [exact D | exact A]|].
  split; [split; vm_compute; reflexivity|].
  split; [split; [|split; [exact R | exact S]]|].
  { unfold times. rewrite P1, P2, L1, L2. reflexivity. }
  split; [vm_compute; reflexivity|].
  rewrite U2. vm_compute. reflexivity.
Defined.
(** ** Re-initialisation *)

(** C4, as the code has it.  [begin] stores the ADC pointer and the
    configuration, recomputes the derived coefficients, restarts the
    schedule, and resets the interval ring, the status, the telemetry
    cursors and the burst trigger.  Both channel states, the telemetry and
    burst arrays, the burst cursors and fill count, the callback and the
    six static variables of the peak detector, the artifact detector and
    the two machines are as they were before the call. *)
Theorem begin_resets_rings_and_status expf p ads cfg nowUs :
  let q := begin expf p ads cfg nowUs in
  (_rrBuf q = replicate (Z.to_nat RR_WIN) f0 /\ _rrIdx q = 0 /\ _rrFill q = 0
   /\ _stat q = Status.zero /\ _tlHead q = 0 /\ _tlTail q = 0
   /\ _burstActive q = false /\ _burstPostRemain q = 0)
  /\ (_ads q = ads /\ _cfg q = cfg /\ _nextSampleUs q = nowUs
      /\ _intervalUs q = 1000000 / imax 1 (Config.fsProcHz cfg)
      /\ _alphaDC q = alphaFromTau expf (Config.baselineTauSec cfg) (Config.fsProcHz cfg)
      /\ _alphaEnv q = alphaFromTau expf (Config.envTauSec cfg) (Config.fsProcHz cfg)
      /\ _alphaThr q = alphaFromTau expf (Config.thrEmaTauSec cfg) (Config.fsProcHz cfg)
      /\ _lsb_mV q = computeLsbMilliVolts (Config.useADS1115 cfg) (Config.adsGain cfg))
  /\ (_ch1 q = _ch1 p /\ _ch2 q = _ch2 p /\ _tele q = _tele p
      /\ _burstCh1 q = _burstCh1 p /\ _burstCh2 q = _burstCh2 p
      /\ _burstHead q = _burstHead p /\ _burstTail q = _burstTail p
      /\ _burstFill q = _burstFill p /\ _cb q = _cb p
      /\ prevEnv q = prevEnv p /\ prevAbove q = prevAbove p
      /\ lastEventMs q = lastEventMs p /\ apneaActive q = apneaActive p
      /\ hypoStartMs q = hypoStartMs p /\ hypoActive q = hypoActive p).
Proof. unfold begin. repeat split; reflexivity. Qed.

(** C4 as the specification states it fails: re-initialising a pipeline
    that has run leaves the primary channel, the burst ring and the
    hypopnea machine as they were, not as at power-on. *)
Lemma begin_keeps_channels_and_statics :
  let p := fst (tick hypopnea_active (sample 10020 80)) in
  let q := begin expf_unreached p true cfg_instant 0 in
  (ChannelState.dcBaseline (_ch2 q) = Z2F 10
   /\ ChannelState.dcBaseline (_ch2 initial) = f0)
  /\ (_burstFill q = 3 /\ _burstFill initial = 0)
  /\ (hypoActive q = true /\ hypoActive initial = false)
  /\ (hypoStartMs q = 10 /\ hypoStartMs initial = 0).
Proof. vm_compute. repeat split; reflexivity. Qed.
(** ** Burst export *)

(** What holds of [exportBurst] on every ring: the count it returns.  It
    has no access to the pipeline but to read it. *)
Lemma exportBurst_count p ch1Buf ch2Buf maxSamples :
  snd (exportBurst p ch1Buf ch2Buf maxSamples) = imin (_burstFill p) maxSamples.
Proof.
  unfold exportBurst. cbv zeta.
  destruct (foldl _ _ _) as [b1 b2]. reflexivity.
Qed.

(** C2 at a failing input.  [pushBurst] wraps the ring at the configured
    capacity, [exportBurst] reads it modulo [BURST_CAP]: once the ring has
    wrapped, the export runs past the ring's end.  With a ring of 64
    samples that holds the samples 2, ..., 65, an export of 64 samples
    returns 2, ..., 64 followed by the 0 of a slot that was never written,
    and the newest sample 65 is missing; the count returned and the ring
    itself are as the claim says.  The default ring of 600 samples does
    the same after 601 pushes. *)
Theorem exportBurst_after_wrap_misses_newest :
  (burst_cap burst_wrapped = 64
   /\ burst_held burst_wrapped
      = map (fun k => (Z.of_nat k, Z.of_nat k)) (seq 2 64)
   /\ exportBurst burst_wrapped (replicate 64 (-1)) (replicate 64 (-1)) 64
      = (map Z.of_nat (seq 2 63) ++ [0], map Z.of_nat (seq 2 63) ++ [0], 64))
  /\ (burst_cap burst_wrapped_default = 600
      /\ burst_held burst_wrapped_default
         = map (fun k => (Z.of_nat k, Z.of_nat k)) (seq 2 600)
      /\ exportBurst burst_wrapped_default (replicate 600 (-1)) (replicate 600 (-1)) 600
         = (map Z.of_nat (seq 2 599) ++ [0], map Z.of_nat (seq 2 599) ++ [0], 600)).
Proof. vm_compute. repeat split; reflexivity. Qed.
(** ** The telemetry ring *)

Local Ltac Zify.zify_post_hook ::= Z.to_euclidean_division_equations.

Lemma wrap16_index z : wrap16 (z mod TELE_CAP) = z mod TELE_CAP.
Proof. unfold wrap16, TELE_CAP. lia. Qed.

Lemma lastn_short {A} n (l : list A) : (length l <= n)%nat -> lastn n l = l.
Proof. intros H. unfold lastn. replace (length l - n)%nat with 0%nat by lia. reflexivity. Qed.

Lemma lastn_app_lastn {A} n (l m : list A) :
  lastn n (lastn n l ++ m) = lastn n (l ++ m).
Proof.
  destruct (Nat.le_gt_cases (length l) n) as [H | H].
  - rewrite (lastn_short n l H). reflexivity.
  - unfold lastn. rewrite !length_app, length_drop.
    replace (length l - (length l - n) + length m - n)%nat with (length m) by lia.
    replace (length l + length m - n)%nat with ((length l - n) + length m)%nat by lia.
    rewrite <- drop_drop. f_equal.
    rewrite drop_app_le by lia. reflexivity.
Qed.

Lemma popTelemetry_empty p out :
  _tlHead p = _tlTail p -> popTelemetry p out = (false, out, p).
Proof. intros H. unfold popTelemetry. rewrite H, Z.eqb_refl. reflexivity. Qed.

Lemma popTelemetry_some p out :
  tele_wf p -> _tlHead p <> _tlTail p ->
  let r := popTelemetry p out in
  fst (fst r) = true
  /\ tele_wf (snd r)
  /\ tele_contents p = snd (fst r) :: tele_contents (snd r).
Proof.
  intros (WL & WH & WT) N. unfold popTelemetry.
  destruct (_tlHead p =? _tlTail p) eqn:E; [apply Z.eqb_eq in E; contradiction|].
  cbv zeta. cbn [fst snd]. rewrite wrap16_index.
  split; [reflexivity|]. split.
  { split; [exact WL|]. split; [exact WH|].
    change (_tlTail (set_tlTail ?v p)) with v. unfold TELE_CAP in *. lia. }
  unfold tele_contents, tele_count.
  change (_tele (set_tlTail ?v p)) with (_tele p).
  change (_tlHead (set_tlTail ?v p)) with (_tlHead p).
  change (_tlTail (set_tlTail ?v p)) with v.
  set (t := _tlTail p) in *. set (h := _tlHead p) in *.
  assert (C : Z.to_nat ((h - t) mod TELE_CAP)
              = S (Z.to_nat ((h - (t + 1) mod TELE_CAP) mod TELE_CAP))).
  { unfold TELE_CAP in *. lia. }
  rewrite C. cbn [seq map]. f_equal.
  - f_equal. f_equal. unfold TELE_CAP in *. lia.
  - rewrite <- List.seq_shift, List.map_map. apply List.map_ext.
    intros i. f_equal. f_equal. unfold TELE_CAP in *. lia.
Qed.

Lemma tele_count_bound p : tele_wf p -> 0 <= tele_count p < TELE_CAP.
Proof. intros _. unfold tele_count, TELE_CAP. lia. Qed.

Lemma tele_count_zero p : tele_wf p -> _tlHead p = _tlTail p <-> tele_count p = 0.
Proof. intros (_ & WH & WT). unfold tele_count, TELE_CAP in *. lia. Qed.

Lemma length_tele_contents p : length (tele_contents p) = Z.to_nat (tele_count p).
Proof. unfold tele_contents. rewrite List.length_map, List.length_seq. reflexivity. Qed.

(** Draining hands out the unread records, oldest first. *)
Lemma drain_contents fuel : forall p,
  tele_wf p -> (Z.to_nat (tele_count p) <= fuel)%nat ->
  drain fuel p = tele_contents p.
Proof.
  induction fuel as [|fuel IH]; intros p W F.
  - cbn [drain]. pose proof (length_tele_contents p) as L.
    destruct (tele_contents p); [reflexivity | cbn [length] in L; lia].
  - cbn [drain]. destruct (Z.eq_dec (_tlHead p) (_tlTail p)) as [E | N].
    + rewrite (popTelemetry_empty p _ E). cbn [fst].
      pose proof (length_tele_contents p) as L.
      apply (tele_count_zero p W) in E. rewrite E in L.
      destruct (tele_contents p); [reflexivity | cbn [length] in L; lia].
    + destruct (popTelemetry_some p Telemetry.zero W N) as (-> & W' & C).
      rewrite C. f_equal. apply IH; [exact W'|].
      apply (f_equal (@length _)) in C. cbn [length] in C.
      rewrite !length_tele_contents in C. lia.
Qed.

(** One push: the record joins the unread ones, and the oldest is dropped
    when 255 were already held. *)
Lemma push_status_contents p r :
  tele_wf p ->
  tele_wf (push_status p r)
  /\ tele_contents (push_status p r)
     = lastn 255 (tele_contents p ++ [tele_record (fst r) (snd r)]).
Proof.
  intros (WL & WH & WT). unfold push_status, pushTele. cbv zeta.
  change (_tlHead (set_stat ?s p)) with (_tlHead p).
  change (_tlTail (set_stat ?s p)) with (_tlTail p).
  rewrite !wrap16_index.
  set (h := _tlHead p) in *. set (t := _tlTail p) in *.
  set (rec := tele_record (fst r) (snd r)).
  pose proof (length_tele_contents p) as LC. unfold tele_count in LC. fold h t in LC.
  destruct ((h + 1) mod TELE_CAP =? t) eqn:E.
  - (* the ring is full: the oldest record is dropped *)
    apply Z.eqb_eq in E.
    split.
    { split; [|split].
      - change (length (<[Z.to_nat h := rec]> (_tele p)) = Z.to_nat TELE_CAP).
        rewrite length_insert. exact WL.
      - change (0 <= (h + 1) mod TELE_CAP < TELE_CAP). unfold TELE_CAP. lia.
      - change (0 <= (t + 1) mod TELE_CAP < TELE_CAP). unfold TELE_CAP. lia. }
    unfold tele_contents at 1. unfold tele_count.
    change (map ?f (seq 0 (Z.to_nat ?n)))
      with (map (fun i => <[Z.to_nat h := rec]> (_tele p)
                            !!! Z.to_nat (((t + 1) mod TELE_CAP + Z.of_nat i) mod TELE_CAP))
              (seq 0 (Z.to_nat (((h + 1) mod TELE_CAP - (t + 1) mod TELE_CAP) mod TELE_CAP)))).
    assert (N : Z.to_nat (((h + 1) mod TELE_CAP - (t + 1) mod TELE_CAP) mod TELE_CAP)
                = S 254) by (unfold TELE_CAP in *; lia).
    assert (N0 : Z.to_nat ((h - t) mod TELE_CAP) = S 254)
      by (unfold TELE_CAP in *; lia).
    rewrite N, List.seq_S, List.map_app. cbn [map Nat.add].
    unfold lastn. rewrite length_app, LC, N0. cbn [length].
    replace (255 + 1 - 255)%nat with 1%nat by lia.
    rewrite drop_app_le by (rewrite LC, N0; lia). f_equal.
    + unfold tele_contents, tele_count. fold h t. rewrite N0.
      change (seq 0 (S 254)) with (0%nat :: seq 1 254). cbn [map].
      change (drop 1 (?x :: ?l)) with l.
      rewrite <- List.seq_shift, List.map_map. apply List.map_ext_in.
      intros i Hi. apply List.in_seq in Hi.
      rewrite list_lookup_total_insert_ne by (unfold TELE_CAP in *; lia).
      f_equal. unfold TELE_CAP in *. lia.
    + f_equal.
      replace (Z.to_nat (((t + 1) mod TELE_CAP + Z.of_nat 254) mod TELE_CAP))
        with (Z.to_nat h) by (unfold TELE_CAP in *; lia).
      apply list_lookup_total_insert_eq. rewrite WL. unfold TELE_CAP in *. lia.
  - (* room is left: the record is appended *)
    apply Z.eqb_neq in E.
    split.
    { split; [|split].
      - change (length (<[Z.to_nat h := rec]> (_tele p)) = Z.to_nat TELE_CAP).
        rewrite length_insert. exact WL.
      - change (0 <= (h + 1) mod TELE_CAP < TELE_CAP). unfold TELE_CAP. lia.
      - exact WT. }
    unfold tele_contents at 1. unfold tele_count.
    change (map ?f (seq 0 (Z.to_nat ?n)))
      with (map (fun i => <[Z.to_nat h := rec]> (_tele p)
                            !!! Z.to_nat ((t + Z.of_nat i) mod TELE_CAP))
              (seq 0 (Z.to_nat (((h + 1) mod TELE_CAP - t) mod TELE_CAP)))).
    assert (N : Z.to_nat (((h + 1) mod TELE_CAP - t) mod TELE_CAP)
                = S (Z.to_nat ((h - t) mod TELE_CAP)))
      by (unfold TELE_CAP in *; lia).
    assert (B : (Z.to_nat ((h - t) mod TELE_CAP) < 255)%nat)
      by (unfold TELE_CAP in *; lia).
    rewrite N, List.seq_S, List.map_app. cbn [map Nat.add].
    rewrite lastn_short by (rewrite length_app, LC; cbn [length]; lia).
    f_equal.
    + unfold tele_contents, tele_count. fold h t.
      apply List.map_ext_in. intros i Hi. apply List.in_seq in Hi.
      rewrite list_lookup_total_insert_ne by (unfold TELE_CAP in *; lia).
      reflexivity.
    + f_equal.
      replace (Z.to_nat ((t + Z.of_nat (Z.to_nat ((h - t) mod TELE_CAP))) mod TELE_CAP))
        with (Z.to_nat h) by (unfold TELE_CAP in *; lia).
      apply list_lookup_total_insert_eq. rewrite WL. unfold TELE_CAP in *. lia.
Qed.

Lemma pushes_contents rs : forall p,
  tele_wf p ->
  tele_wf (foldl push_status p rs)
  /\ tele_contents (foldl push_status p rs)
     = lastn 255 (tele_contents p
                  ++ map (fun r => tele_record (fst r) (snd r)) rs).
Proof.
  induction rs as [|r rs IH]; intros p W; cbn [foldl map].
  - split; [exact W|]. rewrite app_nil_r. symmetry. apply lastn_short.
    rewrite length_tele_contents.
    pose proof (tele_count_bound p W) as B. unfold TELE_CAP in B.
    destruct W as (_ & WH & WT). unfold tele_count, TELE_CAP in *. lia.
  - destruct (push_status_contents p r W) as [W' C].
    destruct (IH _ W') as [W'' C'].
    split; [exact W''|]. rewrite C', C, lastn_app_lastn, <- app_assoc. reflexivity.
Qed.

(** C3, as the code has it.  The ring keeps one slot free: from an empty
    ring, after any number of pushes the records [popTelemetry] hands out
    are the last 255 pushed (all of them when fewer were pushed), in push
    order.  After [TELE_CAP + 1] pushes these are 255 records, the two
    oldest being discarded.  On an empty ring [popTelemetry] returns false
    and leaves the caller's record and the pipeline as they are. *)
Theorem telemetry_ring_keeps_last_255 p rs out :
  tele_wf p -> _tlHead p = _tlTail p ->
  popTelemetry p out = (false, out, p)
  /\ drain (Z.to_nat TELE_CAP) (foldl push_status p rs)
     = lastn 255 (map (fun r => tele_record (fst r) (snd r)) rs)
  /\ (length rs = Z.to_nat (TELE_CAP + 1) ->
      drain (Z.to_nat TELE_CAP) (foldl push_status p rs)
      = drop 2 (map (fun r => tele_record (fst r) (snd r)) rs)
      /\ length (drain (Z.to_nat TELE_CAP) (foldl push_status p rs)) = 255%nat).
Proof.
  intros W E.
  split; [apply popTelemetry_empty; exact E|].
  destruct (pushes_contents rs p W) as [W' C].
  assert (Z0 : tele_contents p = []).
  { pose proof (length_tele_contents p) as L.
    apply (tele_count_zero p W) in E. rewrite E in L.
    destruct (tele_contents p); [reflexivity | cbn [length] in L; lia]. }
  rewrite Z0, app_nil_l in C.
  assert (D : drain (Z.to_nat TELE_CAP) (foldl push_status p rs)
              = lastn 255 (map (fun r => tele_record (fst r) (snd r)) rs)).
  { rewrite <- C. apply drain_contents; [exact W'|].
    pose proof (tele_count_bound _ W') as B. lia. }
  split; [exact D|].
  intros L. rewrite D. unfold lastn. rewrite List.length_map, L.
  change (Z.to_nat (TELE_CAP + 1) - 255)%nat with 2%nat.
  split; [reflexivity|].
  rewrite length_drop, List.length_map, L. reflexivity.
Qed.

Lemma telemetry_ring_keeps_last_255_witness :
  popTelemetry initial Telemetry.zero = (false, Telemetry.zero, initial)
  /\ drain (Z.to_nat TELE_CAP) (foldl push_status initial (stamped 257))
     = drop 2 (map (fun r => tele_record (fst r) (snd r)) (stamped 257)).
Proof.
  destruct (telemetry_ring_keeps_last_255 initial (stamped 257) Telemetry.zero)
    as (H1 & _ & H3).
  - split; [vm_compute; reflexivity|]. unfold TELE_CAP. cbn. lia.
  - reflexivity.
  - split; [exact H1|]. apply H3. vm_compute. reflexivity.
Defined.

(** C3 as the specification states it fails: after [TELE_CAP + 1 = 257]
    pushes into an empty ring, 255 records (not 256) can be popped; they
    are the pushes 3 to 257, so the two oldest are discarded. *)
Lemma telemetry_ring_holds_one_less :
  _tlHead initial = _tlTail initial
  /\ map Telemetry.tsMs
       (drain 300 (foldl push_status initial (stamped (Z.to_nat (TELE_CAP + 1)))))
     = map Z.of_nat (seq 3 255)
  /\ length (drain 300 (foldl push_status initial (stamped (Z.to_nat (TELE_CAP + 1)))))
     = 255%nat.
Proof. vm_compute. repeat split; reflexivity. Qed.
(** ** The exchange sort of [robustBpm] *)

Lemma flt_irrefl x : flt x x = false.
Proof.
  unfold flt, SFltb, SFcompare.
  destruct x as [s|s| |s m e]; try destruct s; try reflexivity;
    rewrite Z.compare_refl, Pos.compare_cont_refl; reflexivity.
Qed.

Lemma flt_trans x y z : flt x y = true -> flt y z = true -> flt x z = true.
Proof.
  unfold flt, SFltb, SFcompare.
  destruct x as [sx|sx| |sx mx ex], y as [sy|sy| |sy my ey], z as [sz|sz| |sz mz ez];
    try destruct sx; try destruct sy; try destruct sz; try congruence;
    repeat match goal with
    | |- context [Z.compare ?a ?b] => destruct (Z.compare_spec a b)
    | |- context [Pos.compare_cont Eq ?a ?b] =>
        change (Pos.compare_cont Eq a b) with (Pos.compare a b);
        destruct (Pos.compare_spec a b)
    end; cbn [CompOpp]; try congruence; try lia.
Qed.

Lemma flt_asym x y : flt x y = true -> flt y x = false.
Proof.
  intros H. destruct (flt y x) eqn:E; [|reflexivity].
  pose proof (flt_trans _ _ _ H E) as T. rewrite flt_irrefl in T. discriminate.
Qed.

Lemma foldl_seq_invariant {A} (f : A -> nat -> A) (Inv : nat -> A -> Prop) len :
  forall start a,
  Inv start a ->
  (forall k x, (start <= k < start + len)%nat -> Inv k x -> Inv (S k) (f x k)) ->
  Inv (start + len)%nat (foldl f a (seq start len)).
Proof.
  induction len as [|len IH]; intros start a H0 Hs; cbn [seq foldl].
  - rewrite Nat.add_0_r. exact H0.
  - replace (start + S len)%nat with (S start + len)%nat by lia.
    apply IH.
    + apply Hs; [lia | exact H0].
    + intros k x Hk. apply Hs. lia.
Qed.

Lemma swap_Permutation (l : list float32) i j :
  (i < j < length l)%nat ->
  Permutation (<[j := l !!! i]> (<[i := l !!! j]> l)) l.
Proof.
  intros [Hij Hj].
  assert (Hi : (i < length l)%nat) by lia.
  destruct (lookup_lt_is_Some_2 l i Hi) as [x Hx].
  destruct (lookup_lt_is_Some_2 l j Hj) as [y Hy].
  rewrite (list_lookup_total_correct l i x Hx), (list_lookup_total_correct l j y Hy).
  pose proof (take_drop_middle l i x Hx) as D1.
  assert (Hy' : drop (S i) l !! (j - S i)%nat = Some y).
  { rewrite lookup_drop. replace (S i + (j - S i))%nat with j by lia. exact Hy. }
  pose proof (take_drop_middle _ _ _ Hy') as D2.
  rewrite <- D1 at 2. rewrite <- D2.
  rewrite (insert_take_drop l i y Hi).
  rewrite insert_app_r_alt by (rewrite length_take; lia).
  rewrite length_take. replace (j - Nat.min i (length l))%nat with (S (j - S i)) by lia.
  change (<[S (j - S i) := x]> (y :: drop (S i) l))
    with (y :: <[(j - S i)%nat := x]> (drop (S i) l)).
  rewrite (insert_take_drop (drop (S i) l) (j - S i)%nat x)
    by (rewrite length_drop; lia).
  apply Permutation_app_head.
  set (m := take (j - S i) (drop (S i) l)).
  set (r := drop (S (j - S i)) (drop (S i) l)).
  transitivity (y :: x :: m ++ r).
  - apply perm_skip. symmetry. apply Permutation_middle.
  - transitivity (x :: y :: m ++ r); [apply perm_swap|].
    apply perm_skip. apply Permutation_middle.
Qed.

Lemma swap_if_less_length i tmp j : length (swap_if_less i tmp j) = length tmp.
Proof.
  unfold swap_if_less. destruct (flt _ _); [|reflexivity].
  rewrite !length_insert. reflexivity.
Qed.

Lemma swap_if_less_Permutation i tmp j :
  (i < j < length tmp)%nat -> Permutation (swap_if_less i tmp j) tmp.
Proof.
  intros H. unfold swap_if_less. destruct (flt _ _); [|reflexivity].
  apply swap_Permutation. exact H.
Qed.

Lemma swap_lookup (t : list float32) i j k :
  (i < length t)%nat -> (j < length t)%nat -> i <> j ->
  <[j := t !!! i]> (<[i := t !!! j]> t) !!! k
  = if decide (k = j) then t !!! i else if decide (k = i) then t !!! j else t !!! k.
Proof.
  intros Hi Hj Hij. destruct (decide (k = j)) as [-> | Nj].
  - apply list_lookup_total_insert_eq. rewrite length_insert. exact Hj.
  - rewrite list_lookup_total_insert_ne by congruence.
    destruct (decide (k = i)) as [-> | Ni].
    + apply list_lookup_total_insert_eq. exact Hi.
    + apply list_lookup_total_insert_ne. congruence.
Qed.

(** One step of the inner loop keeps what the outer loop has sorted and
    extends the stretch that [tmp[i]] is known not to be above. *)
Lemma swap_if_less_step n i j t :
  length t = n -> (i < j < n)%nat ->
  sorted_upto n i t ->
  (forall k, (i < k < j)%nat -> not_above (t !!! i) (t !!! k)) ->
  sorted_upto n i (swap_if_less i t j)
  /\ (forall k, (i < k < S j)%nat ->
        not_above (swap_if_less i t j !!! i) (swap_if_less i t j !!! k)).
Proof.
  intros L Hij S0 S1. unfold swap_if_less.
  destruct (flt (t !!! j) (t !!! i)) eqn:E.
  - assert (W : forall k, <[j := t !!! i]> (<[i := t !!! j]> t) !!! k
                = if decide (k = j) then t !!! i
                  else if decide (k = i) then t !!! j else t !!! k).
    { intros k. apply swap_lookup; lia. }
    split.
    + intros a b Ha Hb. rewrite !W.
      destruct (decide (a = j)); [lia|]. destruct (decide (a = i)); [lia|].
      destruct (decide (b = j)); [apply S0; lia|].
      destruct (decide (b = i)); apply S0; lia.
    + intros k Hk. rewrite !W.
      destruct (decide (i = j)); [lia|]. destruct (decide (i = i)); [|congruence].
      destruct (decide (k = j)).
      * unfold not_above. apply flt_asym. exact E.
      * destruct (decide (k = i)); [lia|].
        unfold not_above. destruct (flt (t !!! k) (t !!! j)) eqn:F; [|reflexivity].
        pose proof (flt_trans _ _ _ F E) as T.
        assert (Hk' : (i < k < j)%nat) by lia.
        specialize (S1 k Hk'). unfold not_above in S1. congruence.
  - split; [exact S0|].
    intros k Hk. destruct (decide (k = j)) as [-> | N]; [exact E | apply S1; lia].
Qed.

Lemma sort_pass_spec n i t :
  length t = n -> (i < n)%nat -> sorted_upto n i t ->
  length (sort_pass n t i) = n
  /\ Permutation (sort_pass n t i) t
  /\ sorted_upto n (S i) (sort_pass n t i).
Proof.
  intros L Hi S0. unfold sort_pass.
  pose (Inv := fun (j : nat) (x : list float32) =>
          length x = n /\ Permutation x t /\ sorted_upto n i x
          /\ forall k, (i < k < j)%nat -> not_above (x !!! i) (x !!! k)).
  assert (H : Inv (S i + (n - S i))%nat
                (foldl (swap_if_less i) t (seq (S i) (n - S i)))).
  { apply (foldl_seq_invariant (swap_if_less i) Inv).
    - repeat split; auto. intros k Hk. lia.
    - intros j x Hj (Lx & Px & Sx & Mx).
      destruct (swap_if_less_step n i j x Lx) as [S' M']; [lia | exact Sx | exact Mx |].
      split; [rewrite swap_if_less_length; exact Lx|].
      split; [|split; [exact S' | exact M']].
      rewrite swap_if_less_Permutation by lia. exact Px. }
  destruct H as (Lx & Px & Sx & Mx).
  split; [exact Lx|]. split; [exact Px|].
  intros a b Ha Hb. destruct (decide (a = i)) as [-> | N].
  - apply Mx. lia.
  - apply Sx; lia.
Qed.

Lemma exchange_sort_spec n t :
  length t = n ->
  length (exchange_sort n t) = n
  /\ Permutation (exchange_sort n t) t
  /\ sorted_upto n n (exchange_sort n t).
Proof.
  intros L. unfold exchange_sort.
  pose (Inv := fun (i : nat) (x : list float32) =>
          length x = n /\ Permutation x t /\ sorted_upto n i x).
  apply (foldl_seq_invariant (sort_pass n) Inv n 0%nat t).
  - repeat split; auto. intros a b Ha. lia.
  - intros i x Hi (Lx & Px & Sx).
    destruct (sort_pass_spec n i x Lx) as (L' & P' & S'); [lia | exact Sx |].
    split; [exact L'|]. split; [|exact S'].
    rewrite P'. exact Px.
Qed.

Lemma sorted_upto_StronglySorted t :
  sorted_upto (length t) (length t) t -> StronglySorted not_above t.
Proof.
  induction t as [|x t IH]; intros S0; [constructor|].
  constructor.
  - apply IH. intros a b Ha Hb.
    apply (S0 (S a) (S b)); cbn [length]; lia.
  - apply List.Forall_forall. intros y Hy.
    apply list_elem_of_In, list_elem_of_lookup in Hy. destruct Hy as [b Hb].
    pose proof (lookup_lt_Some _ _ _ Hb) as Lb.
    specialize (S0 0%nat (S b)). cbn [length] in S0.
    change ((x :: t) !!! 0%nat) with x in S0.
    change ((x :: t) !!! S b) with (t !!! b) in S0.
    rewrite (list_lookup_total_correct t b y Hb) in S0. apply S0; lia.
Qed.

(** The array [robustBpm] takes its median from is the ring's content,
    permuted so that no slot is above a later one. *)
Lemma exchange_sort_sorted t :
  length (exchange_sort (length t) t) = length t
  /\ Permutation (exchange_sort (length t) t) t
  /\ StronglySorted not_above (exchange_sort (length t) t).
Proof.
  destruct (exchange_sort_spec (length t) t eq_refl) as (L & P & S0).
  split; [exact L|]. split; [exact P|].
  apply sorted_upto_StronglySorted. rewrite L. exact S0.
Qed.
(** ** The peak detector and the published rate *)

Lemma robustBpm_ext p q :
  _rrFill p = _rrFill q -> _rrBuf p = _rrBuf q -> robustBpm p = robustBpm q.
Proof. unfold robustBpm. intros -> ->. reflexivity. Qed.

Lemma rate_inv_ext p q : rate_state p = rate_state q -> rate_inv p -> rate_inv q.
Proof.
  unfold rate_state, rate_inv. intros H (L & F & B).
  injection H as H1 H2 H3 H4.
  rewrite <- H1, <- H3, <- H4, <- (robustBpm_ext p q H3 H1). auto.
Qed.

(** [robustBpm] returns the middle of the sorted copy of the ring. *)
Lemma robustBpm_middle p :
  (Z.to_nat (_rrFill p) <= length (_rrBuf p))%nat -> 0 <= _rrFill p ->
  robustBpm p
  = middle (exchange_sort (Z.to_nat (_rrFill p))
              (take (Z.to_nat (_rrFill p)) (_rrBuf p))).
Proof.
  intros L F. unfold robustBpm, middle. cbv zeta.
  assert (LT : length (take (Z.to_nat (_rrFill p)) (_rrBuf p)) = Z.to_nat (_rrFill p)).
  { rewrite length_take. lia. }
  destruct (exchange_sort_spec _ _ LT) as (LS & _).
  rewrite LS, Z2Nat.id by exact F. reflexivity.
Qed.

(** When the peak is a first peak, is implausibly spaced or is not
    accepted, the ring and the rate stay as they are. *)
Lemma peakDetectAndRR_rate_unchanged p C nowMs :
  ChannelState.lastPeakMs C = 0 \/ plausible (ibiSec C nowMs) = false
  \/ peak_accepted p C nowMs = false ->
  rate_state (fst (peakDetectAndRR p C nowMs)) = rate_state p.
Proof.
  unfold peakDetectAndRR, peak_accepted, plausible, ibiSec. cbv zeta.
  change (lastEventMs (set_prevAbove ?v p)) with (lastEventMs p).
  change (_cfg (set_prevAbove ?v p)) with (_cfg p).
  set (above := fge _ _).
  intros H.
  destruct (above && negb (prevAbove p)); [|reflexivity].
  destruct (wrap32 (nowMs - ChannelState.lastPeakMs C) >=? _); [|reflexivity].
  destruct (wrap32 (nowMs - lastEventMs p) >=? _); [|reflexivity].
  cbn [andb].
  destruct (ChannelState.lastPeakMs C =? 0) eqn:E0; [reflexivity|].
  cbn [negb].
  destruct (fgt _ _ && flt _ _) eqn:EP; [|reflexivity].
  destruct H as [H | [H | H]].
  - apply Z.eqb_neq in E0. contradiction.
  - discriminate.
  - discriminate.
Qed.

(** An accepted peak that is not the first and is plausibly spaced pushes
    its rate into the ring and publishes the median. *)
Lemma peakDetectAndRR_rate_pushed p C nowMs :
  peak_accepted p C nowMs = true ->
  ChannelState.lastPeakMs C <> 0 ->
  plausible (ibiSec C nowMs) = true ->
  let q := fst (peakDetectAndRR p C nowMs) in
  _rrBuf q = <[Z.to_nat (_rrIdx p) := fdiv (Z2F 60) (ibiSec C nowMs)]> (_rrBuf p)
  /\ _rrIdx q = wrap8 ((_rrIdx p + 1) mod RR_WIN)
  /\ _rrFill q = (if _rrFill p <? RR_WIN then wrap8 (_rrFill p + 1) else _rrFill p)
  /\ Status.bpm (_stat q) = robustBpm q.
Proof.
  unfold peakDetectAndRR, peak_accepted, plausible, ibiSec. cbv zeta.
  change (lastEventMs (set_prevAbove ?v p)) with (lastEventMs p).
  change (_cfg (set_prevAbove ?v p)) with (_cfg p).
  set (above := fge _ _).
  intros A N P.
  apply andb_true_iff in A. destruct A as [A A3].
  apply andb_true_iff in A. destruct A as [A1 A2].
  rewrite A1, A2, A3. cbn [andb].
  apply Z.eqb_neq in N. rewrite N. cbn [negb]. rewrite P.
  change (_rrFill (set_rrIdx ?a (set_rrBuf ?b (set_prevAbove ?c p))))
    with (_rrFill p).
  destruct (_rrFill p <? RR_WIN); repeat split; reflexivity.
Qed.

(** An accepted peak seeds the timing; a rejected one leaves the channel. *)
Lemma peakDetectAndRR_lastPeakMs p C nowMs :
  ChannelState.lastPeakMs (snd (peakDetectAndRR p C nowMs))
  = if peak_accepted p C nowMs then nowMs else ChannelState.lastPeakMs C.
Proof.
  unfold peakDetectAndRR, peak_accepted. cbv zeta.
  change (lastEventMs (set_prevAbove ?v p)) with (lastEventMs p).
  change (_cfg (set_prevAbove ?v p)) with (_cfg p).
  set (above := fge _ _).
  destruct (above && negb (prevAbove p)); [|reflexivity].
  destruct (wrap32 (nowMs - ChannelState.lastPeakMs C) >=? _); [|reflexivity].
  destruct (wrap32 (nowMs - lastEventMs p) >=? _); reflexivity.
Qed.

Lemma wrap8_small z : 0 <= z < 2 ^ 8 -> wrap8 z = z.
Proof. intros H. unfold wrap8. apply Z.mod_small. exact H. Qed.

Lemma peakDetectAndRR_rate_inv p C nowMs :
  rate_inv p -> rate_inv (fst (peakDetectAndRR p C nowMs)).
Proof.
  intros I.
  destruct (peak_accepted p C nowMs) eqn:A;
    [|apply (rate_inv_ext p); [symmetry; apply peakDetectAndRR_rate_unchanged; auto | exact I]].
  destruct (Z.eq_dec (ChannelState.lastPeakMs C) 0) as [E | N];
    [apply (rate_inv_ext p); [symmetry; apply peakDetectAndRR_rate_unchanged; auto | exact I]|].
  destruct (plausible (ibiSec C nowMs)) eqn:P;
    [|apply (rate_inv_ext p); [symmetry; apply peakDetectAndRR_rate_unchanged; auto | exact I]].
  destruct (peakDetectAndRR_rate_pushed p C nowMs A N P) as (B & _ & F & M).
  destruct I as (L & R & _). unfold rate_inv.
  rewrite B, F, length_insert. split; [exact L|]. split; [|exact M].
  unfold RR_WIN in *. destruct (_rrFill p <? 6) eqn:E.
  - apply Z.ltb_lt in E. rewrite wrap8_small by lia. lia.
  - lia.
Qed.

Lemma detectPeak_rate u a nowMs q :
  rate_state (detectPeak u a nowMs q)
  = if a then rate_state q
    else rate_state (fst (peakDetectAndRR q (getP u q) nowMs)).
Proof.
  unfold detectPeak. destruct a; [reflexivity|]. cbn [negb]. cbv zeta.
  set (r := peakDetectAndRR q (getP u q) nowMs). clearbody r.
  unfold setP. destruct u; reflexivity.
Qed.

Lemma detectPeak_lastPeakMs u a nowMs q :
  ChannelState.lastPeakMs (getP u (detectPeak u a nowMs q))
  = (if negb a && peak_accepted q (getP u q) nowMs then nowMs
     else ChannelState.lastPeakMs (getP u q))
  /\ ChannelState.lastPeakMs (getP (negb u) (detectPeak u a nowMs q))
     = ChannelState.lastPeakMs (getP (negb u) q).
Proof.
  unfold detectPeak. destruct a; [split; reflexivity|]. cbn [negb andb]. cbv zeta.
  rewrite <- peakDetectAndRR_lastPeakMs.
  destruct (peakDetectAndRR_frame q (getP u q) nowMs) as (_ & _ & _ & P4 & P5 & _).
  set (r := peakDetectAndRR q (getP u q) nowMs) in *. clearbody r.
  unfold setP, getP. destruct u; cbn [negb]; split;
    first [ reflexivity | rewrite <- P4; reflexivity | rewrite <- P5; reflexivity ].
Qed.

Lemma ibiSec_ext C C' nowMs :
  ChannelState.lastPeakMs C = ChannelState.lastPeakMs C' ->
  ibiSec C nowMs = ibiSec C' nowMs.
Proof. unfold ibiSec. intros ->. reflexivity. Qed.

Lemma tick_crossed_lastPeakMs p io u :
  ChannelState.lastPeakMs (getP u (tick_crossed p io))
  = ChannelState.lastPeakMs (getP u p).
Proof.
  destruct (tick_crossed_channels p io) as (_ & _ & E1 & E2 & _).
  unfold getP. destruct u; assumption.
Qed.

(** The ring and the rate after one call of [tick]. *)
Lemma tick_rate_state p io :
  rate_state (fst (tick p io))
  = if tick_due p io && negb (tick_artifact p io)
    then rate_state (fst (peakDetectAndRR (tick_crossed p io)
                            (getP (tick_useCh2 p) (tick_crossed p io)) (millis io)))
    else rate_state p.
Proof.
  destruct (tick_due p io) eqn:D; cbn [andb].
  - destruct (tick_frame p io D) as (_ & _ & _ & _ & _ & -> & _).
    rewrite tick_peaked_eq, detectPeak_rate.
    destruct (tick_artifact p io); cbn [negb]; [|reflexivity].
    apply (tick_crossed_frame p io).
  - rewrite (tick_skipped p io D). reflexivity.
Qed.

Lemma tick_rate_unchanged p io :
  ChannelState.lastPeakMs (getP (tick_useCh2 p) p) = 0
  \/ plausible (ibiSec (getP (tick_useCh2 p) p) (millis io)) = false
  \/ accepts_peak p (CallTick io) = false ->
  rate_state (fst (tick p io)) = rate_state p.
Proof.
  intros H. rewrite tick_rate_state.
  destruct (tick_due p io && negb (tick_artifact p io)) eqn:E; [|reflexivity].
  rewrite peakDetectAndRR_rate_unchanged; [apply (tick_crossed_frame p io)|].
  rewrite tick_crossed_lastPeakMs.
  rewrite (ibiSec_ext _ (getP (tick_useCh2 p) p)) by apply tick_crossed_lastPeakMs.
  destruct H as [H | [H | H]]; auto.
  right. right. cbn [accepts_peak] in H. rewrite E in H. exact H.
Qed.

Lemma tick_rate_inv p io : rate_inv p -> rate_inv (fst (tick p io)).
Proof.
  intros I.
  destruct (tick_due p io && negb (tick_artifact p io)) eqn:E.
  - eapply rate_inv_ext.
    + symmetry. rewrite tick_rate_state, E. reflexivity.
    + apply peakDetectAndRR_rate_inv.
      apply (rate_inv_ext p); [|exact I].
      symmetry. apply (tick_crossed_frame p io).
  - apply (rate_inv_ext p); [|exact I]. rewrite tick_rate_state, E. reflexivity.
Qed.

Lemma call_rate_inv expf p c : rate_inv p -> rate_inv (fst (call expf p c)).
Proof.
  intros I. destruct c; cbn [call fst].
  - unfold rate_inv. split; [reflexivity|]. split; [unfold RR_WIN; cbn; lia | reflexivity].
  - apply tick_rate_inv. exact I.
  - exact I.
  - apply (rate_inv_ext p); [|exact I]. unfold popTelemetry.
    destruct (_tlHead p =? _tlTail p); reflexivity.
  - exact I.
  - exact I.
Qed.

Lemma run_rate_inv expf cs : forall p, rate_inv p -> rate_inv (fst (run expf p cs)).
Proof.
  induction cs as [|c cs IH]; intros p I; cbn [run fst]; [exact I|].
  apply IH, call_rate_inv, I.
Qed.

Lemma initial_rate_inv : rate_inv initial.
Proof. split; [reflexivity|]. split; [unfold RR_WIN; cbn; lia | reflexivity]. Qed.

Lemma tick_lastPeakMs p io :
  accepts_peak p (CallTick io) = false ->
  ChannelState.lastPeakMs (_ch1 (fst (tick p io))) = ChannelState.lastPeakMs (_ch1 p)
  /\ ChannelState.lastPeakMs (_ch2 (fst (tick p io))) = ChannelState.lastPeakMs (_ch2 p).
Proof.
  cbn [accepts_peak]. intros A.
  destruct (tick_due p io) eqn:D.
  - destruct (tick_frame p io D) as (_ & _ & _ & _ & _ & _ & _ & -> & ->).
    rewrite tick_peaked_eq.
    destruct (detectPeak_lastPeakMs (tick_useCh2 p) (tick_artifact p io) (millis io)
                (tick_crossed p io)) as [E1 E2].
    cbn [andb] in A. rewrite A in E1.
    rewrite tick_crossed_lastPeakMs in E1, E2.
    unfold getP in E1, E2. destruct (tick_useCh2 p); cbn [negb] in E2; auto.
  - rewrite (tick_skipped p io D). split; reflexivity.
Qed.

Lemma call_lastPeakMs expf p c :
  accepts_peak p c = false ->
  ChannelState.lastPeakMs (_ch1 (fst (call expf p c))) = ChannelState.lastPeakMs (_ch1 p)
  /\ ChannelState.lastPeakMs (_ch2 (fst (call expf p c))) = ChannelState.lastPeakMs (_ch2 p).
Proof.
  intros A. destruct c; cbn [call fst]; try (split; reflexivity).
  - apply tick_lastPeakMs. exact A.
  - unfold popTelemetry. destruct (_tlHead p =? _tlTail p); split; reflexivity.
Qed.

Lemma run_no_peak expf cs : forall p,
  accepted_peaks expf p cs = 0%nat ->
  ChannelState.lastPeakMs (_ch1 (fst (run expf p cs))) = ChannelState.lastPeakMs (_ch1 p)
  /\ ChannelState.lastPeakMs (_ch2 (fst (run expf p cs))) = ChannelState.lastPeakMs (_ch2 p).
Proof.
  induction cs as [|c cs IH]; intros p A; cbn [run fst]; [split; reflexivity|].
  cbn [accepted_peaks] in A.
  destruct (accepts_peak p c) eqn:E; [lia|]. cbn [Nat.add] in A.
  destruct (IH _ A) as [-> ->]. apply call_lastPeakMs. exact E.
Qed.

Lemma tick_accept_seeds p io :
  accepts_peak p (CallTick io) = true ->
  ChannelState.lastPeakMs (getP (tick_useCh2 p) (fst (tick p io))) = millis io.
Proof.
  cbn [accepts_peak]. intros A.
  apply andb_true_iff in A. destruct A as [A A3].
  apply andb_true_iff in A. destruct A as [D A2].
  destruct (tick_frame p io D) as (_ & _ & _ & _ & _ & _ & _ & E1 & E2).
  rewrite (getP_eq _ _ _ E1 E2), tick_peaked_eq.
  destruct (detectPeak_lastPeakMs (tick_useCh2 p) (tick_artifact p io) (millis io)
              (tick_crossed p io)) as [-> _].
  rewrite A2, A3. reflexivity.
Qed.

(** At millisecond resolution the plausibility window is 200 ms < interval
    < 10000 ms (checked for every interval up to 10 s). *)
Lemma plausible_window_ms :
  forallb (fun d => Bool.eqb (plausible (fdiv (Z2F d) (Z2F 1000)))
                             ((200 <? d) && (d <? 10000)))
          (seqZ 0 10001) = true.
Proof. vm_compute. reflexivity. Qed.

(** An accepted peak that is not the first and has a plausible interval,
    at the level of [tick]: the slot at the write index takes 60 / interval,
    the index and the count advance and the rate is published again. *)
Lemma tick_rate_pushed p io :
  accepts_peak p (CallTick io) = true ->
  ChannelState.lastPeakMs (getP (tick_useCh2 p) p) <> 0 ->
  plausible (ibiSec (getP (tick_useCh2 p) p) (millis io)) = true ->
  let q := fst (tick p io) in
  _rrBuf q
  = <[Z.to_nat (_rrIdx p) := fdiv (Z2F 60) (ibiSec (getP (tick_useCh2 p) p) (millis io))]>
      (_rrBuf p)
  /\ _rrIdx q = wrap8 ((_rrIdx p + 1) mod RR_WIN)
  /\ _rrFill q = (if _rrFill p <? RR_WIN then wrap8 (_rrFill p + 1) else _rrFill p)
  /\ Status.bpm (getStatus q) = robustBpm q.
Proof.
  intros A N P q. cbn [accepts_peak] in A.
  apply andb_true_iff in A. destruct A as [A A3].
  pose proof (tick_rate_state p io) as R. rewrite A in R. fold q in R.
  set (c := tick_crossed p io) in *.
  set (C := getP (tick_useCh2 p) c) in *.
  assert (EC : ChannelState.lastPeakMs C
               = ChannelState.lastPeakMs (getP (tick_useCh2 p) p))
    by apply tick_crossed_lastPeakMs.
  assert (N' : ChannelState.lastPeakMs C <> 0) by (rewrite EC; exact N).
  assert (P' : plausible (ibiSec C (millis io)) = true)
    by (rewrite (ibiSec_ext C (getP (tick_useCh2 p) p) (millis io) EC); exact P).
  destruct (peakDetectAndRR_rate_pushed c C (millis io) A3 N' P') as (B & I & F & M).
  set (r := fst (peakDetectAndRR c C (millis io))) in *.
  destruct (tick_crossed_frame p io) as (_ & _ & _ & RC & _). fold c in RC.
  unfold rate_state in R, RC.
  assert (R1 : _rrBuf q = _rrBuf r) by exact (f_equal (fun t => fst (fst (fst t))) R).
  assert (R2 : _rrIdx q = _rrIdx r) by exact (f_equal (fun t => snd (fst (fst t))) R).
  assert (R3 : _rrFill q = _rrFill r) by exact (f_equal (fun t => snd (fst t)) R).
  assert (R4 : Status.bpm (_stat q) = Status.bpm (_stat r)) by exact (f_equal snd R).
  assert (C1 : _rrBuf c = _rrBuf p) by exact (f_equal (fun t => fst (fst (fst t))) RC).
  assert (C2 : _rrIdx c = _rrIdx p) by exact (f_equal (fun t => snd (fst (fst t))) RC).
  assert (C3 : _rrFill c = _rrFill p) by exact (f_equal (fun t => snd (fst t)) RC).
  rewrite C1, C2 in B. rewrite C2 in I. rewrite C3 in F.
  rewrite (ibiSec_ext C (getP (tick_useCh2 p) p) (millis io) EC) in B.
  split; [rewrite R1; exact B|].
  split; [rewrite R2; exact I|].
  split; [rewrite R3; exact F|].
  unfold getStatus. rewrite R4, M. symmetry. apply robustBpm_ext; assumption.
Qed.

(** C6.
    - First peak: in a run from power-on in which no peak has been
      accepted yet, the next tick leaves the interval ring and the
      published rate as they are, also when it accepts a peak; the
      accepted peak only sets the channel's last-peak timestamp.
    - Plausibility: a tick whose inter-breath interval is not both above
      0.2 s and below 10 s leaves the ring and the rate as they are.
    - Push: a tick that accepts a peak which is not the first and whose
      interval is plausible writes 60 / interval into the ring at the
      write index, advances the write index modulo the capacity and the
      count up to the capacity, and publishes [robustBpm] of the new ring;
      the same for [peakDetectAndRR] called on any state.
    - Median: after any run from power-on the published rate is the
      middle of the ring's content sorted (no element above a later one):
      0 when the ring is empty, the middle element for an odd count, half
      the sum of the two middle elements for an even count. *)
Theorem rate_is_median_of_plausible_intervals :
  (forall expf cs io,
     accepted_peaks expf initial cs = 0%nat ->
     let q := fst (run expf initial cs) in
     rate_state (fst (tick q io)) = rate_state q
     /\ (accepts_peak q (CallTick io) = true ->
         ChannelState.lastPeakMs (getP (tick_useCh2 q) (fst (tick q io)))
         = millis io))
  /\ (forall p io,
        plausible (ibiSec (getP (tick_useCh2 p) p) (millis io)) = false ->
        rate_state (fst (tick p io)) = rate_state p)
  /\ (forall p io,
        accepts_peak p (CallTick io) = true ->
        ChannelState.lastPeakMs (getP (tick_useCh2 p) p) <> 0 ->
        plausible (ibiSec (getP (tick_useCh2 p) p) (millis io)) = true ->
        let q := fst (tick p io) in
        _rrBuf q
        = <[Z.to_nat (_rrIdx p)
            := fdiv (Z2F 60) (ibiSec (getP (tick_useCh2 p) p) (millis io))]> (_rrBuf p)
        /\ _rrIdx q = wrap8 ((_rrIdx p + 1) mod RR_WIN)
        /\ _rrFill q
           = (if _rrFill p <? RR_WIN then wrap8 (_rrFill p + 1) else _rrFill p)
        /\ Status.bpm (getStatus q) = robustBpm q)
  /\ (forall p C nowMs,
        peak_accepted p C nowMs = true ->
        ChannelState.lastPeakMs C <> 0 ->
        plausible (ibiSec C nowMs) = true ->
        let q := fst (peakDetectAndRR p C nowMs) in
        _rrBuf q = <[Z.to_nat (_rrIdx p) := fdiv (Z2F 60) (ibiSec C nowMs)]> (_rrBuf p)
        /\ _rrIdx q = wrap8 ((_rrIdx p + 1) mod RR_WIN)
        /\ _rrFill q
           = (if _rrFill p <? RR_WIN then wrap8 (_rrFill p + 1) else _rrFill p)
        /\ Status.bpm (_stat q) = robustBpm q)
  /\ (forall expf cs,
        let p := fst (run expf initial cs) in
        exists s,
          Permutation s (take (Z.to_nat (_rrFill p)) (_rrBuf p))
          /\ StronglySorted not_above s
          /\ Status.bpm (getStatus p) = middle s).
Proof.
  split; [|split; [|split; [|split]]].
  - intros expf cs io A q. split.
    + apply tick_rate_unchanged. left.
      destruct (run_no_peak expf cs initial A) as [E1 E2]. fold q in E1, E2.
      unfold getP. destruct (tick_useCh2 q); [rewrite E2 | rewrite E1]; reflexivity.
    + apply tick_accept_seeds.
  - intros p io P. apply tick_rate_unchanged. auto.
  - intros p io A N P. apply (tick_rate_pushed p io A N P).
  - intros p C nowMs A N P. apply (peakDetectAndRR_rate_pushed p C nowMs A N P).
  - intros expf cs p.
    destruct (run_rate_inv expf cs initial initial_rate_inv) as (L & F & B).
    fold p in L, F, B.
    exists (exchange_sort (Z.to_nat (_rrFill p)) (take (Z.to_nat (_rrFill p)) (_rrBuf p))).
    assert (LT : length (take (Z.to_nat (_rrFill p)) (_rrBuf p)) = Z.to_nat (_rrFill p)).
    { rewrite length_take, L. lia. }
    pose proof (exchange_sort_sorted (take (Z.to_nat (_rrFill p)) (_rrBuf p))) as S0.
    rewrite LT in S0. destruct S0 as (_ & P & S0).
    split; [exact P|]. split; [exact S0|].
    unfold getStatus. rewrite B. apply robustBpm_middle; lia.
Qed.

(** On [booted_held]: the first breath, accepted at 1000 ms, leaves ring
    and rate; after it, a second peak accepted 11 s later has an interval
    outside the window and leaves them too, while one accepted 1 s later
    puts 60 into slot 0, moves index and count to 1 and publishes 60
    breaths per minute; and the rate after the two breaths is the middle of
    the sorted ring. *)
Lemma rate_is_median_of_plausible_intervals_witness :
  (accepted_peaks expf_tiny initial power_on = 0%nat
   /\ accepts_peak (fst (run expf_tiny initial power_on)) (CallTick (sample 1000 80)) = true
   /\ rate_state (fst (tick (fst (run expf_tiny initial power_on)) (sample 1000 80)))
      = rate_state (fst (run expf_tiny initial power_on))
   /\ ChannelState.lastPeakMs
        (getP (tick_useCh2 (fst (run expf_tiny initial power_on)))
           (fst (tick (fst (run expf_tiny initial power_on)) (sample 1000 80))))
      = 1000)
  /\ (accepts_peak after_first_breath (CallTick (sample 12000 240)) = true
      /\ plausible (ibiSec (getP (tick_useCh2 after_first_breath) after_first_breath)
                      (millis (sample 12000 240))) = false
      /\ rate_state (fst (tick after_first_breath (sample 12000 240)))
         = rate_state after_first_breath)
  /\ (accepts_peak after_first_breath (CallTick (sample 2000 240)) = true
      /\ rate_state after_first_breath = (replicate 6 f0, 0, 0, f0)
      /\ _rrBuf (fst (tick after_first_breath (sample 2000 240)))
         = Z2F 60 :: replicate 5 f0
      /\ _rrIdx (fst (tick after_first_breath (sample 2000 240))) = 1
      /\ _rrFill (fst (tick after_first_breath (sample 2000 240))) = 1
      /\ Status.bpm (getStatus (fst (tick after_first_breath (sample 2000 240))))
         = Z2F 60)
  /\ (peak_accepted (tick_crossed after_first_breath (sample 2000 240))
        (getP (tick_useCh2 after_first_breath)
           (tick_crossed after_first_breath (sample 2000 240))) 2000 = true
      /\ Status.bpm
           (_stat (fst (peakDetectAndRR (tick_crossed after_first_breath (sample 2000 240))
                          (getP (tick_useCh2 after_first_breath)
                             (tick_crossed after_first_breath (sample 2000 240))) 2000)))
         = Z2F 60)
  /\ (exists s,
        Permutation s
          (take (Z.to_nat (_rrFill (fst (run expf_tiny initial (power_on ++ two_breaths)))))
             (_rrBuf (fst (run expf_tiny initial (power_on ++ two_breaths)))))
        /\ StronglySorted not_above s
        /\ Status.bpm (getStatus (fst (run expf_tiny initial (power_on ++ two_breaths))))
           = middle s).
Proof.
  destruct rate_is_median_of_plausible_intervals as (H1 & H2 & H3 & H3' & H4).
  split; [|split; [|split; [|split]]].
  - assert (A0 : accepted_peaks expf_tiny initial power_on = 0%nat)
      by (vm_compute; reflexivity).
    assert (A : accepts_peak (fst (run expf_tiny initial power_on))
                  (CallTick (sample 1000 80)) = true) by (vm_compute; reflexivity).
    destruct (H1 expf_tiny power_on (sample 1000 80) A0) as [R S].
    split; [exact A0|]. split; [exact A|]. split; [exact R|].
    rewrite (S A). reflexivity.
  - split; [vm_compute; reflexivity|].
    assert (P : plausible (ibiSec (getP (tick_useCh2 after_first_breath) after_first_breath)
                             (millis (sample 12000 240))) = false)
      by (vm_compute; reflexivity).
    split; [exact P|].
    apply (H2 after_first_breath (sample 12000 240) P).
  - assert (A : accepts_peak after_first_breath (CallTick (sample 2000 240)) = true)
      by (vm_compute; reflexivity).
    assert (N : ChannelState.lastPeakMs
                  (getP (tick_useCh2 after_first_breath) after_first_breath) <> 0)
      by (vm_compute; discriminate).
    assert (P : plausible (ibiSec (getP (tick_useCh2 after_first_breath) after_first_breath)
                             (millis (sample 2000 240))) = true)
      by (vm_compute; reflexivity).
    destruct (H3 after_first_breath (sample 2000 240) A N P) as (B & I & F & M).
    split; [exact A|]. split; [vm_compute; reflexivity|].
    split; [rewrite B; vm_compute; reflexivity|].
    split; [rewrite I; vm_compute; reflexivity|].
    split; [rewrite F; vm_compute; reflexivity|].
    rewrite M. vm_compute. reflexivity.
  - assert (A : peak_accepted (tick_crossed after_first_breath (sample 2000 240))
                  (getP (tick_useCh2 after_first_breath)
                     (tick_crossed after_first_breath (sample 2000 240))) 2000 = true)
      by (vm_compute; reflexivity).
    split; [exact A|].
    destruct (H3' _ _ 2000 A) as (_ & _ & _ & M);
      [vm_compute; discriminate | vm_compute; reflexivity |].
    rewrite M. vm_compute. reflexivity.
  - apply (H4 expf_tiny (power_on ++ two_breaths)).
Defined.

(** Two breaths one second apart publish 60 breaths per minute. *)
Example two_breaths_rate :
  accepted_peaks expf_tiny initial (power_on ++ two_breaths) = 2%nat
  /\ Status.bpm (getStatus (fst (run expf_tiny initial (power_on ++ two_breaths))))
     = Z2F 60.
Proof. vm_compute. split; reflexivity. Qed.

(** ** The smoothing coefficient *)





(** * Further properties of the code *)

(** ** The sample schedule *)

Lemma to_int32_sub_wrap a d :
  0 <= d < 2 ^ 32 ->
  to_int32 (wrap32 (a + d) - a) = if d <? 2 ^ 31 then d else d - 2 ^ 32.
Proof.
  intros H. unfold to_int32, wrap32. cbv zeta.
  replace (((a + d) mod 2 ^ 32 - a) mod 2 ^ 32) with d.
  - reflexivity.
  - rewrite Zminus_mod_idemp_l. replace (a + d - a) with d by ring.
    symmetry. apply Z.mod_small. exact H.
Qed.

Lemma tick_due_after p io d :
  0 <= d < 2 ^ 32 ->
  micros io = wrap32 (_nextSampleUs p + d) ->
  tick_due p io = (d <? 2 ^ 31).
Proof.
  intros H E. unfold tick_due. rewrite E, to_int32_sub_wrap by exact H.
  destruct (d <? 2 ^ 31) eqn:L.
  - apply Z.ltb_lt in L. destruct (d <? 0) eqn:N; [apply Z.ltb_lt in N; lia | reflexivity].
  - apply Z.ltb_ge in L.
    destruct (d - 2 ^ 32 <? 0) eqn:N; [reflexivity | apply Z.ltb_ge in N; lia].
Qed.

(** X1.  The test of [tick] survives the rollover of the microsecond clock:
    with the clock [d] microseconds past the deadline modulo 2^32, the
    tick is executed exactly when [d] is below 2^31, wherever the
    deadline and the clock stand with respect to the rollover. A tick
    that is not due leaves the pipeline as it is and delivers nothing. *)
Theorem tick_due_across_rollover p io d :
  0 <= d < 2 ^ 32 ->
  micros io = wrap32 (_nextSampleUs p + d) ->
  tick_due p io = (d <? 2 ^ 31)
  /\ (tick_due p io = false -> tick p io = (p, [])).
Proof.
  intros H E. split; [apply (tick_due_after p io d H E)|].
  apply tick_skipped.
Qed.

Lemma tick_due_across_rollover_witness :
  micros (reading 5 4295 0 0) = wrap32 (_nextSampleUs booted_late + 10)
  /\ _nextSampleUs booted_late = 2 ^ 32 - 5
  /\ tick_due booted_late (reading 5 4295 0 0) = (10 <? 2 ^ 31).
Proof.
  split; [vm_compute; reflexivity|]. split; [vm_compute; reflexivity|].
  apply (tick_due_across_rollover booted_late (reading 5 4295 0 0) 10).
  - lia.
  - vm_compute; reflexivity.
Defined.

(** X2.  An executed tick moves the deadline by one sampling period, modulo
    2^32, and leaves the period. A tick that comes a period or more late
    (and less than 2^31 microseconds late) is therefore due again at
    once: the schedule catches up, no sample period is dropped. *)
Theorem tick_catches_up p io d :
  0 <= _intervalUs p <= d -> d < 2 ^ 31 ->
  micros io = wrap32 (_nextSampleUs p + d) ->
  tick_due p io = true
  /\ sched (fst (tick p io))
     = (_intervalUs p, wrap32 (_nextSampleUs p + _intervalUs p))
  /\ tick_due (fst (tick p io)) io = true.
Proof.
  intros I L E.
  assert (D : tick_due p io = true).
  { rewrite (tick_due_after p io d) by (try exact E; lia). apply Z.ltb_lt. lia. }
  destruct (tick_store p io D) as (S & _).
  split; [exact D|]. split; [exact S|].
  rewrite (tick_due_after _ io (d - _intervalUs p)).
  - apply Z.ltb_lt. lia.
  - lia.
  - unfold sched in S. injection S as _ ->. rewrite E. unfold wrap32.
    rewrite Zplus_mod_idemp_l. f_equal. ring.
Qed.

Lemma tick_catches_up_witness :
  tick_due booted (reading 25000 25 0 0) = true
  /\ sched (fst (tick booted (reading 25000 25 0 0))) = (10000, 10000)
  /\ tick_due (fst (tick booted (reading 25000 25 0 0))) (reading 25000 25 0 0) = true.
Proof.
  apply (tick_catches_up booted (reading 25000 25 0 0) 25000).
  - vm_compute. split; discriminate.
  - lia.
  - vm_compute. reflexivity.
Defined.

(** ** Events and the published flags *)

Lemma tick_hypoActive_before p io : hypoActive (tick_peaked p io) = hypoActive p.
Proof.
  destruct (tick_peaked_frame p io) as (_ & H & _).
  apply hypo_fsm_eq in H. apply H.
Qed.

Lemma tick_hypoActive_after p io :
  tick_due p io = true ->
  hypoActive (fst (tick p io)) = hypoActive (fst (tick_hypo p io))
  /\ hypoStartMs (fst (tick p io)) = hypoStartMs (fst (tick_hypo p io)).
Proof.
  intros D. destruct (tick_frame p io D) as (_ & H & _).
  apply hypo_fsm_eq in H. exact H.
Qed.

Lemma tick_hypo_cb p io : _cb (tick_peaked p io) = _cb p.
Proof. apply control_cb. apply (tick_peaked_frame p io). Qed.

Lemma tick_apnea_cb p io : _cb (fst (tick_hypo p io)) = _cb p.
Proof. apply control_cb. apply (tick_hypo_frame p io). Qed.

(** X3.  The events of one call of [tick]: at most one hypopnea event
    followed by at most one apnea event, each stamped with the
    millisecond clock of the tick and carrying no duration. *)
Theorem tick_events_shape p io :
  exists h a,
    snd (tick p io) = h ++ a
    /\ (h = [] \/ h = [Event.mk HypopneaStart (millis io) 0]
        \/ h = [Event.mk HypopneaEnd (millis io) 0])
    /\ (a = [] \/ a = [Event.mk ApneaStart (millis io) 0]
        \/ a = [Event.mk ApneaEnd (millis io) 0]).
Proof.
  destruct (tick_due p io) eqn:D.
  - rewrite (tick_executed p io D). cbn [snd].
    exists (snd (tick_hypo p io)), (snd (tick_apnea p io)).
    split; [reflexivity|]. split.
    + rewrite tick_hypo_eq, updateHypopneaFSM_events. unfold hypopnea_transition.
      repeat case_match; auto.
    + rewrite tick_apnea_eq, updateApneaFSM_events.
      repeat case_match; auto.
  - rewrite (tick_skipped p io D). exists [], []. auto.
Qed.

Lemma filter_hypopnea_transition b a nowMs :
  List.filter is_hypopnea (hypopnea_transition b a nowMs) = hypopnea_transition b a nowMs.
Proof. unfold hypopnea_transition. destruct b, a; reflexivity. Qed.

Lemma tick_events_eq p io :
  _cb p = true ->
  snd (tick p io)
  = hypopnea_transition (hypoActive p) (hypoActive (fst (tick p io))) (millis io)
    ++ apnea_transition (apneaActive p) (apneaActive (fst (tick p io))) (millis io).
Proof.
  intros CB. destruct (tick_due p io) eqn:D.
  - destruct (tick_hypoActive_after p io D) as [-> _].
    destruct (tick_frame p io D) as (_ & _ & -> & _).
    rewrite (tick_executed p io D). cbn [snd]. f_equal.
    + rewrite tick_hypo_eq, updateHypopneaFSM_events.
      rewrite tick_hypo_cb, CB, tick_hypoActive_before. reflexivity.
    + rewrite tick_apnea_eq, updateApneaFSM_events.
      destruct (tick_hypo_frame p io) as (C & -> & _).
      rewrite (control_cb _ _ C), CB. unfold apnea_transition.
      destruct (tick_apneaNow p io), (apneaActive p); reflexivity.
  - rewrite (tick_skipped p io D). cbn [fst snd].
    unfold hypopnea_transition, apnea_transition.
    destruct (hypoActive p), (apneaActive p); reflexivity.
Qed.

(** X4.  With a callback registered, the events a call of [tick] delivers
    are exactly the transitions of the two machines, the hypopnea
    machine first: HypopneaStart or ApneaStart when a machine turns
    Active, HypopneaEnd or ApneaEnd when it turns Inactive, nothing for
    a machine that keeps its state. *)
Theorem tick_events_are_transitions p io :
  _cb p = true ->
  snd (tick p io)
  = hypopnea_transition (hypoActive p) (hypoActive (fst (tick p io))) (millis io)
    ++ apnea_transition (apneaActive p) (apneaActive (fst (tick p io))) (millis io).
Proof. apply tick_events_eq. Qed.

Lemma tick_events_are_transitions_witness :
  _cb timer_running = true
  /\ snd (tick timer_running (quiet 10010)) = [Event.mk HypopneaStart 10010 0]
  /\ snd (tick timer_running (quiet 20010))
     = [Event.mk HypopneaStart 20010 0; Event.mk ApneaStart 20010 0].
Proof.
  split; [reflexivity|]. split.
  - rewrite (tick_events_are_transitions timer_running (quiet 10010)).
    + vm_compute. reflexivity.
    + vm_compute. reflexivity.
  - rewrite (tick_events_are_transitions timer_running (quiet 20010)).
    + vm_compute. reflexivity.
    + vm_compute. reflexivity.
Defined.

Lemma transitions_balance hb ha ab aa ms :
  let evs := hypopnea_transition hb ha ms ++ apnea_transition ab aa ms in
  Z.of_nat (count_type HypopneaStart evs) - Z.of_nat (count_type HypopneaEnd evs)
  = Z.b2z ha - Z.b2z hb
  /\ Z.of_nat (count_type ApneaStart evs) - Z.of_nat (count_type ApneaEnd evs)
     = Z.b2z aa - Z.b2z ab.
Proof. destruct hb, ha, ab, aa; split; reflexivity. Qed.

(** X5.  Starts and ends balance against the state: along any run of ticks
    with a callback registered, the number of HypopneaStart events
    delivered minus the number of HypopneaEnd events is 1 when the
    hypopnea machine has turned Active over the run, -1 when it has
    turned Inactive and 0 when it ends in the state it started in; the
    same holds of ApneaStart, ApneaEnd and the apnea machine. So the
    events of each machine alternate, and no start goes without its end. *)
Theorem events_balance_state p ios :
  _cb p = true ->
  let q := fst (ticks p ios) in
  let evs := snd (ticks p ios) in
  Z.of_nat (count_type HypopneaStart evs) - Z.of_nat (count_type HypopneaEnd evs)
  = Z.b2z (hypoActive q) - Z.b2z (hypoActive p)
  /\ Z.of_nat (count_type ApneaStart evs) - Z.of_nat (count_type ApneaEnd evs)
     = Z.b2z (apneaActive q) - Z.b2z (apneaActive p).
Proof.
  cbv zeta. revert p. induction ios as [|io ios IH]; intros p CB; cbn [ticks fst snd].
  - cbn. lia.
  - assert (CB' : _cb (fst (tick p io)) = true)
      by (rewrite (control_cb _ _ (tick_control p io)); exact CB).
    destruct (IH _ CB') as [H A].
    rewrite !count_type_app, (tick_events_eq p io CB).
    destruct (transitions_balance (hypoActive p) (hypoActive (fst (tick p io)))
                (apneaActive p) (apneaActive (fst (tick p io))) (millis io)) as [H0 A0].
    lia.
Qed.

Lemma events_balance_state_witness :
  let evs := snd (ticks timer_running [quiet 10010; quiet 20010; railed 20020]) in
  Z.of_nat (count_type HypopneaStart evs) - Z.of_nat (count_type HypopneaEnd evs) = 0
  /\ Z.of_nat (count_type ApneaStart evs) - Z.of_nat (count_type ApneaEnd evs) = 1.
Proof.
  cbv zeta.
  destruct (events_balance_state timer_running [quiet 10010; quiet 20010; railed 20020])
    as [H A]; [reflexivity|].
  split; [rewrite H | rewrite A]; vm_compute; reflexivity.
Defined.

Lemma hypopneaMinMs_control p q :
  control p = control q -> hypopneaMinMs p = hypopneaMinMs q.
Proof. unfold control, hypopneaMinMs. intros H. injection H as -> _. reflexivity. Qed.

(** X6.  The hypopnea machine turns Active only on an executed tick with no
    artifact on which the last envelope peak is below the configured
    fraction of the baseline, and only once the timer, started on the
    first such tick (a start value of 0 counts as not started), has run
    for the configured minimum; once Active it stays so on an executed
    tick exactly when that condition still holds. *)
Theorem hypopnea_starts_after_min_duration p io :
  (hypoActive p = false -> hypoActive (fst (tick p io)) = true ->
   tick_due p io = true /\ tick_artifact p io = false /\ tick_hypoNow p io = true
   /\ hypoStartMs (fst (tick p io))
      = (if hypoStartMs p =? 0 then millis io else hypoStartMs p)
   /\ hypopneaMinMs p <= wrap32 (millis io - hypoStartMs (fst (tick p io))))
  /\ (hypoActive p = true -> tick_due p io = true ->
      hypoActive (fst (tick p io)) = tick_hypoNow p io).
Proof.
  split.
  - intros I A. destruct (tick_due p io) eqn:D.
    2:{ rewrite (tick_skipped p io D) in A. cbn [fst] in A. congruence. }
    destruct (tick_hypoActive_after p io D) as [EA ES]. rewrite EA in A. rewrite ES.
    rewrite tick_hypo_eq in A |- *.
    rewrite <- tick_hypoActive_before with (io := io) in I.
    destruct (updateHypopneaFSM_start _ _ _ I A) as (N & S & M).
    split; [reflexivity|].
    assert (AF : tick_artifact p io = false).
    { destruct (tick_artifact p io) eqn:AF; [|reflexivity].
      rewrite (tick_artifact_hypoNow p io AF) in N. discriminate. }
    split; [exact AF|]. split; [exact N|].
    destruct (tick_peaked_frame p io) as (C & H & _).
    apply hypo_fsm_eq in H. destruct H as [_ HS].
    rewrite HS in S. rewrite (hypopneaMinMs_control _ _ C) in M.
    split; [exact S | exact M].
  - intros A D. destruct (tick_hypoActive_after p io D) as [-> _].
    rewrite tick_hypo_eq. apply updateHypopneaFSM_stays.
    rewrite tick_hypoActive_before. exact A.
Qed.

Lemma hypopnea_starts_after_min_duration_witness :
  hypoActive timer_running = false
  /\ hypoActive (fst (tick timer_running (quiet 10010))) = true
  /\ hypoStartMs (fst (tick timer_running (quiet 10010))) = 10
  /\ hypopneaMinMs timer_running <= wrap32 (10010 - 10).
Proof.
  destruct (hypopnea_starts_after_min_duration timer_running (quiet 10010)) as [H _].
  destruct H as (_ & _ & _ & S & M); [vm_compute; reflexivity ..|].
  split; [vm_compute; reflexivity|]. split; [vm_compute; reflexivity|].
  split; [exact S|]. rewrite S in M. exact M.
Defined.

Lemma call_cb expf p c :
  _cb (fst (call expf p c)) = (if c is CallSetEventCallback cb then cb else _cb p).
Proof.
  destruct c; cbn [call fst]; try reflexivity.
  - apply control_cb, tick_control.
  - unfold popTelemetry. destruct (_tlHead p =? _tlTail p); reflexivity.
Qed.

Lemma tick_silent p io : _cb p = false -> snd (tick p io) = [].
Proof.
  intros CB. destruct (tick_due p io) eqn:D.
  - rewrite (tick_executed p io D). cbn [snd].
    rewrite tick_hypo_eq, updateHypopneaFSM_events, tick_hypo_cb, CB.
    rewrite tick_apnea_eq, updateApneaFSM_events, tick_apnea_cb, CB. reflexivity.
  - rewrite (tick_skipped p io D). reflexivity.
Qed.

(** X7.  While no callback is registered nothing is delivered: a run of
    calls that starts without a callback and registers none delivers no
    event, whatever the two machines do meanwhile. *)
Theorem no_callback_no_events expf cs : forall p,
  _cb p = false ->
  forallb (fun c => negb (registers c)) cs = true ->
  snd (run expf p cs) = [] /\ _cb (fst (run expf p cs)) = false.
Proof.
  induction cs as [|c cs IH]; intros p CB F; cbn [run fst snd]; [auto|].
  cbn [forallb] in F. apply andb_true_iff in F. destruct F as [R F].
  assert (CB' : _cb (fst (call expf p c)) = false).
  { rewrite call_cb. destruct c; try exact CB.
    cbn [registers] in R. destruct cb; [discriminate | reflexivity]. }
  destruct (IH _ CB' F) as [-> ->]. split; [|reflexivity].
  rewrite app_nil_r. destruct c; try reflexivity.
  cbn [call]. apply tick_silent, CB.
Qed.

Lemma no_callback_no_events_witness :
  snd (run expf_unreached initial
         [CallBegin true cfg_instant 0; CallTick (quiet 10); CallTick (quiet 20010)]) = []
  /\ apneaActive (fst (run expf_unreached initial
         [CallBegin true cfg_instant 0; CallTick (quiet 10); CallTick (quiet 20010)]))
     = true.
Proof.
  split; [|vm_compute; reflexivity].
  apply (no_callback_no_events expf_unreached
           [CallBegin true cfg_instant 0; CallTick (quiet 10); CallTick (quiet 20010)]
           initial); reflexivity.
Defined.

(** ** The published status *)

Lemma tick_synced p io : synced p -> synced (fst (tick p io)).
Proof.
  intros S. destruct (tick_due p io) eqn:D.
  2:{ rewrite (tick_skipped p io D). exact S. }
  destruct (tick_apnea_synced p io S) as [SA SH].
  destruct (tick_store p io D) as (_ & _ & _ & _ & ST & _).
  destruct (tick_published_store p io) as (_ & _ & F & _).
  apply flags_eq in F. destruct F as [FA FH].
  destruct (tick_frame p io D) as (_ & HF & AA & _).
  apply hypo_fsm_eq in HF. destruct HF as [HF _].
  destruct (tick_apnea_frame p io) as (_ & HF2 & AA2 & _).
  apply hypo_fsm_eq in HF2. destruct HF2 as [HF2 _].
  unfold synced. rewrite ST, FA, FH, SA, SH, AA, AA2, HF, HF2. split; reflexivity.
Qed.

Lemma call_synced expf p c :
  is_begin c = false -> synced p -> synced (fst (call expf p c)).
Proof.
  intros B S. destruct c; cbn [call fst]; try discriminate; try exact S.
  - apply tick_synced, S.
  - unfold popTelemetry. destruct (_tlHead p =? _tlTail p); exact S.
Qed.

(** X8.  The flags apneaActive and hypopneaActive of the status follow the
    two machines: if they agree with them, they still do after any run
    of calls other than [begin]. [begin] clears the flags and leaves the
    machines, so after it they agree exactly when both machines were
    Inactive. *)
Theorem status_flags_follow_machines expf :
  (forall cs p,
     synced p -> forallb (fun c => negb (is_begin c)) cs = true ->
     synced (fst (run expf p cs)))
  /\ (forall p ads cfg nowUs,
        synced (begin expf p ads cfg nowUs)
        <-> apneaActive p = false /\ hypoActive p = false).
Proof.
  split.
  - induction cs as [|c cs IH]; intros p S F; cbn [run fst]; [exact S|].
    cbn [forallb] in F. apply andb_true_iff in F. destruct F as [B F].
    apply IH; [|exact F]. apply call_synced; [|exact S].
    destruct (is_begin c); [discriminate | reflexivity].
  - intros p ads cfg nowUs. unfold synced.
    change (apneaActive (begin expf p ads cfg nowUs)) with (apneaActive p).
    change (hypoActive (begin expf p ads cfg nowUs)) with (hypoActive p).
    change (_stat (begin expf p ads cfg nowUs)) with Status.zero.
    cbn [Status.apneaActive Status.hypopneaActive Status.zero].
    split; intros [A B]; split; congruence.
Qed.

Lemma status_flags_follow_machines_witness :
  synced booted
  /\ synced (fst (run expf_unreached booted [CallTick (quiet 10); CallTick (quiet 20010)]))
  /\ Status.apneaActive
       (getStatus (fst (run expf_unreached booted
                          [CallTick (quiet 10); CallTick (quiet 20010)]))) = true.
Proof.
  assert (S : synced booted) by (split; reflexivity).
  split; [exact S|]. split; [|vm_compute; reflexivity].
  destruct (status_flags_follow_machines expf_unreached) as [H _].
  apply (H [CallTick (quiet 10); CallTick (quiet 20010)] booted S). reflexivity.
Defined.

(** X9.  With an apnea duration of 2 s or more (the default is 20 s), a
    status published by a tick never reports an apnea together with a
    good signal: when the flags follow the machines, apneaActive
    excludes signalOK. *)
Theorem apnea_excludes_signalOK p io :
  synced p -> tick_due p io = true -> 2000 <= apneaMinMs p ->
  Status.apneaActive (getStatus (fst (tick p io))) = true ->
  Status.signalOK (getStatus (fst (tick p io))) = false.
Proof.
  intros S D M A. unfold getStatus in *.
  destruct (tick_synced p io S) as [SA _]. rewrite SA in A.
  rewrite (tick_apneaActive p io D) in A. apply Z.geb_le in A.
  destruct (tick_frame p io D) as (_ & _ & _ & _ & -> & _).
  apply Z.ltb_ge. lia.
Qed.

Lemma apnea_excludes_signalOK_witness :
  Status.apneaActive (getStatus (fst (tick timer_running (quiet 20010)))) = true
  /\ Status.signalOK (getStatus (fst (tick timer_running (quiet 20010)))) = false.
Proof.
  split; [vm_compute; reflexivity|].
  apply (apnea_excludes_signalOK timer_running (quiet 20010)).
  - split; reflexivity.
  - vm_compute; reflexivity.
  - vm_compute; discriminate.
  - vm_compute; reflexivity.
Defined.

Lemma tick_primary_conditioned p io :
  tick_due p io = true ->
  conditioned (getP (tick_useCh2 p) (fst (tick p io)))
  = conditioned (getP (tick_useCh2 p) (tick_flagged p io)).
Proof.
  intros D. destruct (tick_conditioned p io D) as [C1 C2].
  destruct (tick_flagged_frame p io) as (_ & _ & _ & _ & _ & E1 & E2 & _).
  unfold getP. destruct (tick_useCh2 p); [rewrite C2, E2 | rewrite C1, E1]; reflexivity.
Qed.

(** X10.  The status a tick publishes is consistent with the primary channel
    as the tick leaves it: envPrimary and envBaselinePrimary are its
    envelope and its envelope baseline, thresholdPrimary is the
    threshold factor times the baseline floored at 1e-6, snrEstimate is
    the envelope over the floored baseline (0 when the baseline is not
    above the floor), and the artifact flag is the verdict of the tick. *)
Theorem published_status_consistent p io :
  tick_due p io = true ->
  let q := fst (tick p io) in
  let s := getStatus q in
  let P := getP (tick_useCh2 q) q in
  let base := max_float (Status.envBaselinePrimary s) (flit 1 1000000) in
  Status.envPrimary s = ChannelState.env P
  /\ Status.envBaselinePrimary s = ChannelState.envBaseline P
  /\ Status.thresholdPrimary s = fmul (Config.thrFactor (_cfg q)) base
  /\ Status.snrEstimate s
     = (if fgt base (flit 1 1000000) then fdiv (Status.envPrimary s) base else f0)
  /\ Status.artifact s = tick_artifact p io.
Proof.
  intros D. cbv zeta. unfold getStatus.
  rewrite (control_useCh2 _ _ (tick_control p io)).
  pose proof (tick_primary_conditioned p io D) as C.
  unfold conditioned in C. injection C as _ CE CB.
  destruct (tick_store p io D) as (_ & _ & _ & _ & ST & _).
  destruct (tick_published_store p io) as (_ & _ & _ & _ & P1 & P2 & P3 & P4).
  destruct (tick_frame p io D) as (CT & _ & _ & A & _).
  rewrite ST, P1, P2, P3, P4, CE, CB.
  rewrite (control_cfg _ _ CT), tick_thr_eq, tick_base_eq, tick_env_eq.
  rewrite <- A, ST. repeat split; reflexivity.
Qed.

Lemma published_status_consistent_witness :
  let s := getStatus (fst (tick booted (quiet 10))) in
  Status.thresholdPrimary s
  = fmul (flit 45 100) (max_float (Status.envBaselinePrimary s) (flit 1 1000000))
  /\ Status.snrEstimate s = f0.
Proof.
  destruct (published_status_consistent booted (quiet 10)) as (_ & _ & T & S & _).
  - vm_compute. reflexivity.
  - split; [exact T|]. rewrite S. vm_compute. reflexivity.
Defined.

(** ** The telemetry ring along a tick *)

Lemma tele_ring_eq p q :
  tele_ring p = tele_ring q ->
  _tele p = _tele q /\ _tlHead p = _tlHead q /\ _tlTail p = _tlTail q.
Proof. unfold tele_ring. intros H. injection H as -> -> ->. repeat split; reflexivity. Qed.

Lemma tele_contents_ext p q :
  tele_ring p = tele_ring q -> tele_contents p = tele_contents q.
Proof.
  intros H. apply tele_ring_eq in H. destruct H as (E1 & E2 & E3).
  unfold tele_contents, tele_count. rewrite E1, E2, E3. reflexivity.
Qed.

Lemma tele_wf_ext p q : tele_ring p = tele_ring q -> tele_wf p -> tele_wf q.
Proof.
  intros H. apply tele_ring_eq in H. destruct H as (E1 & E2 & E3).
  unfold tele_wf. rewrite E1, E2, E3. auto.
Qed.

(** The telemetry ring after a due tick is the ring after one push of the
    status the tick publishes. *)
Lemma tick_tele_ring p io :
  tick_due p io = true ->
  tele_ring (fst (tick p io))
  = tele_ring (push_status p (_stat (fst (tick p io)), millis io)).
Proof.
  intros D.
  destruct (tick_store p io D) as (_ & T & _ & _ & ST & S).
  apply store_eq in S. destruct S as (TR & _).
  apply tele_ring_eq in TR. destruct TR as (E1 & E2 & E3).
  rewrite T. unfold push_status. rewrite !pushTele_ring. cbn [fst snd].
  rewrite ST, E1, E2, E3. reflexivity.
Qed.

Lemma tick_records_status_aux p io :
  tele_wf p -> tick_due p io = true ->
  tele_wf (fst (tick p io))
  /\ tele_contents (fst (tick p io))
     = lastn 255 (tele_contents p
                  ++ [tele_record (getStatus (fst (tick p io))) (millis io)]).
Proof.
  intros W D.
  pose proof (tick_tele_ring p io D) as E.
  destruct (push_status_contents p (_stat (fst (tick p io)), millis io) W) as [W' C].
  split.
  - apply (tele_wf_ext _ _ (eq_sym E)). exact W'.
  - rewrite (tele_contents_ext _ _ E). exact C.
Qed.

(** X11.  Every executed tick pushes one telemetry record, stamped with the
    millisecond clock and holding the status the tick has just published
    (the one [getStatus] returns after it); the oldest unread record is
    dropped when 255 are already held. A tick that is not due pushes
    nothing. *)
Theorem tick_records_status p io :
  tele_wf p ->
  let q := fst (tick p io) in
  tele_wf q
  /\ tele_contents q
     = if tick_due p io
       then lastn 255 (tele_contents p ++ [tele_record (getStatus q) (millis io)])
       else tele_contents p.
Proof.
  intros W. cbv zeta. destruct (tick_due p io) eqn:D.
  - apply tick_records_status_aux; assumption.
  - rewrite (tick_skipped p io D). split; [exact W | reflexivity].
Qed.

Lemma tick_records_status_witness :
  tele_contents (fst (tick booted (quiet 10)))
  = [tele_record (getStatus (fst (tick booted (quiet 10)))) 10].
Proof.
  destruct (tick_records_status booted (quiet 10)) as [_ C].
  - split; [reflexivity|]. vm_compute. repeat split; discriminate.
  - rewrite C. vm_compute. reflexivity.
Defined.

(** X12.  [popTelemetry] hands out the oldest unread record and removes it
    alone: the records left are the other unread ones in their order,
    and nothing but the read cursor of the pipeline changes. *)
Theorem popTelemetry_oldest_first p out :
  tele_wf p -> _tlHead p <> _tlTail p ->
  let r := popTelemetry p out in
  fst (fst r) = true
  /\ tele_contents p = snd (fst r) :: tele_contents (snd r)
  /\ tele_wf (snd r)
  /\ snd r = set_tlTail (_tlTail (snd r)) p.
Proof.
  intros W N. cbv zeta.
  destruct (popTelemetry_some p out W N) as (R & W' & C).
  split; [exact R|]. split; [exact C|]. split; [exact W'|].
  unfold popTelemetry. destruct (_tlHead p =? _tlTail p) eqn:E.
  - apply Z.eqb_eq in E. contradiction.
  - reflexivity.
Qed.

Lemma popTelemetry_oldest_first_witness :
  let q := fst (tick booted (quiet 10)) in
  let r := popTelemetry q Telemetry.zero in
  fst (fst r) = true
  /\ snd (fst r) = tele_record (getStatus q) 10
  /\ tele_contents (snd r) = [].
Proof.
  cbv zeta.
  destruct (popTelemetry_oldest_first (fst (tick booted (quiet 10))) Telemetry.zero)
    as (R & C & _).
  - vm_compute. repeat split; discriminate.
  - vm_compute. discriminate.
  - split; [exact R|]. vm_compute. repeat split; reflexivity.
Defined.

(** X13.  From an empty ring, the record popped straight after an executed
    tick is the status of that tick, and the ring is empty again. *)
Theorem tick_then_pop p io out :
  tele_wf p -> _tlHead p = _tlTail p -> tick_due p io = true ->
  let q := fst (tick p io) in
  let r := popTelemetry q out in
  fst (fst r) = true
  /\ snd (fst r) = tele_record (getStatus q) (millis io)
  /\ tele_contents (snd r) = []
  /\ getStatus (snd r) = getStatus q.
Proof.
  intros W E D. cbv zeta.
  destruct (tick_records_status_aux p io W D) as [W' C].
  assert (Z0 : tele_contents p = []).
  { pose proof (length_tele_contents p) as L.
    apply (tele_count_zero p W) in E. rewrite E in L.
    destruct (tele_contents p); [reflexivity | cbn [length] in L; lia]. }
  rewrite Z0, app_nil_l, lastn_short in C by (cbn [length]; lia).
  assert (N : _tlHead (fst (tick p io)) <> _tlTail (fst (tick p io))).
  { intros H. apply (tele_count_zero _ W') in H.
    pose proof (length_tele_contents (fst (tick p io))) as L.
    rewrite H, C in L. cbn [length] in L. lia. }
  destruct (popTelemetry_some _ out W' N) as (R & _ & P).
  rewrite C in P. injection P as P1 P2.
  split; [exact R|]. split; [symmetry; exact P1|]. split; [symmetry; exact P2|].
  unfold popTelemetry, getStatus.
  destruct (_tlHead (fst (tick p io)) =? _tlTail (fst (tick p io))); reflexivity.
Qed.

Lemma tick_then_pop_witness :
  let q := fst (tick booted (quiet 10)) in
  fst (fst (popTelemetry q Telemetry.zero)) = true
  /\ snd (fst (popTelemetry q Telemetry.zero)) = tele_record (getStatus q) 10.
Proof.
  cbv zeta.
  destruct (tick_then_pop booted (quiet 10) Telemetry.zero) as (R & P & _).
  - split; [reflexivity|]. vm_compute. repeat split; discriminate.
  - reflexivity.
  - vm_compute. reflexivity.
  - split; [exact R | exact P].
Defined.

(** ** The burst ring *)

Local Ltac Zify.zify_post_hook ::= idtac.

Ltac ltb_hyps :=
  repeat match goal with
         | H : (_ <? _) = true |- _ => apply Z.ltb_lt in H
         | H : (_ <? _) = false |- _ => apply Z.ltb_ge in H
         end.

Lemma burst_cap_bounds p : 64 <= burst_cap p <= BURST_CAP.
Proof.
  unfold burst_cap, imin, imax, BURST_CAP.
  destruct (64 >? _) eqn:A; destruct (16000 <? _) eqn:B; lia.
Qed.

Lemma mod_wrap x c :
  0 <= x < 2 * c -> x mod c = if x <? c then x else x - c.
Proof.
  intros H. destruct (x <? c) eqn:E.
  - apply Z.ltb_lt in E. apply Z.mod_small. lia.
  - apply Z.ltb_ge in E.
    replace x with ((x - c) + 1 * c) at 1 by ring.
    rewrite Z_mod_plus_full. apply Z.mod_small. lia.
Qed.

Lemma burst_ring_eq p q :
  burst_ring p = burst_ring q ->
  _burstCh1 p = _burstCh1 q /\ _burstCh2 p = _burstCh2 q
  /\ _burstHead p = _burstHead q /\ _burstTail p = _burstTail q
  /\ _burstFill p = _burstFill q.
Proof.
  unfold burst_ring. intros H. injection H as -> -> -> -> ->.
  repeat split; reflexivity.
Qed.

Lemma burst_cap_ext p q : _cfg p = _cfg q -> burst_cap p = burst_cap q.
Proof. unfold burst_cap. intros ->. reflexivity. Qed.

Lemma burst_held_ext p q :
  burst_ring p = burst_ring q -> _cfg p = _cfg q -> burst_held p = burst_held q.
Proof.
  intros H C. apply burst_ring_eq in H. destruct H as (E1 & E2 & _ & E4 & E5).
  unfold burst_held. rewrite E1, E2, E4, E5, (burst_cap_ext _ _ C). reflexivity.
Qed.

Lemma burst_wf_ext p q :
  burst_ring p = burst_ring q -> _cfg p = _cfg q -> burst_wf p -> burst_wf q.
Proof.
  intros H C. apply burst_ring_eq in H. destruct H as (E1 & E2 & E3 & E4 & E5).
  unfold burst_wf. rewrite E1, E2, E3, E4, E5, (burst_cap_ext _ _ C). auto.
Qed.

Lemma length_burst_held p : length (burst_held p) = Z.to_nat (_burstFill p).
Proof. unfold burst_held. rewrite List.length_map, List.length_seq. reflexivity. Qed.

(** One push: the pair joins the held ones, and the oldest is dropped when
    the ring is at its capacity. *)
Lemma pushBurst_contents p c0 c1 :
  burst_wf p ->
  burst_wf (pushBurst p c0 c1)
  /\ burst_held (pushBurst p c0 c1)
     = lastn (Z.to_nat (burst_cap p)) (burst_held p ++ [(c0, c1)]).
Proof.
  intros (L1 & L2 & T & F & H).
  pose proof (burst_cap_bounds p) as B. unfold BURST_CAP in *.
  pose proof (pushBurst_ring p c0 c1) as R.
  destruct (pushBurst_timer p c0 c1) as (_ & _ & C).
  pose proof (burst_cap_ext _ _ C) as CC.
  pose proof (length_burst_held p) as LH.
  unfold burst_ring in R. injection R as R1 R2 R3 R4 R5.
  unfold burst_wf. unfold burst_held at 1.
  rewrite R1, R2, R3, R4, R5, CC, !length_insert.
  set (cap := burst_cap p) in *. set (t := _burstTail p) in *.
  set (f := _burstFill p) in *. set (h := _burstHead p) in *.
  assert (Hh : h = if t + f <? cap then t + f else t + f - cap).
  { rewrite H. apply mod_wrap. lia. }
  assert (Hh' : 0 <= h < cap) by (destruct (t + f <? cap) eqn:E; ltb_hyps; lia).
  destruct (f <? cap) eqn:E.
  - (* room is left: the pair is appended *)
    apply Z.ltb_lt in E.
    split.
    { repeat split; try assumption; try lia.
      rewrite (mod_wrap (h + 1)), (mod_wrap (t + (f + 1))) by lia.
      destruct (t + f <? cap) eqn:E1; destruct (h + 1 <? cap) eqn:E2;
        destruct (t + (f + 1) <? cap) eqn:E3; ltb_hyps; lia. }
    rewrite lastn_short by (rewrite length_app, LH; cbn [length]; lia).
    replace (Z.to_nat (f + 1)) with (S (Z.to_nat f)) by lia.
    rewrite List.seq_S, List.map_app. cbn [map Nat.add]. f_equal.
    + unfold burst_held. fold t f cap.
      apply List.map_ext_in. intros i Hi. apply List.in_seq in Hi.
      assert (N : Z.to_nat h <> Z.to_nat ((t + Z.of_nat i) mod cap)).
      { rewrite (mod_wrap (t + Z.of_nat i)) by lia.
        destruct (t + f <? cap) eqn:E1; destruct (t + Z.of_nat i <? cap) eqn:E2;
          ltb_hyps; lia. }
      rewrite !list_lookup_total_insert_ne by exact N. reflexivity.
    + replace (Z.to_nat ((t + Z.of_nat (Z.to_nat f)) mod cap)) with (Z.to_nat h)
        by (rewrite H; f_equal; f_equal; lia).
      rewrite !list_lookup_total_insert_eq by lia. reflexivity.
  - (* the ring is at capacity: the oldest pair is dropped *)
    apply Z.ltb_ge in E. assert (Ef : f = cap) by lia.
    assert (Eh : h = t)
      by (rewrite Ef in Hh; destruct (t + cap <? cap) eqn:E1; ltb_hyps; lia).
    split.
    { repeat split; try assumption; try lia.
      all: try (apply Z.mod_pos_bound; lia).
      rewrite Eh, Ef, Zplus_mod_idemp_l.
      replace (t + 1 + cap) with (t + 1 + 1 * cap) by ring.
      rewrite Z_mod_plus_full. reflexivity. }
    unfold lastn. rewrite length_app, LH. cbn [length].
    replace (Z.to_nat f + 1 - Z.to_nat cap)%nat with 1%nat by lia.
    rewrite drop_app_le by (rewrite LH; lia).
    assert (Nf : Z.to_nat f = S (Z.to_nat (cap - 1))) by lia.
    rewrite Nf at 1. rewrite List.seq_S, List.map_app. cbn [map Nat.add]. f_equal.
    + unfold burst_held. fold t f cap. rewrite Nf.
      change (seq 0 (S ?n)) with (0%nat :: seq 1 n). cbn [map].
      change (drop 1 (?x :: ?l)) with l.
      rewrite <- List.seq_shift, List.map_map. apply List.map_ext_in.
      intros i Hi. apply List.in_seq in Hi.
      assert (X : ((t + 1) mod cap + Z.of_nat i) mod cap = (t + Z.of_nat (S i)) mod cap).
      { rewrite Zplus_mod_idemp_l. f_equal. lia. }
      rewrite X.
      assert (N : Z.to_nat h <> Z.to_nat ((t + Z.of_nat (S i)) mod cap)).
      { rewrite (mod_wrap (t + Z.of_nat (S i))) by lia. rewrite Eh.
        destruct (t + Z.of_nat (S i) <? cap) eqn:E2; ltb_hyps; lia. }
      rewrite !list_lookup_total_insert_ne by exact N. reflexivity.
    + assert (X : ((t + 1) mod cap + Z.of_nat (Z.to_nat (cap - 1))) mod cap = h).
      { rewrite Zplus_mod_idemp_l, Eh.
        replace (t + 1 + Z.of_nat (Z.to_nat (cap - 1))) with (t + 1 * cap) by lia.
        rewrite Z_mod_plus_full. apply Z.mod_small. lia. }
      rewrite X, !list_lookup_total_insert_eq by lia. reflexivity.
Qed.

Lemma pushBurst_cfg p c0 c1 : _cfg (pushBurst p c0 c1) = _cfg p.
Proof. apply (pushBurst_timer p c0 c1). Qed.

Lemma pushes_burst_contents ss : forall p,
  burst_wf p ->
  let q := foldl (fun q s => pushBurst q (fst s) (snd s)) p ss in
  burst_wf q /\ _cfg q = _cfg p
  /\ burst_held q = lastn (Z.to_nat (burst_cap p)) (burst_held p ++ ss).
Proof.
  induction ss as [|s ss IH]; intros p W; cbn [foldl]; cbv zeta.
  - split; [exact W|]. split; [reflexivity|]. rewrite app_nil_r. symmetry.
    apply lastn_short. rewrite length_burst_held.
    destruct W as (_ & _ & _ & F & _). lia.
  - destruct (pushBurst_contents p (fst s) (snd s) W) as [W' C].
    destruct (IH _ W') as (W'' & CF & C').
    split; [exact W''|]. split; [rewrite CF; apply pushBurst_cfg|].
    rewrite C', C, (burst_cap_ext _ _ (pushBurst_cfg p (fst s) (snd s))).
    rewrite lastn_app_lastn, <- app_assoc. destruct s; reflexivity.
Qed.

(** X14.  The burst ring holds the newest samples, oldest first: after any
    number of pushes under one configuration, the held sample pairs are
    the last [cap] of those held before followed by those pushed, where
    [cap] is the capacity [pushBurst] computes (between 64 and
    [BURST_CAP]); the cursors stay within the capacity. *)
Theorem burst_ring_keeps_newest p ss :
  burst_wf p ->
  let q := foldl (fun q s => pushBurst q (fst s) (snd s)) p ss in
  burst_wf q
  /\ burst_held q = lastn (Z.to_nat (burst_cap p)) (burst_held p ++ ss)
  /\ 64 <= burst_cap p <= BURST_CAP.
Proof.
  intros W. cbv zeta. destruct (pushes_burst_contents ss p W) as (W' & _ & C).
  split; [exact W'|]. split; [exact C | apply burst_cap_bounds].
Qed.

Lemma burst_ring_keeps_newest_witness :
  let ss := map (fun k => (Z.of_nat k, Z.of_nat k)) (seq 1 601) in
  burst_held (foldl (fun q s => pushBurst q (fst s) (snd s)) initial ss)
  = lastn (Z.to_nat (burst_cap initial)) (burst_held initial ++ ss).
Proof.
  cbv zeta.
  apply (burst_ring_keeps_newest initial
           (map (fun k => (Z.of_nat k, Z.of_nat k)) (seq 1 601))).
  split; [vm_compute; reflexivity|]. split; [vm_compute; reflexivity|].
  vm_compute. repeat split; discriminate.
Defined.

Lemma burst_counts_ext p q mv :
  control p = control q -> burst_counts p mv = burst_counts q mv.
Proof.
  unfold burst_counts, control. intros H. injection H as _ _ _ _ _ _ ->. reflexivity.
Qed.

Lemma tick_pushed_control p io :
  control (pushTele (tick_published p io) (millis io)) = control p.
Proof.
  destruct (pushTele_frame (tick_published p io) (millis io)) as (-> & _).
  apply tick_published_control.
Qed.

Lemma tick_pushed_store p io :
  burst_ring (pushTele (tick_published p io) (millis io)) = burst_ring p
  /\ burst_timer (pushTele (tick_published p io) (millis io)) = burst_timer p.
Proof.
  destruct (pushTele_store (tick_published p io) (millis io)) as (-> & -> & _).
  destruct (tick_published_store p io) as (S & _).
  apply store_eq in S. destruct S as (_ & -> & -> & _). split; reflexivity.
Qed.

Lemma tick_burst_ring p io :
  tick_due p io = true ->
  burst_ring (fst (tick p io))
  = burst_ring (pushBurst p (burst_counts p (tick_mv0 p io))
                  (burst_counts p (tick_mv1 p io))).
Proof.
  intros D.
  destruct (tick_store p io D) as (_ & _ & R & _).
  pose proof (tick_pushed_control p io) as C.
  destruct (tick_pushed_store p io) as (BR & _).
  apply burst_ring_eq in BR. destruct BR as (E1 & E2 & E3 & E4 & E5).
  rewrite R, handleBurst_ring, !pushBurst_ring.
  rewrite E1, E2, E3, E4, E5, (burst_cap_ext _ _ (control_cfg _ _ C)).
  rewrite !(burst_counts_ext _ _ _ C). reflexivity.
Qed.

Lemma tick_cfg p io : _cfg (fst (tick p io)) = _cfg p.
Proof. apply control_cfg, tick_control. Qed.

Lemma tick_burst_held p io :
  burst_wf p -> tick_due p io = true ->
  burst_wf (fst (tick p io))
  /\ burst_held (fst (tick p io))
     = lastn (Z.to_nat (burst_cap p))
         (burst_held p ++ [(burst_counts p (tick_mv0 p io),
                            burst_counts p (tick_mv1 p io))]).
Proof.
  intros W D.
  pose proof (tick_burst_ring p io D) as E.
  assert (C : _cfg (fst (tick p io))
              = _cfg (pushBurst p (burst_counts p (tick_mv0 p io))
                        (burst_counts p (tick_mv1 p io))))
    by (rewrite tick_cfg, pushBurst_cfg; reflexivity).
  destruct (pushBurst_contents p (burst_counts p (tick_mv0 p io))
              (burst_counts p (tick_mv1 p io)) W) as [W' H].
  split.
  - apply (burst_wf_ext _ _ (eq_sym E) (eq_sym C)). exact W'.
  - rewrite (burst_held_ext _ _ E C). exact H.
Qed.

(** X15.  Every executed tick pushes one sample pair into the burst ring,
    whether a burst is triggered or not: the counts recovered from the
    two samples in millivolts. The ring then holds the last [cap] pairs.
    A tick that is not due pushes nothing. *)
Theorem tick_captures_sample p io :
  burst_wf p ->
  let q := fst (tick p io) in
  burst_wf q
  /\ burst_held q
     = if tick_due p io
       then lastn (Z.to_nat (burst_cap p))
              (burst_held p ++ [(burst_counts p (tick_mv0 p io),
                                 burst_counts p (tick_mv1 p io))])
       else burst_held p.
Proof.
  intros W. cbv zeta. destruct (tick_due p io) eqn:D.
  - apply tick_burst_held; assumption.
  - rewrite (tick_skipped p io D). split; [exact W | reflexivity].
Qed.

Lemma tick_captures_sample_witness :
  burst_held (fst (tick booted (sample 10 7))) = [(7, 7)].
Proof.
  destruct (tick_captures_sample booted (sample 10 7)) as [_ H].
  - split; [vm_compute; reflexivity|]. split; [vm_compute; reflexivity|].
    vm_compute. repeat split; discriminate.
  - rewrite H. vm_compute. reflexivity.
Defined.

(** The copy loop of [exportBurst]: the first [n] slots of the two output
    buffers are overwritten, the others are left. *)
Lemma copy_loop (f g : nat -> Z) n : forall b1 b2 : list Z,
  (n <= length b1)%nat -> (n <= length b2)%nat ->
  foldl (fun bufs i => (<[i := f i]> (fst bufs), <[i := g i]> (snd bufs)))
        (b1, b2) (seq 0 n)
  = (map f (seq 0 n) ++ drop n b1, map g (seq 0 n) ++ drop n b2).
Proof.
  induction n as [|n IH]; intros b1 b2 L1 L2.
  - cbn [seq foldl map app]. rewrite !drop_0. reflexivity.
  - rewrite List.seq_S, foldl_app, IH by lia. cbn [foldl fst snd Nat.add].
    rewrite !List.map_app. cbn [map].
    assert (I : forall (h : nat -> Z) (b : list Z), (S n <= length b)%nat ->
              <[n := h n]> (map h (seq 0 n) ++ drop n b)
              = (map h (seq 0 n) ++ [h n]) ++ drop (S n) b).
    { intros h b L.
      rewrite insert_app_r_alt by (rewrite List.length_map, List.length_seq; lia).
      rewrite List.length_map, List.length_seq, Nat.sub_diag.
      destruct (drop n b) as [|x l] eqn:E.
      - apply (f_equal (@length _)) in E. rewrite length_drop in E. cbn in E. lia.
      - cbn [insert list_insert]. rewrite <- app_assoc. cbn [app]. do 2 f_equal.
        replace (S n) with (n + 1)%nat by lia. rewrite <- drop_drop, E. reflexivity. }
    rewrite !I by assumption. reflexivity.
Qed.

(** X16.  [exportBurst] on a ring whose held samples do not run past the end
    of the ring (it has not wrapped since it was empty, or few enough
    samples are asked for), or whose capacity is [BURST_CAP]: the first
    [min(_burstFill, maxSamples)] slots of the two buffers receive the
    oldest held samples in order, the other slots are left, and that
    count is returned. *)
Theorem exportBurst_before_wrap p ch1Buf ch2Buf maxSamples :
  burst_wf p -> 0 <= maxSamples ->
  let have := Z.to_nat (imin (_burstFill p) maxSamples) in
  (have <= length ch1Buf)%nat -> (have <= length ch2Buf)%nat ->
  burst_cap p = BURST_CAP \/ _burstTail p + Z.of_nat have <= burst_cap p ->
  exportBurst p ch1Buf ch2Buf maxSamples
  = (map fst (take have (burst_held p)) ++ drop have ch1Buf,
     map snd (take have (burst_held p)) ++ drop have ch2Buf,
     imin (_burstFill p) maxSamples).
Proof.
  intros (L1 & L2 & T & F & H) M. cbv zeta. intros B1 B2 X.
  unfold exportBurst. cbv zeta.
  rewrite (copy_loop
             (fun i => _burstCh1 p !!! Z.to_nat ((_burstTail p + Z.of_nat i) mod BURST_CAP))
             (fun i => _burstCh2 p !!! Z.to_nat ((_burstTail p + Z.of_nat i) mod BURST_CAP)))
    by assumption.
  assert (HF : (Z.to_nat (imin (_burstFill p) maxSamples) <= Z.to_nat (_burstFill p))%nat).
  { unfold imin. destruct (_burstFill p <? maxSamples) eqn:E; ltb_hyps; lia. }
  unfold burst_held.
  rewrite <- !fmap_take, take_seq, Nat.min_l by exact HF.
  pose proof (burst_cap_bounds p) as CB.
  assert (I : forall i, List.In i (seq 0 (Z.to_nat (imin (_burstFill p) maxSamples))) ->
              (_burstTail p + Z.of_nat i) mod BURST_CAP
              = (_burstTail p + Z.of_nat i) mod burst_cap p).
  { intros i Hi. apply List.in_seq in Hi. destruct X as [-> | X]; [reflexivity|].
    rewrite !Z.mod_small by lia. reflexivity. }
  rewrite !List.map_map. cbn [fst snd].
  rewrite (List.map_ext_in _ _ _
             (fun i Hi => f_equal (fun z => _burstCh1 p !!! Z.to_nat z) (I i Hi))).
  rewrite (List.map_ext_in _ _ _
             (fun i Hi => f_equal (fun z => _burstCh2 p !!! Z.to_nat z) (I i Hi))).
  reflexivity.
Qed.

Lemma exportBurst_before_wrap_witness :
  exportBurst (pushBurst (pushBurst (pushBurst initial 1 1) 2 2) 3 3)
    (replicate 4 (-1)) (replicate 4 (-1)) 2
  = ([1; 2; -1; -1], [1; 2; -1; -1], 2).
Proof.
  rewrite (exportBurst_before_wrap (pushBurst (pushBurst (pushBurst initial 1 1) 2 2) 3 3)).
  - vm_compute. reflexivity.
  - split; [vm_compute; reflexivity|]. split; [vm_compute; reflexivity|].
    vm_compute. repeat split; discriminate.
  - lia.
  - vm_compute. lia.
  - vm_compute. lia.
  - right. vm_compute. discriminate.
Defined.

(** ** The post-trigger countdown *)

Lemma burst_stepMs_ext p q : control p = control q -> burst_stepMs p = burst_stepMs q.
Proof. intros H. unfold burst_stepMs. rewrite (control_cfg _ _ H). reflexivity. Qed.

Lemma burst_stepMs_nonneg p : 0 <= burst_stepMs p.
Proof.
  unfold burst_stepMs. apply Z.div_pos; [lia|].
  unfold imax. destruct (1 >? _) eqn:E; [lia|].
  pose proof (Zgt_cases 1 (Config.fsProcHz (_cfg p))) as G. rewrite E in G. lia.
Qed.

Lemma burst_timer_eq p q :
  burst_timer p = burst_timer q ->
  _burstActive p = _burstActive q /\ _burstPostRemain p = _burstPostRemain q.
Proof. unfold burst_timer. intros H. injection H as -> ->. split; reflexivity. Qed.

(** The countdown after one executed tick. *)
Lemma tick_burst_timer p io :
  tick_due p io = true ->
  burst_timer (fst (tick p io))
  = if _burstActive p then
      (if _burstPostRemain p >? burst_stepMs p
       then (negb (wrap16 (_burstPostRemain p - burst_stepMs p) =? 0),
             wrap16 (_burstPostRemain p - burst_stepMs p))
       else (false, 0))
    else burst_timer p.
Proof.
  intros D.
  destruct (tick_store p io D) as (_ & _ & _ & T & _).
  pose proof (tick_pushed_control p io) as C.
  destruct (tick_pushed_store p io) as (_ & BT).
  rewrite T, handleBurst_timer, BT, (burst_stepMs_ext _ _ C).
  apply burst_timer_eq in BT. destruct BT as [-> ->]. reflexivity.
Qed.

(** The countdown along a run of ticks, from a state whose remaining time
    fits the 16 bits of [_burstPostRemain]. *)
Lemma ticks_burst_timer ios : forall p,
  0 <= _burstPostRemain p < 2 ^ 16 ->
  let n := Z.of_nat (executed p ios) in
  let left := _burstPostRemain p - n * burst_stepMs p in
  burst_timer (fst (ticks p ios))
  = if _burstActive p && (0 <? n) then (0 <? left, Z.max 0 left) else burst_timer p.
Proof.
  induction ios as [|io ios IH]; intros p R; cbv zeta; cbn [ticks executed fst].
  - rewrite andb_false_r. reflexivity.
  - pose proof (burst_stepMs_nonneg p) as S.
    pose proof (burst_stepMs_ext _ _ (tick_control p io)) as SE.
    destruct (tick_due p io) eqn:D.
    2:{ rewrite (tick_skipped p io D). cbn [fst Nat.add]. apply IH. exact R. }
    pose proof (tick_burst_timer p io D) as T.
    set (p1 := fst (tick p io)) in *.
    set (s := burst_stepMs p) in *.
    set (n' := executed p1 ios).
    assert (N : 0 <= Z.of_nat n' * s) by (apply Z.mul_nonneg_nonneg; lia).
    replace (Z.of_nat (1 + n')) with (1 + Z.of_nat n') by lia.
    replace (0 <? 1 + Z.of_nat n') with true by (symmetry; apply Z.ltb_lt; lia).
    rewrite andb_true_r.
    destruct (_burstActive p) eqn:A.
    + destruct (_burstPostRemain p >? s) eqn:G.
      * (* still counting *)
        assert (G' : s < _burstPostRemain p)
          by (pose proof (Zgt_cases (_burstPostRemain p) s) as G'; rewrite G in G'; lia).
        assert (W : wrap16 (_burstPostRemain p - s) = _burstPostRemain p - s)
          by (unfold wrap16; apply Z.mod_small; lia).
        rewrite W in T.
        replace (_burstPostRemain p - s =? 0) with false in T
          by (symmetry; apply Z.eqb_neq; lia).
        cbn [negb] in T. unfold burst_timer in T. injection T as T1 T2.
        rewrite IH by (rewrite T2; lia). rewrite T1, T2, SE. cbn [andb]. fold n'.
        destruct (0 <? Z.of_nat n') eqn:Z0.
        -- do 2 f_equal; ring.
        -- apply Z.ltb_ge in Z0. assert (Z1 : Z.of_nat n' = 0) by lia.
           rewrite Z1. unfold burst_timer. rewrite T1, T2.
           replace (_burstPostRemain p - (1 + 0) * s) with (_burstPostRemain p - s) by ring.
           f_equal; [symmetry; apply Z.ltb_lt; lia | lia].
      * (* the countdown ends *)
        assert (G' : _burstPostRemain p <= s)
          by (pose proof (Zgt_cases (_burstPostRemain p) s) as G'; rewrite G in G'; lia).
        unfold burst_timer in T. injection T as T1 T2.
        rewrite IH by (rewrite T2; lia). rewrite T1. cbn [andb].
        unfold burst_timer. rewrite T1, T2.
        assert (L : _burstPostRemain p - (1 + Z.of_nat n') * s <= 0).
        { replace ((1 + Z.of_nat n') * s) with (s + Z.of_nat n' * s) by ring. lia. }
        f_equal; [symmetry; apply Z.ltb_ge; lia | lia].
    + apply burst_timer_eq in T. destruct T as [T1 T2].
      rewrite IH by (rewrite T2; exact R). rewrite T1. cbn [andb].
      unfold burst_timer. rewrite T1, T2, A. reflexivity.
Qed.

(** X17.  After [triggerBurst(postMs)], every executed tick takes [1000 /
    max(1, fsProcHz)] milliseconds off the time that remains; the burst
    stays active while time remains and is switched off by the tick that
    brings it to 0 (the first executed tick when [postMs] is 0). At a
    sample rate above 1000 Hz the step is 0 and a burst with a positive
    [postMs] never ends. *)
Theorem burst_countdown p postMs ios :
  0 <= postMs < 2 ^ 16 ->
  let p0 := triggerBurst p postMs in
  let n := Z.of_nat (executed p0 ios) in
  let left := postMs - n * burst_stepMs p in
  burst_timer p0 = (true, postMs)
  /\ (1 <= n ->
      burst_timer (fst (ticks p0 ios)) = (0 <? left, Z.max 0 left)).
Proof.
  intros R. cbv zeta. split; [reflexivity|]. intros N.
  rewrite (ticks_burst_timer ios (triggerBurst p postMs)) by exact R.
  change (_burstActive (triggerBurst p postMs)) with true.
  change (_burstPostRemain (triggerBurst p postMs)) with postMs.
  change (burst_stepMs (triggerBurst p postMs)) with (burst_stepMs p).
  replace (0 <? Z.of_nat (executed (triggerBurst p postMs) ios)) with true
    by (symmetry; apply Z.ltb_lt; lia).
  reflexivity.
Qed.

Lemma burst_countdown_witness :
  burst_stepMs booted = 10
  /\ burst_timer (fst (ticks (triggerBurst booted 25) [quiet 10; quiet 20])) = (true, 5)
  /\ burst_timer (fst (ticks (triggerBurst booted 25) [quiet 10; quiet 20; quiet 30]))
     = (false, 0).
Proof.
  split; [vm_compute; reflexivity|]. split.
  - destruct (burst_countdown booted 25 [quiet 10; quiet 20]) as [_ H]; [lia|].
    rewrite H; vm_compute; [reflexivity | discriminate].
  - destruct (burst_countdown booted 25 [quiet 10; quiet 20; quiet 30]) as [_ H]; [lia|].
    rewrite H; vm_compute; [reflexivity | discriminate].
Defined.

(** ** Array bounds *)

Lemma ma_taps_bounds p : 1 <= ma_taps p <= ChannelState.MAX_MA.
Proof.
  unfold ma_taps, imin, imax, ChannelState.MAX_MA.
  destruct (1 >? _) eqn:A.
  - reflexivity || (cbn; lia).
  - pose proof (Zgt_cases 1 (Config.antiRingTaps (_cfg p))) as G. rewrite A in G.
    destruct (8 <? _) eqn:B; ltb_hyps; lia.
Qed.

Lemma processOne_ma_state p C mv :
  ChannelState.maBuf (processOne p C mv)
  = <[Z.to_nat (ChannelState.maIdx C) :=
        fsub mv (fadd (fmul (fsub f1 (_alphaDC p)) (ChannelState.dcBaseline C))
                      (fmul (_alphaDC p) mv))]> (ChannelState.maBuf C)
  /\ ChannelState.maIdx (processOne p C mv)
     = wrap8 ((ChannelState.maIdx C + 1) mod ma_taps p)
  /\ ChannelState.maFill (processOne p C mv)
     = (if ChannelState.maFill C <? ma_taps p
        then wrap8 (ChannelState.maFill C + 1) else ChannelState.maFill C).
Proof.
  unfold processOne, ma_taps. cbv zeta.
  match goal with |- context [if fgt ?a ?b then _ else _] => destruct (fgt a b) end;
    repeat split; reflexivity.
Qed.

Lemma processOne_chan_ok p C mv : chan_ok C -> chan_ok (processOne p C mv).
Proof.
  intros (L & I & F). unfold chan_ok.
  destruct (processOne_ma_state p C mv) as (-> & -> & ->).
  pose proof (ma_taps_bounds p) as T. unfold ChannelState.MAX_MA in *.
  rewrite length_insert. split; [exact L|].
  assert (M : 0 <= (ChannelState.maIdx C + 1) mod ma_taps p < ma_taps p)
    by (apply Z.mod_pos_bound; lia).
  split.
  - unfold wrap8. rewrite Z.mod_small by lia. lia.
  - destruct (ChannelState.maFill C <? ma_taps p) eqn:E; ltb_hyps; [|lia].
    unfold wrap8. rewrite Z.mod_small by lia. lia.
Qed.

Lemma chan_ok_ext C D : ma_state C = ma_state D -> chan_ok C -> chan_ok D.
Proof.
  unfold ma_state, chan_ok. intros H. injection H as -> -> ->. auto.
Qed.

Lemma rr_ok_ext p q :
  rate_state p = rate_state q ->
  length (_rrBuf p) = Z.to_nat RR_WIN
  /\ 0 <= _rrIdx p < RR_WIN /\ 0 <= _rrFill p <= RR_WIN ->
  length (_rrBuf q) = Z.to_nat RR_WIN
  /\ 0 <= _rrIdx q < RR_WIN /\ 0 <= _rrFill q <= RR_WIN.
Proof. unfold rate_state. intros H. injection H as -> -> -> _. auto. Qed.

Lemma peakDetectAndRR_rr_ok p C nowMs :
  length (_rrBuf p) = Z.to_nat RR_WIN
  /\ 0 <= _rrIdx p < RR_WIN /\ 0 <= _rrFill p <= RR_WIN ->
  let q := fst (peakDetectAndRR p C nowMs) in
  length (_rrBuf q) = Z.to_nat RR_WIN
  /\ 0 <= _rrIdx q < RR_WIN /\ 0 <= _rrFill q <= RR_WIN.
Proof.
  intros I. cbv zeta.
  destruct (peak_accepted p C nowMs) eqn:A;
    [|apply (rr_ok_ext p); [symmetry; apply peakDetectAndRR_rate_unchanged; auto | exact I]].
  destruct (Z.eq_dec (ChannelState.lastPeakMs C) 0) as [E | N];
    [apply (rr_ok_ext p); [symmetry; apply peakDetectAndRR_rate_unchanged; auto | exact I]|].
  destruct (plausible (ibiSec C nowMs)) eqn:P;
    [|apply (rr_ok_ext p); [symmetry; apply peakDetectAndRR_rate_unchanged; auto | exact I]].
  destruct (peakDetectAndRR_rate_pushed p C nowMs A N P) as (-> & -> & -> & _).
  destruct I as (L & I & F). unfold RR_WIN in *.
  rewrite length_insert. split; [exact L|].
  assert (M : 0 <= (_rrIdx p + 1) mod 6 < 6) by (apply Z.mod_pos_bound; lia).
  split.
  - unfold wrap8. rewrite Z.mod_small by lia. exact M.
  - destruct (_rrFill p <? 6) eqn:E; ltb_hyps; [|lia].
    unfold wrap8. rewrite Z.mod_small by lia. lia.
Qed.

Lemma tick_rr_ok p io :
  length (_rrBuf p) = Z.to_nat RR_WIN
  /\ 0 <= _rrIdx p < RR_WIN /\ 0 <= _rrFill p <= RR_WIN ->
  let q := fst (tick p io) in
  length (_rrBuf q) = Z.to_nat RR_WIN
  /\ 0 <= _rrIdx q < RR_WIN /\ 0 <= _rrFill q <= RR_WIN.
Proof.
  intros I. cbv zeta. pose proof (tick_rate_state p io) as R.
  destruct (tick_due p io && negb (tick_artifact p io)).
  - apply (rr_ok_ext _ _ (eq_sym R)). apply peakDetectAndRR_rr_ok.
    apply (rr_ok_ext p); [|exact I].
    symmetry. apply (tick_crossed_frame p io).
  - apply (rr_ok_ext _ _ (eq_sym R)). exact I.
Qed.

Lemma tick_chan_ok p io :
  chan_ok (_ch1 p) -> chan_ok (_ch2 p) ->
  chan_ok (_ch1 (fst (tick p io))) /\ chan_ok (_ch2 (fst (tick p io))).
Proof.
  intros C1 C2. destruct (tick_due p io) eqn:D.
  - destruct (tick_frame p io D) as (_ & _ & _ & _ & _ & _ & _ & -> & ->).
    destruct (tick_peaked_ma p io) as [M1 M2].
    split.
    + apply (chan_ok_ext _ _ (eq_sym M1)), processOne_chan_ok, C1.
    + apply (chan_ok_ext _ _ (eq_sym M2)), processOne_chan_ok, C2.
  - rewrite (tick_skipped p io D). split; assumption.
Qed.

Lemma tick_burst_bounds p io :
  length (_burstCh1 p) = Z.to_nat BURST_CAP
  /\ length (_burstCh2 p) = Z.to_nat BURST_CAP
  /\ 0 <= _burstHead p < BURST_CAP
  /\ 0 <= _burstTail p < BURST_CAP
  /\ 0 <= _burstFill p <= BURST_CAP ->
  let q := fst (tick p io) in
  length (_burstCh1 q) = Z.to_nat BURST_CAP
  /\ length (_burstCh2 q) = Z.to_nat BURST_CAP
  /\ 0 <= _burstHead q < BURST_CAP
  /\ 0 <= _burstTail q < BURST_CAP
  /\ 0 <= _burstFill q <= BURST_CAP.
Proof.
  intros (L1 & L2 & H & T & F). cbv zeta. destruct (tick_due p io) eqn:D.
  2:{ rewrite (tick_skipped p io D). auto. }
  pose proof (tick_burst_ring p io D) as R.
  rewrite pushBurst_ring in R. unfold burst_ring in R.
  injection R as -> -> -> -> ->.
  pose proof (burst_cap_bounds p) as B. unfold BURST_CAP in *.
  rewrite !length_insert.
  assert (M1 : 0 <= (_burstHead p + 1) mod burst_cap p < burst_cap p)
    by (apply Z.mod_pos_bound; lia).
  assert (M2 : 0 <= (_burstTail p + 1) mod burst_cap p < burst_cap p)
    by (apply Z.mod_pos_bound; lia).
  destruct (_burstFill p <? burst_cap p) eqn:E; ltb_hyps; repeat split; lia.
Qed.

Lemma tick_tele_wf p io : tele_wf p -> tele_wf (fst (tick p io)).
Proof.
  intros W. destruct (tick_due p io) eqn:D.
  - apply (tick_records_status_aux p io W D).
  - rewrite (tick_skipped p io D). exact W.
Qed.

Lemma call_in_bounds expf p c : in_bounds p -> in_bounds (fst (call expf p c)).
Proof.
  intros (C1 & C2 & R & T & B). destruct c; cbn [call fst].
  - (* begin *)
    split; [exact C1|]. split; [exact C2|]. split.
    { split; [reflexivity|]. unfold RR_WIN. cbn. lia. }
    split; [|exact B].
    destruct T as (TL & _). split; [exact TL|]. unfold TELE_CAP. cbn. lia.
  - (* tick *)
    destruct (tick_chan_ok p io C1 C2) as [C1' C2'].
    split; [exact C1'|]. split; [exact C2'|]. split.
    { apply tick_rr_ok, R. }
    split; [apply (tick_tele_wf p io T)|].
    apply tick_burst_bounds, B.
  - repeat split; try apply C1; try apply C2; try apply R; try apply T; apply B.
  - (* popTelemetry *)
    split; [|split; [|split; [|split]]].
    1-3, 5: unfold popTelemetry; destruct (_tlHead p =? _tlTail p); assumption.
    destruct (Z.eq_dec (_tlHead p) (_tlTail p)) as [E | N].
    + rewrite (popTelemetry_empty p out E). exact T.
    + apply (popTelemetry_some p out T N).
  - repeat split; try apply C1; try apply C2; try apply R; try apply T; apply B.
  - repeat split; try apply C1; try apply C2; try apply R; try apply T; apply B.
Qed.

(** X18.  No call of the public interface takes a cursor or a fill count out
    of its array: if every array has its declared size and every cursor
    and fill count lies within it, the same holds after any run of
    [begin], [tick], [setEventCallback], [popTelemetry], [triggerBurst]
    and [updateConfig], whatever the configurations and the inputs are.
    So the writes [maBuf[maIdx]], [_rrBuf[_rrIdx]], [_tele[_tlHead]] and
    [_burstCh1[_burstHead]] of the code stay inside their arrays. *)
Theorem run_stays_in_bounds expf cs : forall p,
  in_bounds p -> in_bounds (fst (run expf p cs)).
Proof.
  induction cs as [|c cs IH]; intros p I; cbn [run fst]; [exact I|].
  apply IH, call_in_bounds, I.
Qed.

Lemma run_stays_in_bounds_witness :
  in_bounds initial
  /\ in_bounds (fst (run expf_tiny initial (power_on ++ two_breaths))).
Proof.
  assert (I : in_bounds initial).
  { vm_compute. repeat split; first [reflexivity | discriminate]. }
  split; [exact I|].
  apply (run_stays_in_bounds expf_tiny (power_on ++ two_breaths) initial I).
Defined.

(** ** Configuration *)

(** Evaluate [begin] and [updateConfig] on a pipeline given by its fields. *)
Ltac eval_config :=
  cbv beta iota zeta delta
    [begin updateConfig
     set_ads set_cfg set_alphaDC set_alphaEnv set_alphaThr set_intervalUs
     set_nextSampleUs set_rrBuf set_rrIdx set_rrFill set_stat set_tlHead
     set_tlTail set_burstActive set_burstPostRemain set_lsb_mV
     _ads _cfg _ch1 _ch2 _stat _intervalUs _nextSampleUs _rrBuf _rrIdx _rrFill
     _tele _tlHead _tlTail _burstCh1 _burstCh2 _burstHead _burstTail _burstFill
     _burstActive _burstPostRemain _alphaDC _alphaEnv _alphaThr _lsb_mV _cb
     prevEnv prevAbove lastEventMs apneaActive hypoStartMs hypoActive
     rate_state tele_ring burst_ring burst_timer peak_statics hypo_fsm].

(** X19.  Reconfiguring is idempotent and the last configuration wins: the
    pipeline [updateConfig] leaves depends on the configuration passed
    and on nothing an earlier [updateConfig] has written; straight after
    [begin], reconfiguring with the configuration [begin] was given
    changes nothing. [updateConfig] rewrites the configuration and what
    is derived from it and nothing else: the channels, the rings, the
    status, the deadline, the callback and the machines are kept, so the
    pipeline keeps running on the accumulated state. *)
Theorem updateConfig_last_wins expf p ads cfg cfg' nowUs :
  updateConfig expf (updateConfig expf p cfg') cfg = updateConfig expf p cfg
  /\ updateConfig expf (begin expf p ads cfg nowUs) cfg = begin expf p ads cfg nowUs
  /\ (let q := updateConfig expf p cfg in
      (_ch1 q, _ch2 q, _stat q, rate_state q) = (_ch1 p, _ch2 p, _stat p, rate_state p)
      /\ (tele_ring q, burst_ring q, burst_timer q, _nextSampleUs q)
         = (tele_ring p, burst_ring p, burst_timer p, _nextSampleUs p)
      /\ (_ads q, _cb q, prevEnv q, peak_statics q, apneaActive q, hypo_fsm q)
         = (_ads p, _cb p, prevEnv p, peak_statics p, apneaActive p, hypo_fsm p)).
Proof. destruct p. repeat apply conj; eval_config; reflexivity. Qed.

(** X20.  The three calibration tables agree: after [begin] or
    [updateConfig], at every gain and for both converters, the rail
    voltage the artifact detector compares with is the magnitude of what
    [countsToMilliVolts] gives for the most negative count of the
    converter (-2048 for the 12-bit ADS1015, -32768 for the 16-bit
    ADS1115), with no rounding error: a reading at full scale is exactly
    at the rail. *)
Theorem rail_is_full_scale expf p ads cfg nowUs :
  let lowest := if Config.useADS1115 cfg then -32768 else -2048 in
  railMilliVolts (begin expf p ads cfg nowUs)
  = fabsf (countsToMilliVolts (begin expf p ads cfg nowUs) lowest)
  /\ railMilliVolts (updateConfig expf p cfg)
     = fabsf (countsToMilliVolts (updateConfig expf p cfg) lowest).
Proof.
  cbv zeta. unfold railMilliVolts, countsToMilliVolts.
  destruct p. eval_config.
  destruct (Config.adsGain cfg), (Config.useADS1115 cfg); split; vm_compute; reflexivity.
Qed.

(** ** The moving-average ring *)

Lemma processOne_warm p C mv k :
  0 <= k ->
  ChannelState.maIdx C = k mod ma_taps p ->
  ChannelState.maFill C = Z.min k (ma_taps p) ->
  ChannelState.maIdx (processOne p C mv) = (k + 1) mod ma_taps p
  /\ ChannelState.maFill (processOne p C mv) = Z.min (k + 1) (ma_taps p).
Proof.
  intros K I F.
  destruct (processOne_ma_state p C mv) as (_ & -> & ->).
  pose proof (ma_taps_bounds p) as T. unfold ChannelState.MAX_MA in T.
  rewrite I, F. split.
  - rewrite Zplus_mod_idemp_l.
    assert (M : 0 <= (k + 1) mod ma_taps p < ma_taps p) by (apply Z.mod_pos_bound; lia).
    unfold wrap8. apply Z.mod_small. lia.
  - destruct (Z.min k (ma_taps p) <? ma_taps p) eqn:E; ltb_hyps; [|lia].
    unfold wrap8. rewrite Z.mod_small by lia. lia.
Qed.

(** X21.  Warm-up of the anti-ring moving average: from a channel whose ring
    is empty, after [n] samples under one configuration the average is
    taken over [min(n, taps)] slots and the write cursor is at [n mod
    taps], where [taps] is [antiRingTaps] clamped to 1..8 (so 0 taps
    behave as 1 and more than 8 as 8). *)
Theorem moving_average_warms_up p C mvs :
  ChannelState.maIdx C = 0 -> ChannelState.maFill C = 0 ->
  let C' := foldl (processOne p) C mvs in
  let n := Z.of_nat (length mvs) in
  ChannelState.maFill C' = Z.min n (ma_taps p)
  /\ ChannelState.maIdx C' = n mod ma_taps p
  /\ 1 <= ma_taps p <= 8.
Proof.
  intros I F. cbv zeta.
  pose proof (ma_taps_bounds p) as T. unfold ChannelState.MAX_MA in T.
  assert (G : forall mvs C k, 0 <= k ->
            ChannelState.maIdx C = k mod ma_taps p ->
            ChannelState.maFill C = Z.min k (ma_taps p) ->
            ChannelState.maFill (foldl (processOne p) C mvs)
            = Z.min (k + Z.of_nat (length mvs)) (ma_taps p)
            /\ ChannelState.maIdx (foldl (processOne p) C mvs)
               = (k + Z.of_nat (length mvs)) mod ma_taps p).
  { clear. induction mvs as [|mv mvs IH]; intros C k K I F; cbn [foldl length].
    - rewrite Z.add_0_r. split; assumption.
    - destruct (processOne_warm p C mv k K I F) as [I' F'].
      destruct (IH _ (k + 1) ltac:(lia) I' F') as [A B].
      replace (k + Z.of_nat (S (length mvs))) with (k + 1 + Z.of_nat (length mvs)) by lia.
      split; assumption. }
  destruct (G mvs C 0) as [A B]; [lia | rewrite I; symmetry; apply Z.mod_0_l; lia
                                  | rewrite F; lia |].
  rewrite Z.add_0_l in A, B. split; [exact A|]. split; [exact B | exact T].
Qed.

Lemma moving_average_warms_up_witness :
  ChannelState.maFill
    (foldl (processOne booted) ChannelState.zero [Z2F 1; Z2F 2; Z2F 3; Z2F 4]) = 3
  /\ ChannelState.maIdx
       (foldl (processOne booted) ChannelState.zero [Z2F 1; Z2F 2; Z2F 3; Z2F 4]) = 1.
Proof.
  destruct (moving_average_warms_up booted ChannelState.zero [Z2F 1; Z2F 2; Z2F 3; Z2F 4])
    as (A & B & _); [reflexivity | reflexivity |].
  split; [rewrite A | rewrite B]; vm_compute; reflexivity.
Defined.

(** ** Counts, millivolts and back *)

(** Checked for each gain and each 12-bit count: converting the count to
    millivolts and back, as [countsToMilliVolts] and [handleBurst] do,
    returns the count. *)
Lemma counts_round_trip_checked :
  forallb
    (fun g =>
       forallb
         (fun c =>
            f2i16 (roundf (fdiv (fmul (Z2F c) (computeLsbMilliVolts false g))
                                (computeLsbMilliVolts false g))) =? c)
         (seqZ (-2048) 4096))
    [GAIN_TWOTHIRDS; GAIN_ONE; GAIN_TWO; GAIN_FOUR; GAIN_EIGHT; GAIN_SIXTEEN] = true.
Proof. vm_compute. reflexivity. Qed.

Lemma counts_round_trip p g c :
  _lsb_mV p = computeLsbMilliVolts false g ->
  -2048 <= c <= 2047 ->
  burst_counts p (countsToMilliVolts p c) = c.
Proof.
  intros L R. unfold burst_counts, countsToMilliVolts. rewrite L.
  pose proof counts_round_trip_checked as H.
  rewrite forallb_forall in H.
  assert (G : List.In g [GAIN_TWOTHIRDS; GAIN_ONE; GAIN_TWO; GAIN_FOUR; GAIN_EIGHT;
                         GAIN_SIXTEEN]) by (destruct g; cbn; auto 10).
  specialize (H g G). rewrite forallb_forall in H.
  apply Z.eqb_eq, H. apply list_elem_of_In, elem_of_seqZ. lia.
Qed.

(** X22.  With an ADS1015 attached and calibrated by [begin] or
    [updateConfig] at any gain, the burst capture is lossless: a tick
    that reads 12-bit counts on both channels pushes exactly those
    counts into the burst ring, the conversion to millivolts and back
    being exact. *)
Theorem tick_captures_raw_counts p io g :
  burst_wf p -> tick_due p io = true -> _ads p = true ->
  _lsb_mV p = computeLsbMilliVolts false g ->
  let c0 := readADC_SingleEnded io (Config.adsChannel1 (_cfg p)) in
  let c1 := readADC_SingleEnded io (Config.adsChannel2 (_cfg p)) in
  -2048 <= c0 <= 2047 -> -2048 <= c1 <= 2047 ->
  burst_held (fst (tick p io))
  = lastn (Z.to_nat (burst_cap p)) (burst_held p ++ [(c0, c1)]).
Proof.
  intros W D A L. cbv zeta. intros R0 R1.
  destruct (tick_burst_held p io W D) as [_ H]. rewrite H.
  unfold tick_mv0, tick_mv1. rewrite A.
  rewrite !(counts_round_trip p g) by assumption. reflexivity.
Qed.

Lemma tick_captures_raw_counts_witness :
  burst_held (fst (tick booted (reading 10000 10 (-5) 2047))) = [(-5, 2047)].
Proof.
  rewrite (tick_captures_raw_counts booted (reading 10000 10 (-5) 2047) GAIN_SIXTEEN).
  - vm_compute. reflexivity.
  - split; [vm_compute; reflexivity|]. split; [vm_compute; reflexivity|].
    vm_compute. repeat split; discriminate.
  - vm_compute. reflexivity.
  - reflexivity.
  - vm_compute. reflexivity.
  - vm_compute. split; discriminate.
  - vm_compute. split; discriminate.
Defined.

(** ** The artifact detector and the peak detector *)

(** X23.  A primary sample within the rail margin of the rail voltage is an
    artifact whatever the envelope does, and the spike test does not see
    it: [detectArtifact] returns before it updates its memory [prevEnv],
    so the next spike test compares with the envelope of the last tick
    that was not railed. On any other executed tick the memory becomes
    the primary envelope of the tick. *)
Theorem railed_sample_is_artifact p io :
  tick_due p io = true ->
  let rail := fle (fabsf (fsub (railMilliVolts p) (fabsf (tick_mvP p io))))
                  (Config.railMarginMV (_cfg p)) in
  let q := fst (tick p io) in
  (rail = true -> Status.artifact (getStatus q) = true /\ prevEnv q = prevEnv p)
  /\ (rail = false -> prevEnv q = Status.envPrimary (getStatus q)).
Proof.
  intros D. cbv zeta. destruct (tick_prevEnv p io D) as [E V].
  destruct (tick_frame p io D) as (_ & _ & _ & A & _).
  destruct (tick_store p io D) as (_ & _ & _ & _ & ST & _).
  destruct (tick_published_store p io) as (_ & _ & _ & _ & P1 & _).
  unfold getStatus. split; intros R; rewrite R in E.
  - split; [rewrite A; apply V, R | exact E].
  - rewrite E, ST, P1. reflexivity.
Qed.

Lemma railed_sample_is_artifact_witness :
  Status.artifact (getStatus (fst (tick booted (railed 10)))) = true
  /\ prevEnv (fst (tick booted (railed 10))) = prevEnv booted.
Proof.
  destruct (railed_sample_is_artifact booted (railed 10)) as [H _].
  - vm_compute. reflexivity.
  - apply H. vm_compute. reflexivity.
Defined.

Lemma peak_statics_eq p q :
  peak_statics p = peak_statics q ->
  prevAbove p = prevAbove q /\ lastEventMs p = lastEventMs q.
Proof. unfold peak_statics. intros H. injection H as -> ->. split; reflexivity. Qed.

Lemma peakDetectAndRR_prevAbove q C ms :
  prevAbove (fst (peakDetectAndRR q C ms))
  = fge (ChannelState.env C)
        (fmul (Config.thrFactor (_cfg q))
              (max_float (ChannelState.envBaseline C) (flit 1 1000000))).
Proof. unfold peakDetectAndRR. cbv zeta. repeat case_match; reflexivity. Qed.

Lemma detectPeak_prevAbove u ms q :
  prevAbove (detectPeak u false ms q)
  = prevAbove (fst (peakDetectAndRR q (getP u q) ms)).
Proof.
  unfold detectPeak. cbn [negb]. cbv zeta.
  set (r := peakDetectAndRR q (getP u q) ms). clearbody r.
  unfold setP. destruct u; reflexivity.
Qed.

Lemma tick_crossed_prevAbove p io : prevAbove (tick_crossed p io) = prevAbove p.
Proof.
  destruct (tick_crossed_frame p io) as (_ & _ & _ & _ & S & _).
  apply peak_statics_eq in S. apply S.
Qed.

(** X24.  A peak is accepted only on a rising edge of the envelope through
    the threshold, and the edge is consumed: the tick that accepts a
    peak found the detector below the threshold and leaves it above, so
    the next call of [tick], whatever it reads, accepts no peak. *)
Theorem peak_needs_rising_edge p io io' :
  accepts_peak p (CallTick io) = true ->
  prevAbove p = false
  /\ prevAbove (fst (tick p io)) = true
  /\ accepts_peak (fst (tick p io)) (CallTick io') = false.
Proof.
  cbn [accepts_peak]. intros A.
  apply andb_true_iff in A. destruct A as [A A3].
  apply andb_true_iff in A. destruct A as [D A2].
  apply negb_true_iff in A2.
  unfold peak_accepted in A3. cbv zeta in A3.
  apply andb_true_iff in A3. destruct A3 as [A3 _].
  apply andb_true_iff in A3. destruct A3 as [A3 _].
  apply andb_true_iff in A3. destruct A3 as [AB PA].
  apply negb_true_iff in PA. rewrite tick_crossed_prevAbove in PA.
  assert (Q : prevAbove (fst (tick p io)) = true).
  { destruct (tick_frame p io D) as (_ & _ & _ & _ & _ & _ & S & _).
    apply peak_statics_eq in S. destruct S as [-> _].
    rewrite tick_peaked_eq, A2, detectPeak_prevAbove, peakDetectAndRR_prevAbove.
    exact AB. }
  split; [exact PA|]. split; [exact Q|].
  unfold peak_accepted. cbv zeta. rewrite tick_crossed_prevAbove, Q.
  cbn [negb]. rewrite andb_false_r. cbn [andb]. apply andb_false_r.
Qed.

Lemma peak_needs_rising_edge_witness :
  accepts_peak (fst (run expf_tiny initial power_on)) (CallTick (sample 1000 80)) = true
  /\ accepts_peak
       (fst (tick (fst (run expf_tiny initial power_on)) (sample 1000 80)))
       (CallTick (sample 1010 240)) = false.
Proof.
  assert (A : accepts_peak (fst (run expf_tiny initial power_on))
                (CallTick (sample 1000 80)) = true) by (vm_compute; reflexivity).
  split; [exact A|].
  apply (peak_needs_rising_edge _ (sample 1000 80) (sample 1010 240) A).
Defined.

(** ** What [tick] leaves alone *)

(** X25.  No run of ticks writes the configuration, the coefficients derived
    from it, the ADC pointer or the callback: they are as the last
    [begin], [updateConfig] and [setEventCallback] left them. *)
Theorem ticks_keep_configuration p ios :
  let q := fst (ticks p ios) in
  _cfg q = _cfg p /\ _ads q = _ads p /\ _cb q = _cb p
  /\ (_alphaDC q, _alphaEnv q, _alphaThr q, _lsb_mV q, _intervalUs q)
     = (_alphaDC p, _alphaEnv p, _alphaThr p, _lsb_mV p, _intervalUs p).
Proof.
  cbv zeta. pose proof (ticks_control p ios) as C.
  assert (I : _intervalUs (fst (ticks p ios)) = _intervalUs p).
  { clear C. revert p. induction ios as [|io ios IH]; intros p; cbn [ticks fst].
    - reflexivity.
    - rewrite IH. destruct (tick_due p io) eqn:D.
      + destruct (tick_store p io D) as (S & _). unfold sched in S.
        injection S as -> _. reflexivity.
      + rewrite (tick_skipped p io D). reflexivity. }
  unfold control in C. injection C as -> -> -> -> -> -> ->. rewrite I.
  repeat split; reflexivity.
Qed.

(** X26.  A processing rate of 0 is run as 1 Hz where the code divides by
    it: [begin] derives the same sampling period (one second), the same
    three smoothing coefficients and the same countdown step as for 1
    Hz, with no division by zero. *)
Theorem zero_rate_runs_at_1Hz expf p ads cfg nowUs :
  let q0 := begin expf p ads (with_fsProcHz 0 cfg) nowUs in
  let q1 := begin expf p ads (with_fsProcHz 1 cfg) nowUs in
  (_intervalUs q0, burst_stepMs q0) = (1000000, 1000)
  /\ (_intervalUs q0, burst_stepMs q0, _alphaDC q0, _alphaEnv q0, _alphaThr q0)
     = (_intervalUs q1, burst_stepMs q1, _alphaDC q1, _alphaEnv q1, _alphaThr q1).
Proof.
  cbv zeta. unfold burst_stepMs. destruct p. eval_config.
  unfold with_fsProcHz, alphaFromTau. split; reflexivity.
Qed.

(** ** The apnea machine after a tick *)

(** X27.  The apnea machine has no memory beyond the crossing timestamp:
    after every executed tick, whatever its state was, it is Active
    exactly when at least [(uint32_t)(apneaMinSec * 1000)] milliseconds,
    counted modulo 2^32, separate the tick from the crossing timestamp
    of the primary channel as the tick leaves it. With an apnea duration
    that converts to 0 ms it is Active after every executed tick. *)
Theorem apnea_state_after_tick p io :
  tick_due p io = true ->
  let q := fst (tick p io) in
  apneaActive q
  = (wrap32 (millis io - ChannelState.lastCrossMs (getP (tick_useCh2 q) q))
     >=? apneaMinMs q)
  /\ (apneaMinMs p = 0 -> apneaActive q = true).
Proof.
  intros D. cbv zeta.
  rewrite (control_useCh2 _ _ (tick_control p io)).
  rewrite (apneaMinMs_control _ _ (tick_control p io)).
  destruct (tick_lastCrossMs p io D) as [-> _].
  rewrite (tick_apneaActive p io D). split; [reflexivity|].
  intros ->. apply Z.geb_le. unfold wrap32. apply Z.mod_pos_bound. lia.
Qed.

Lemma apnea_state_after_tick_witness :
  apneaActive (fst (tick timer_running (quiet 20010))) = true
  /\ apneaActive (fst (tick timer_running (quiet 19000))) = false.
Proof.
  destruct (apnea_state_after_tick timer_running (quiet 20010)) as [H _];
    [vm_compute; reflexivity|].
  destruct (apnea_state_after_tick timer_running (quiet 19000)) as [H' _];
    [vm_compute; reflexivity|].
  split; [rewrite H | rewrite H']; vm_compute; reflexivity.
Defined.
